(** * neo-go: state transition of transactions, the script VM's resource
    bounds, and the consensus prepareRequest payload.

  The development follows the repository:
  - [Consensus]  pkg/consensus: the prepareRequest payload (timestamps);
  - [Core]       pkg/core/transaction.go: processTXInput, processClaimTX and
                 processInvocationTX over the cached DAO;
  - [Vm]         pkg/vm: the script VM as the specification and vm_test.go
                 describe it (the interpreter itself is not part of the
                 sources at hand);
  - [Trigger]    pkg/smartcontract/trigger: the names of the trigger types;
  - [Compiler]   pkg/compiler/func_scope.go: the local variables of a
                 function scope. *)

From Stdlib Require Import ZArith Lia List Bool String DecimalString DecimalN.
From stdpp Require Import base numbers option list gmap strings.

Import ListNotations.

Set Warnings "-register-all".

(** ** Machine integers *)

Module Int.
Local Open Scope Z_scope.

(** Go's uint64: values are taken modulo 2^64. *)
Definition wrap_u64 (z : Z) : Z := z mod 2 ^ 64.

(** Go's int64: two's complement wrap-around into [-2^63, 2^63). *)
Definition wrap_i64 (z : Z) : Z := (z + 2 ^ 63) mod 2 ^ 64 - 2 ^ 63.

Definition is_u64 (z : Z) : Prop := 0 <= z < 2 ^ 64.
Definition is_i64 (z : Z) : Prop := - 2 ^ 63 <= z < 2 ^ 63.

Lemma wrap_u64_small z : is_u64 z -> wrap_u64 z = z.
Proof. intros H. unfold wrap_u64. apply Z.mod_small. exact H. Qed.

Lemma wrap_i64_small z : is_i64 z -> wrap_i64 z = z.
Proof.
  intros [Hlo Hhi]. unfold wrap_i64.
  rewrite Z.mod_small; lia.
Qed.

Lemma wrap_i64_range z : is_i64 (wrap_i64 z).
Proof.
  unfold is_i64, wrap_i64.
  pose proof (Z.mod_pos_bound (z + 2 ^ 63) (2 ^ 64)) as H.
  lia.
Qed.
End Int.

(** ** pkg/consensus: prepareRequest *)

Module Consensus.
Local Open Scope Z_scope.

(** [prepareRequest] as the struct has it; hashes are kept as integers. *)
Record prepareRequest := mkPrepareRequest {
  timestamp : Z;                 (* uint64 *)
  nonce : Z;                     (* uint64 *)
  transactionHashes : list Z;    (* []util.Uint256 *)
  nextConsensus : Z              (* util.Uint160 *)
}.

(** func (p *prepareRequest) Timestamp() uint64 { return p.timestamp * 1000000 } *)
Definition Timestamp (p : prepareRequest) : Z :=
  Int.wrap_u64 (timestamp p * 1000000).

(** func (p *prepareRequest) SetTimestamp(ts uint64) { p.timestamp = ts / 1000000 } *)
Definition SetTimestamp (p : prepareRequest) (ts : Z) : prepareRequest :=
  {| timestamp := ts / 1000000;
     nonce := nonce p;
     transactionHashes := transactionHashes p;
     nextConsensus := nextConsensus p |}.

Definition Nonce (p : prepareRequest) : Z := nonce p.

Definition SetNonce (p : prepareRequest) (n : Z) : prepareRequest :=
  {| timestamp := timestamp p;
     nonce := n;
     transactionHashes := transactionHashes p;
     nextConsensus := nextConsensus p |}.

Lemma SetTimestamp_field p ts : timestamp (SetTimestamp p ts) = ts / 1000000.
Proof. reflexivity. Qed.

Lemma SetTimestamp_keeps p ts :
  nonce (SetTimestamp p ts) = nonce p /\
  transactionHashes (SetTimestamp p ts) = transactionHashes p /\
  nextConsensus (SetTimestamp p ts) = nextConsensus p.
Proof. repeat split. Qed.

(** The product computed by [Timestamp] after [SetTimestamp] never leaves
    the uint64 range, so the wrap-around is not taken. *)
Lemma roundtrip_no_wrap ts :
  Int.is_u64 ts -> Int.is_u64 (ts / 1000000 * 1000000).
Proof.
  intros [Hlo Hhi]. unfold Int.is_u64.
  pose proof (Z.mul_div_le ts 1000000 ltac:(lia)) as Hle.
  pose proof (Z.div_pos ts 1000000 Hlo ltac:(lia)) as Hq.
  lia.
Qed.

(** C10. For every 64-bit [ts], [Timestamp] after [SetTimestamp ts] is [ts]
    rounded down to a multiple of 1,000,000: the stored field is
    [ts / 1000000], the result is that field times 1,000,000, and the round
    trip is the identity exactly when 1,000,000 divides [ts]. *)
Theorem Timestamp_SetTimestamp (p : prepareRequest) (ts : Z) :
  Int.is_u64 ts ->
  timestamp (SetTimestamp p ts) = ts / 1000000 /\
  Timestamp (SetTimestamp p ts) = timestamp (SetTimestamp p ts) * 1000000 /\
  Timestamp (SetTimestamp p ts) = ts - ts mod 1000000 /\
  (Timestamp (SetTimestamp p ts) = ts <-> ts mod 1000000 = 0).
Proof.
  intros Hts.
  assert (Hval : Timestamp (SetTimestamp p ts) = ts / 1000000 * 1000000).
  { unfold Timestamp. rewrite SetTimestamp_field.
    apply Int.wrap_u64_small, roundtrip_no_wrap, Hts. }
  pose proof (Z.div_mod ts 1000000 ltac:(lia)) as Hdm.
  split; [reflexivity|].
  split; [rewrite Hval; reflexivity|].
  split; [rewrite Hval; lia|].
  rewrite Hval. split; intros H; lia.
Qed.

Lemma Timestamp_SetTimestamp_witness :
  let p := mkPrepareRequest 0 7 [] 0 in
  timestamp (SetTimestamp p 1234567890) = 1234567890 / 1000000 /\
  Timestamp (SetTimestamp p 1234567890)
    = timestamp (SetTimestamp p 1234567890) * 1000000 /\
  Timestamp (SetTimestamp p 1234567890) = 1234567890 - 1234567890 mod 1000000 /\
  (Timestamp (SetTimestamp p 1234567890) = 1234567890
     <-> 1234567890 mod 1000000 = 0).
Proof.
  apply (Timestamp_SetTimestamp (mkPrepareRequest 0 7 [] 0) 1234567890).
  unfold Int.is_u64. lia.
Defined.

Example Timestamp_rounds_down :
  Timestamp (SetTimestamp (mkPrepareRequest 0 0 [] 0) 1234567890) = 1234000000.
Proof. reflexivity. Qed.

Example Timestamp_exact_multiple :
  Timestamp (SetTimestamp (mkPrepareRequest 0 0 [] 0) 5000000) = 5000000.
Proof. reflexivity. Qed.

(** *** The wire form (lines 19-33).  io.BinWriter and io.BinReader are not
    in the sources at hand.  A writer is the buffer of the bytes written so
    far; a reader is made from a buffer; ReadBytes and ReadArray are handed
    the field they fill, as the source hands them a slice and a pointer. *)

Section Binary.
Variable BinReader : Type.
Variable NewBinReaderFromBuf : list Z -> BinReader.
Variable WriteU64LE : list Z -> Z -> list Z.
Variable WriteBytes : list Z -> Z -> list Z.
Variable WriteArray : list Z -> list Z -> list Z.
Variable ReadU64LE : BinReader -> Z * BinReader.
Variable ReadBytes : BinReader -> Z -> Z * BinReader.
Variable ReadArray : BinReader -> list Z -> list Z * BinReader.

(** func (p *prepareRequest) EncodeBinary(w *io.BinWriter) *)
Definition EncodeBinary (p : prepareRequest) (w : list Z) : list Z :=
  let w1 := WriteU64LE w (timestamp p) in
  let w2 := WriteU64LE w1 (nonce p) in
  let w3 := WriteBytes w2 (nextConsensus p) in
  WriteArray w3 (transactionHashes p).

(** func (p *prepareRequest) DecodeBinary(r *io.BinReader) *)
Definition DecodeBinary (p : prepareRequest) (r : BinReader) : prepareRequest * BinReader :=
  let '(ts, r1) := ReadU64LE r in
  let '(n, r2) := ReadU64LE r1 in
  let '(nc, r3) := ReadBytes r2 (nextConsensus p) in
  let '(hs, r4) := ReadArray r3 (transactionHashes p) in
  ({| timestamp := ts; nonce := n; transactionHashes := hs; nextConsensus := nc |}, r4).

(** What is asked of the io package: a write appends to the buffer, and a
    read gives back what the matching write has appended and goes on
    behind it. *)
Definition lawfulIO : Prop :=
  (forall w x, WriteU64LE w x = w ++ WriteU64LE [] x) /\
  (forall w x, WriteBytes w x = w ++ WriteBytes [] x) /\
  (forall w l, WriteArray w l = w ++ WriteArray [] l) /\
  (forall x rest, Int.is_u64 x ->
     ReadU64LE (NewBinReaderFromBuf (WriteU64LE [] x ++ rest))
       = (x, NewBinReaderFromBuf rest)) /\
  (forall x old rest,
     ReadBytes (NewBinReaderFromBuf (WriteBytes [] x ++ rest)) old
       = (x, NewBinReaderFromBuf rest)) /\
  (forall l old rest,
     ReadArray (NewBinReaderFromBuf (WriteArray [] l ++ rest)) old
       = (l, NewBinReaderFromBuf rest)).

End Binary.

(** An io package of the simplest kind, on which the wire form runs: every
    value is one element of the buffer, an array is its length and then its
    elements. *)
Module ListIO.
Definition BinReader : Type := list Z.
Definition NewBinReaderFromBuf (b : list Z) : BinReader := b.
Definition WriteU64LE (w : list Z) (x : Z) : list Z := w ++ [x].
Definition WriteBytes (w : list Z) (x : Z) : list Z := w ++ [x].
Definition WriteArray (w : list Z) (l : list Z) : list Z := w ++ Z.of_nat (length l) :: l.
Definition ReadU64LE (r : BinReader) : Z * BinReader :=
  match r with
  | x :: r' => (x, r')
  | [] => (0, [])
  end.
Definition ReadBytes (r : BinReader) (old : Z) : Z * BinReader :=
  match r with
  | x :: r' => (x, r')
  | [] => (old, [])
  end.
Definition ReadArray (r : BinReader) (old : list Z) : list Z * BinReader :=
  match r with
  | n :: r' => (take (Z.to_nat n) r', drop (Z.to_nat n) r')
  | [] => (old, [])
  end.
End ListIO.

Lemma ListIO_lawful :
  lawfulIO ListIO.BinReader ListIO.NewBinReaderFromBuf ListIO.WriteU64LE ListIO.WriteBytes
           ListIO.WriteArray ListIO.ReadU64LE ListIO.ReadBytes ListIO.ReadArray.
Proof.
  repeat split; try reflexivity.
  - intros l old rest. unfold ListIO.WriteArray, ListIO.ReadArray,
      ListIO.NewBinReaderFromBuf. simpl. rewrite Nat2Z.id.
    rewrite take_app_length, drop_app_length. reflexivity.
Qed.

Lemma Timestamp_value (p : prepareRequest) (ts : Z) :
  Int.is_u64 ts -> Timestamp (SetTimestamp p ts) = ts / 1000000 * 1000000.
Proof.
  intros Hts. unfold Timestamp. rewrite SetTimestamp_field.
  apply Int.wrap_u64_small, roundtrip_no_wrap, Hts.
Qed.

(** X11. Setting the timestamp to what Timestamp returns changes nothing:
    once a time has gone through SetTimestamp, the payload is a fixed point
    of the round trip, and reading it again gives the same time. *)
Theorem SetTimestamp_Timestamp_stable (p : prepareRequest) (ts : Z) :
  Int.is_u64 ts ->
  SetTimestamp (SetTimestamp p ts) (Timestamp (SetTimestamp p ts)) = SetTimestamp p ts /\
  Timestamp (SetTimestamp (SetTimestamp p ts) (Timestamp (SetTimestamp p ts)))
    = Timestamp (SetTimestamp p ts).
Proof.
  intros Hts.
  assert (Hfix : SetTimestamp (SetTimestamp p ts) (Timestamp (SetTimestamp p ts))
                 = SetTimestamp p ts).
  { rewrite (Timestamp_value p ts Hts). unfold SetTimestamp; simpl.
    rewrite Z.div_mul by lia. reflexivity. }
  split; [exact Hfix|]. rewrite Hfix. reflexivity.
Qed.

(** X12. The round trip keeps the order of times and loses less than
    1,000,000 of a time: a later time never reads back as an earlier one,
    and two times read back as the same time exactly when they have the
    same quotient by 1,000,000. *)
Theorem Timestamp_SetTimestamp_monotone (p q : prepareRequest) (ts1 ts2 : Z) :
  Int.is_u64 ts1 -> Int.is_u64 ts2 ->
  (ts1 <= ts2 -> Timestamp (SetTimestamp p ts1) <= Timestamp (SetTimestamp q ts2)) /\
  (Timestamp (SetTimestamp p ts1) = Timestamp (SetTimestamp q ts2)
     <-> ts1 / 1000000 = ts2 / 1000000) /\
  ts1 - 1000000 < Timestamp (SetTimestamp p ts1) <= ts1.
Proof.
  intros H1 H2.
  rewrite (Timestamp_value p ts1 H1), (Timestamp_value q ts2 H2).
  pose proof (Z.div_mod ts1 1000000 ltac:(lia)) as Hdm.
  pose proof (Z.mod_pos_bound ts1 1000000 ltac:(lia)) as Hm.
  split; [|split].
  - intros Hle. pose proof (Z.div_le_mono ts1 ts2 1000000 ltac:(lia) Hle). lia.
  - split; intros H; lia.
  - lia.
Qed.

(** X13. Timestamp is the stored field times 1,000,000 only while the
    product fits 64 bits, that is, for a field of at most 18446744073709;
    above that (a field that SetTimestamp never stores, but DecodeBinary
    may read) the product wraps around, and Timestamp is smaller than it. *)
Theorem Timestamp_exact_iff (p : prepareRequest) :
  Int.is_u64 (timestamp p) ->
  (Timestamp p = timestamp p * 1000000 <-> timestamp p <= 18446744073709) /\
  (18446744073709 < timestamp p -> Timestamp p < timestamp p * 1000000) /\
  Int.is_u64 (Timestamp p).
Proof.
  intros [Hlo Hhi]. unfold Timestamp, Int.wrap_u64, Int.is_u64 in *.
  pose proof (Z.mod_pos_bound (timestamp p * 1000000) (2 ^ 64) ltac:(lia)) as Hm.
  split; [|split].
  - split.
    + intros Heq. rewrite Heq in Hm. lia.
    + intros Hle. apply Z.mod_small. lia.
  - intros Hgt. lia.
  - exact Hm.
Qed.

(** X14. DecodeBinary reads back the payload EncodeBinary has written,
    whatever the payload that is decoded into held before and whatever
    follows in the buffer, and leaves the reader behind the payload: the
    two functions take the fields in the same order, the timestamp, the
    nonce, the next consensus address and the transaction hashes.  This is
    for an io package whose reads give back what its writes have
    appended. *)
Theorem DecodeBinary_EncodeBinary (BinReader : Type)
    (NewBinReaderFromBuf : list Z -> BinReader)
    (WriteU64LE WriteBytes : list Z -> Z -> list Z)
    (WriteArray : list Z -> list Z -> list Z)
    (ReadU64LE : BinReader -> Z * BinReader)
    (ReadBytes : BinReader -> Z -> Z * BinReader)
    (ReadArray : BinReader -> list Z -> list Z * BinReader)
    (p q : prepareRequest) (rest : list Z) :
  lawfulIO BinReader NewBinReaderFromBuf WriteU64LE WriteBytes WriteArray
           ReadU64LE ReadBytes ReadArray ->
  Int.is_u64 (timestamp p) -> Int.is_u64 (nonce p) ->
  DecodeBinary BinReader ReadU64LE ReadBytes ReadArray q
    (NewBinReaderFromBuf (EncodeBinary WriteU64LE WriteBytes WriteArray p [] ++ rest))
  = (p, NewBinReaderFromBuf rest).
Proof.
  intros (Hw64 & Hwb & Hwa & Hr64 & Hrb & Hra) Hts Hn.
  unfold EncodeBinary, DecodeBinary.
  rewrite (Hwa _ (transactionHashes p)), (Hwb _ (nextConsensus p)), (Hw64 _ (nonce p)).
  rewrite <- !app_assoc.
  rewrite (Hr64 _ _ Hts), (Hr64 _ _ Hn), Hrb, Hra.
  destruct p; reflexivity.
Qed.

Lemma SetTimestamp_Timestamp_stable_witness :
  let p := mkPrepareRequest 0 7 [] 0 in
  SetTimestamp (SetTimestamp p 1234567890) (Timestamp (SetTimestamp p 1234567890))
    = SetTimestamp p 1234567890 /\
  Timestamp (SetTimestamp (SetTimestamp p 1234567890)
               (Timestamp (SetTimestamp p 1234567890)))
    = Timestamp (SetTimestamp p 1234567890).
Proof.
  apply (SetTimestamp_Timestamp_stable (mkPrepareRequest 0 7 [] 0) 1234567890).
  unfold Int.is_u64. lia.
Defined.

Lemma Timestamp_SetTimestamp_monotone_witness :
  let p := mkPrepareRequest 0 7 [] 0 in
  (1999999 <= 2000000 ->
   Timestamp (SetTimestamp p 1999999) <= Timestamp (SetTimestamp p 2000000)) /\
  (Timestamp (SetTimestamp p 1999999) = Timestamp (SetTimestamp p 2000000)
     <-> 1999999 / 1000000 = 2000000 / 1000000) /\
  1999999 - 1000000 < Timestamp (SetTimestamp p 1999999) <= 1999999.
Proof.
  apply (Timestamp_SetTimestamp_monotone (mkPrepareRequest 0 7 [] 0)
           (mkPrepareRequest 0 7 [] 0) 1999999 2000000);
    unfold Int.is_u64; lia.
Defined.

Lemma Timestamp_exact_iff_witness :
  let p := mkPrepareRequest 18446744073710 0 [] 0 in
  (Timestamp p = timestamp p * 1000000 <-> timestamp p <= 18446744073709) /\
  (18446744073709 < timestamp p -> Timestamp p < timestamp p * 1000000) /\
  Int.is_u64 (Timestamp p).
Proof.
  apply (Timestamp_exact_iff (mkPrepareRequest 18446744073710 0 [] 0)).
  unfold Int.is_u64. simpl. lia.
Defined.

(** The first field that is too large: the product wraps to 448384. *)
Example Timestamp_wraps :
  Timestamp (mkPrepareRequest 18446744073710 0 [] 0) = 448384 /\
  Timestamp (mkPrepareRequest 18446744073709 0 [] 0) = 18446744073709000000.
Proof. split; reflexivity. Qed.

Lemma DecodeBinary_EncodeBinary_witness :
  let p := mkPrepareRequest 1234 7 [11; 12; 13] 99 in
  DecodeBinary ListIO.BinReader ListIO.ReadU64LE ListIO.ReadBytes ListIO.ReadArray
    (mkPrepareRequest 5 6 [1] 2)
    (ListIO.NewBinReaderFromBuf
       (EncodeBinary ListIO.WriteU64LE ListIO.WriteBytes ListIO.WriteArray p [] ++ [42]))
  = (p, ListIO.NewBinReaderFromBuf [42]).
Proof.
  apply (DecodeBinary_EncodeBinary ListIO.BinReader ListIO.NewBinReaderFromBuf
           ListIO.WriteU64LE ListIO.WriteBytes ListIO.WriteArray
           ListIO.ReadU64LE ListIO.ReadBytes ListIO.ReadArray
           (mkPrepareRequest 1234 7 [11; 12; 13] 99) (mkPrepareRequest 5 6 [1] 2) [42]).
  - exact ListIO_lawful.
  - unfold Int.is_u64. simpl. lia.
  - unfold Int.is_u64. simpl. lia.
Defined.

End Consensus.

(** ** pkg/core/transaction.go *)

Module Core.
Local Open Scope N_scope.

(** *** Data, as the structs of pkg/core/state and pkg/core/transaction have
    it.  Hashes (util.Uint256, util.Uint160) and the unsigned fields are
    naturals, util.Fixed8 amounts are (64-bit signed) integers. *)

(** transaction.Input *)
Record Input := mkInput {
  PrevHash : N;
  PrevIndex : N            (* uint16 *)
}.

(** transaction.Output, the fields the processing reads *)
Record TxOutput := mkOutput {
  AssetID : N;
  Amount : Z;              (* util.Fixed8 *)
  ScriptHash : N
}.

(** state.OutputState: the output with its spend height and coin flags *)
Record OutputState := mkOutputState {
  Output : TxOutput;
  SpendHeight : N;         (* uint32 *)
  State : N                (* state.Coin, a byte of flags *)
}.

(** state.UnspentCoin *)
Record UnspentCoin := mkUnspentCoin {
  Height : N;
  States : list OutputState
}.

(** state.UnspentBalance *)
Record UnspentBalance := mkUnspentBalance {
  ub_Tx : N;
  ub_Index : N;
  ub_Value : Z
}.

(** state.UnclaimedBalance *)
Record UnclaimedBalance := mkUnclaimedBalance {
  uc_Tx : N;
  uc_Index : N;
  uc_Start : N;
  uc_End : N;
  uc_Value : Z
}.

(** state.Account; [Unclaimed] is the account's state.UnclaimedBalances. *)
Record Account := mkAccount {
  Version : N;
  acc_ScriptHash : N;
  IsFrozen : bool;
  Votes : list N;
  Balances : gmap N (list UnspentBalance);
  Unclaimed : list UnclaimedBalance
}.

(** block.Block: only the index is read here. *)
Record Block := mkBlock { Index : N }.

(** transaction.Transaction with the results of its Hash() and
    VerificationHash() methods. *)
Record Transaction := mkTransaction {
  Hash : N;
  VerificationHash : N;
  Inputs : list Input
}.

Record ClaimTX := mkClaimTX { Claims : list Input }.

Record InvocationTX := mkInvocationTX {
  Script : list N;
  Gas : Z                  (* util.Fixed8 *)
}.

(** The errors the three functions build themselves, and those handed up from
    the DAO and the VM. *)
Inductive error :=
| ErrBadInput (h i : N)            (* "bad input: %s/%d" *)
| ErrDoubleSpend (h i : N)         (* "double spend: %s/%d" *)
| ErrInvalidClaimIndex             (* "invalid claim index" *)
| ErrDoubleClaim                   (* "double claim" *)
| ErrExternal (code : N)           (* an error of the DAO, the store or the VM *)
| ErrWrap (e : error) (msg : string).

Inductive res (A : Type) :=
| Ok (a : A)
| Err (e : error).
Arguments Ok {A} a.
Arguments Err {A} e.

(** errors.Wrap returns nil for a nil error. *)
Definition Wrap (e : option error) (msg : string) : option error :=
  match e with
  | None => None
  | Some e' => Some (ErrWrap e' msg)
  end.

(** bc.log.Warn calls, with their fields. *)
Inductive LogEntry :=
| WarnFalseOrDoubleClaim (prevHash prevIndex tx block : N)
| WarnNoSpentCoin (tx input account : N)
| WarnInvocationFailed (tx block : N) (err : option error).

(** bc.config, the two options read here. *)
Record Config := mkConfig {
  VerifyTransactions : bool;
  FreeGasLimit : Z         (* util.Fixed8 *)
}.

(** vm.State: NONE, BREAK, HALT and FAULT. *)
Inductive VMState := NONE | BREAK | HALT | FAULT.

(** trigger.Type: Verification = 0x00, VerificationR = 0x01,
    Application = 0x10, ApplicationR = 0x11. *)
Inductive TriggerType := Verification | VerificationR | Application | ApplicationR.

Definition trigger_code (t : TriggerType) : N :=
  match t with
  | Verification => 0
  | VerificationR => 1
  | Application => 16
  | ApplicationR => 17
  end.

(** What Value() of a stack item gives, as far as the type assertions of
    processInvocationTX tell the cases apart. *)
Inductive StackItem :=
| ItemArray (l : list StackItem)   (* []vm.StackItem *)
| ItemBytes (b : list N)           (* []byte *)
| ItemBigInt (z : Z)               (* *big.Int *)
| ItemOther.

(** state.NotificationEvent *)
Record NotificationEvent := mkNotification {
  note_ScriptHash : N;
  note_Item : StackItem
}.

(** state.AppExecResult *)
Record AppExecResult := mkAppExecResult {
  TxHash : N;
  Trigger : TriggerType;
  aer_VMState : VMState;
  GasConsumed : Z;
  Stack : list StackItem;
  Events : list NotificationEvent
}.

(** What processInvocationTX configures on the VM before Run: the checked
    hash, the loaded script, the price getter and, when it is set at all, the
    gas limit. *)
Record VMSetup := mkVMSetup {
  CheckedHash : N;
  LoadedScript : list N;
  PriceGetter : bool;
  GasLimit : option Z
}.

(** The VM and its interop context after Run, as processInvocationTX reads
    them: v.State(), the error of Run, v.GasConsumed(), v.Estack(), and the
    interop context's notifications and staged DAO. *)
Record VMOutcome (stagedDao : Type) := mkVMOutcome {
  vm_State : VMState;
  vm_Err : option error;
  vm_GasConsumed : Z;
  vm_Estack : list StackItem;
  notifications : list NotificationEvent;
  dao : stagedDao
}.
Arguments vm_State {stagedDao} _.
Arguments vm_Err {stagedDao} _.
Arguments vm_GasConsumed {stagedDao} _.
Arguments vm_Estack {stagedDao} _.
Arguments notifications {stagedDao} _.
Arguments dao {stagedDao} _.

(** Modelled from the spec: vm.HasFailed, which is not in the sources at
    hand; FAULT is the terminal failure state of the VM. *)
Definition HasFailed {stagedDao : Type} (v : VMOutcome stagedDao) : bool :=
  match vm_State v with
  | FAULT => true
  | _ => false
  end.

(** *** The collaborators of transaction.go that are not in the sources at
    hand: the cached DAO, the coin flags, the governing token, the helpers
    of the state package and the VM with its interop context.  Every DAO
    call may change the cache and may fail. *)
Class Env (cachedDao stagedDao : Type) := {
  CoinSpent : N;
  CoinClaimed : N;
  GoverningTokenID : N;
  GetAccountStateOrNew : cachedDao -> N -> cachedDao * res Account;
  GetAccountState : cachedDao -> N -> cachedDao * res Account;
  PutAccountState : cachedDao -> Account -> cachedDao * option error;
  GetUnspentCoinState : cachedDao -> N -> cachedDao * res UnspentCoin;
  PutUnspentCoinState : cachedDao -> N -> UnspentCoin -> cachedDao * option error;
  PutAppExecResult : cachedDao -> AppExecResult -> cachedDao * option error;
  (* state.UnclaimedBalances.Put and .Remove *)
  UnclaimedPut : list UnclaimedBalance -> UnclaimedBalance -> res (list UnclaimedBalance);
  UnclaimedRemove : list UnclaimedBalance -> N -> N -> bool * list UnclaimedBalance;
  (* receives the account by pointer *)
  processTXWithValidatorsSubtract :
    TxOutput -> Account -> cachedDao -> Account * cachedDao * option error;
  (* newInteropContext, spawnVMWithInterops and Run: the run of the VM that
     was set up, over the store of the cache, for a block and a transaction *)
  RunVM : TriggerType -> cachedDao -> Block -> Transaction -> VMSetup -> VMOutcome stagedDao;
  (* systemInterop.dao.Persist *)
  Persist : cachedDao -> stagedDao -> cachedDao * res N;
  processNEP5Transfer : cachedDao -> Transaction -> Block -> N -> list N -> list N -> Z -> cachedDao;
  (* emit.BytesToInt and big.Int.Int64 *)
  BytesToInt : list N -> Z;
  Int64 : Z -> Z
}.

Section Transaction.
Context {cachedDao stagedDao : Type} `{E : Env cachedDao stagedDao}.

(** The coin flags of an output state after [State |= flag]. *)
Definition setFlag (flag : N) (st : OutputState) : OutputState :=
  {| Output := Output st; SpendHeight := SpendHeight st; State := N.lor (State st) flag |}.

(** Lines 26-27: the output state once it is spent in [block]. *)
Definition markSpent (block : Block) (st : OutputState) : OutputState :=
  {| Output := Output st; SpendHeight := Index block;
     State := N.lor (State st) CoinSpent |}.

(** The index of the first balance with the given transaction and index (the
    loop of lines 55-60), if any. *)
Fixpoint findBalance (h i : N) (l : list UnspentBalance) : option nat :=
  match l with
  | [] => None
  | b :: rest =>
      if (ub_Tx b =? h) && (ub_Index b =? i) then Some 0%nat
      else option_map S (findBalance h i rest)
  end.

(** Lines 50-68: the balance of the spent output leaves the account. *)
Definition removeBalance (account : Account) (asset h i : N) : Account :=
  let balances := default [] (Balances account !! asset) in
  let balancesLen := length balances in
  let Balances' :=
    if (balancesLen <=? 1)%nat then delete asset (Balances account)
    else
      match findBalance h i balances with
      | None => Balances account
      | Some index =>
          let last := (balancesLen - 1)%nat in
          let moved :=
            if (index <? last)%nat then
              match balances !! last with
              | Some b => <[index := b]> balances
              | None => balances
              end
            else balances in
          <[asset := take last moved]> (Balances account)
      end in
  {| Version := Version account; acc_ScriptHash := acc_ScriptHash account;
     IsFrozen := IsFrozen account; Votes := Votes account;
     Balances := Balances'; Unclaimed := Unclaimed account |}.

Definition setUnclaimed (account : Account) (u : list UnclaimedBalance) : Account :=
  {| Version := Version account; acc_ScriptHash := acc_ScriptHash account;
     IsFrozen := IsFrozen account; Votes := Votes account;
     Balances := Balances account; Unclaimed := u |}.

(** processTXInput (lines 19-70).  [unspent] is a pointer in the source and
    is changed in place, so the coin state comes back with the result,
    whatever the result is. *)
Definition processTXInput (input : Input) (unspent : UnspentCoin) (block : Block)
    (cache : cachedDao) : UnspentCoin * cachedDao * option error :=
  let i := N.to_nat (PrevIndex input) in
  match States unspent !! i with
  | None =>
      (* len(unspent.States) <= int(input.PrevIndex) *)
      (unspent, cache, Some (ErrBadInput (PrevHash input) (PrevIndex input)))
  | Some st =>
      if negb (N.land (State st) CoinSpent =? 0) then
        (unspent, cache, Some (ErrDoubleSpend (PrevHash input) (PrevIndex input)))
      else
        let st' := markSpent block st in
        let unspent' := {| Height := Height unspent;
                           States := <[i := st']> (States unspent) |} in
        let prevTXOutput := Output st' in
        match GetAccountStateOrNew cache (ScriptHash prevTXOutput) with
        | (cache1, Err e) => (unspent', cache1, Some e)
        | (cache1, Ok account) =>
            let '(cache2, governed) :=
              if AssetID prevTXOutput =? GoverningTokenID then
                match UnclaimedPut (Unclaimed account)
                        {| uc_Tx := PrevHash input; uc_Index := PrevIndex input;
                           uc_Start := Height unspent; uc_End := Index block;
                           uc_Value := Amount prevTXOutput |} with
                | Err e => (cache1, Err e)
                | Ok u =>
                    match processTXWithValidatorsSubtract prevTXOutput
                            (setUnclaimed account u) cache1 with
                    | (_, cache2, Some e) => (cache2, Err e)
                    | (account', cache2, None) => (cache2, Ok account')
                    end
                end
              else (cache1, Ok account) in
            match governed with
            | Err e => (unspent', cache2, Some e)
            | Ok account1 =>
                let account2 :=
                  removeBalance account1 (AssetID prevTXOutput)
                                (PrevHash input) (PrevIndex input) in
                let '(cache3, err) := PutAccountState cache2 account2 in
                (unspent', cache3, err)
            end
        end
  end.

(** How one turn of the loop over the claims ends: the loop goes on with the
    next claim, is left ([break]), or the function returns an error. *)
Inductive Flow :=
| Next
| Break
| Return (e : error).

(** Lines 152-159: the claimed coin is looked up and checked. *)
Definition checkClaim (input : Input) (cache : cachedDao) : cachedDao * res UnspentCoin :=
  match GetUnspentCoinState cache (PrevHash input) with
  | (cache1, Err e) => (cache1, Err e)
  | (cache1, Ok scs) =>
      match States scs !! N.to_nat (PrevIndex input) with
      | None => (cache1, Err ErrInvalidClaimIndex)
      | Some st =>
          if negb (N.land (State st) CoinClaimed =? 0) then (cache1, Err ErrDoubleClaim)
          else (cache1, Ok scs)
      end
  end.

(** The coin state with the claimed flag of output [i] set (line 181). *)
Definition markClaimed (scs : UnspentCoin) (i : nat) : UnspentCoin :=
  match States scs !! i with
  | None => scs
  | Some st =>
      {| Height := Height scs; States := <[i := setFlag CoinClaimed st]> (States scs) |}
  end.

(** The body of the loop of processClaimTX (lines 152-194) for one claim. *)
Definition processClaim (cfg : Config) (tx : Transaction) (block : Block)
    (input : Input) (w : cachedDao * list LogEntry) : (cachedDao * list LogEntry) * Flow :=
  let '(cache, log) := w in
  match checkClaim input cache with
  | (cache1, Err e) =>
      let log1 := log ++ [WarnFalseOrDoubleClaim (PrevHash input) (PrevIndex input)
                                                 (Hash tx) (Index block)] in
      if VerifyTransactions cfg then ((cache1, log1), Return e)
      else ((cache1, log1), Break)
  | (cache1, Ok scs) =>
      let i := N.to_nat (PrevIndex input) in
      let owner := match States scs !! i with
                   | Some st => ScriptHash (Output st)
                   | None => 0
                   end in
      match GetAccountState cache1 owner with
      | (cache2, Err e) => ((cache2, log), Return e)
      | (cache2, Ok acc) =>
          match PutUnspentCoinState cache2 (PrevHash input) (markClaimed scs i) with
          | (cache3, Some e) => ((cache3, log), Return e)
          | (cache3, None) =>
              let '(changed, u) :=
                UnclaimedRemove (Unclaimed acc) (PrevHash input) (PrevIndex input) in
              if negb changed then
                ((cache3, log ++ [WarnNoSpentCoin (Hash tx) (PrevHash input)
                                                  (acc_ScriptHash acc)]), Next)
              else
                match PutAccountState cache3 (setUnclaimed acc u) with
                | (cache4, Some e) => ((cache4, log), Return e)
                | (cache4, None) => ((cache4, log), Next)
                end
          end
      end
  end.

(** The loop over the claims. *)
Fixpoint processClaims (cfg : Config) (tx : Transaction) (block : Block)
    (claims : list Input) (w : cachedDao * list LogEntry)
    : (cachedDao * list LogEntry) * option error :=
  match claims with
  | [] => (w, None)
  | input :: rest =>
      match processClaim cfg tx block input w with
      | (w1, Next) => processClaims cfg tx block rest w1
      | (w1, Break) => (w1, None)
      | (w1, Return e) => (w1, Some e)
      end
  end.

(** processClaimTX (lines 148-197). *)
Definition processClaimTX (cfg : Config) (t : ClaimTX) (tx : Transaction) (block : Block)
    (w : cachedDao * list LogEntry) : (cachedDao * list LogEntry) * option error :=
  processClaims cfg tx block (Claims t) w.

(** Lines 203-207: the VM as it is set up for the invocation.  The gas limit
    is set only under a positive free gas limit; the sum is one of Fixed8
    values, 64-bit signed integers. *)
Definition setupVM (cfg : Config) (t : InvocationTX) (tx : Transaction) : VMSetup :=
  {| CheckedHash := VerificationHash tx;
     LoadedScript := Script t;
     PriceGetter := true;
     GasLimit := if (0 <? FreeGasLimit cfg)%Z
                 then Some (Int.wrap_i64 (FreeGasLimit cfg + Gas t))
                 else None |}.

(** Lines 215-241: one notification; a "transfer" of NEP5 shape updates the
    balances, anything else is passed over. *)
Definition transfer_op : list N :=
  [116; 114; 97; 110; 115; 102; 101; 114].

Definition processNotification (tx : Transaction) (block : Block)
    (cache : cachedDao) (note : NotificationEvent) : cachedDao :=
  match note_Item note with
  | ItemArray [ItemBytes op; from; to; amount] =>
      if negb (bool_decide (op = transfer_op)) then cache
      else
        match from, to with
        | ItemBytes from', ItemBytes to' =>
            let amount' :=
              match amount with
              | ItemBigInt z => Some z
              | ItemBytes bs => Some (BytesToInt bs)
              | _ => None
              end in
            match amount' with
            | None => cache
            | Some z =>
                processNEP5Transfer cache tx block (note_ScriptHash note)
                                    from' to' (Int64 z)
            end
        | _, _ => cache
        end
  | _ => cache
  end.

(** Lines 210-257 of processInvocationTX: what happens once the VM has run. *)
Definition finishInvocation (tx : Transaction) (block : Block)
    (w : cachedDao * list LogEntry) (v : VMOutcome stagedDao)
    : (cachedDao * list LogEntry) * option error :=
  let '(cache, log) := w in
  let aer := {| TxHash := Hash tx;
                Trigger := Application;
                aer_VMState := vm_State v;
                GasConsumed := vm_GasConsumed v;
                Stack := vm_Estack v;
                Events := notifications v |} in
  if negb (HasFailed v) then
    match Persist cache (dao v) with
    | (cache1, Err e) =>
        ((cache1, log), Some (ErrWrap e "failed to persist invocation results"))
    | (cache1, Ok _) =>
        let cache2 := fold_left (processNotification tx block) (notifications v) cache1 in
        let '(cache3, err) := PutAppExecResult cache2 aer in
        ((cache3, log), Wrap err "failed to store notifications")
    end
  else
    let log1 := log ++ [WarnInvocationFailed (Hash tx) (Index block) (vm_Err v)] in
    let '(cache1, err) := PutAppExecResult cache aer in
    ((cache1, log1), Wrap err "failed to store notifications").

(** processInvocationTX (lines 199-258). *)
Definition processInvocationTX (cfg : Config) (t : InvocationTX) (tx : Transaction)
    (block : Block) (w : cachedDao * list LogEntry)
    : (cachedDao * list LogEntry) * option error :=
  finishInvocation tx block w (RunVM Application (fst w) block tx (setupVM cfg t tx)).

(** The application execution result processInvocationTX builds from a run. *)
Definition execResult (tx : Transaction) (v : VMOutcome stagedDao) : AppExecResult :=
  {| TxHash := Hash tx;
     Trigger := Application;
     aer_VMState := vm_State v;
     GasConsumed := vm_GasConsumed v;
     Stack := vm_Estack v;
     Events := notifications v |}.

(** All claims of a list are accepted, one after the other, taking [w] to
    [w']: every turn of the loop ends in [Next]. *)
Inductive runsThrough (cfg : Config) (tx : Transaction) (block : Block)
  : list Input -> cachedDao * list LogEntry -> cachedDao * list LogEntry -> Prop :=
| runs_nil w : runsThrough cfg tx block [] w w
| runs_cons input rest w w1 w2 :
    processClaim cfg tx block input w = (w1, Next) ->
    runsThrough cfg tx block rest w1 w2 ->
    runsThrough cfg tx block (input :: rest) w w2.

End Transaction.
(** *** An in-memory environment on which the functions run on concrete
    data.  The cache keeps coin states, accounts and execution results in
    maps; the staged DAO of a run is a map of accounts that Persist merges
    into the cache.  The VM is a stand-in: a script that starts with a zero
    byte (or is empty) halts, any other script faults; every run stages one
    account and consumes one unit of gas per byte of script. *)
Record memDao := mkMemDao {
  m_unspent : gmap N UnspentCoin;
  m_accounts : gmap N Account;
  m_results : list AppExecResult;
  m_transfers : list (N * list N * list N * Z)
}.

Definition newAccount (h : N) : Account := mkAccount 0 h false [] ∅ [].

Definition memGetAccountStateOrNew (c : memDao) (h : N) : memDao * res Account :=
  (c, Ok (default (newAccount h) (m_accounts c !! h))).

Definition memGetAccountState (c : memDao) (h : N) : memDao * res Account :=
  (c, match m_accounts c !! h with
      | Some a => Ok a
      | None => Err (ErrExternal 1)
      end).

Definition memPutAccountState (c : memDao) (a : Account) : memDao * option error :=
  (mkMemDao (m_unspent c) (<[acc_ScriptHash a := a]> (m_accounts c))
            (m_results c) (m_transfers c), None).

Definition memGetUnspentCoinState (c : memDao) (h : N) : memDao * res UnspentCoin :=
  (c, match m_unspent c !! h with
      | Some u => Ok u
      | None => Err (ErrExternal 2)
      end).

Definition memPutUnspentCoinState (c : memDao) (h : N) (u : UnspentCoin)
    : memDao * option error :=
  (mkMemDao (<[h := u]> (m_unspent c)) (m_accounts c) (m_results c) (m_transfers c), None).

Definition memPutAppExecResult (c : memDao) (aer : AppExecResult) : memDao * option error :=
  (mkMemDao (m_unspent c) (m_accounts c) (m_results c ++ [aer]) (m_transfers c), None).

Definition memUnclaimedPut (u : list UnclaimedBalance) (b : UnclaimedBalance)
    : res (list UnclaimedBalance) :=
  Ok (u ++ [b]).

Definition memUnclaimedRemove (u : list UnclaimedBalance) (h i : N)
    : bool * list UnclaimedBalance :=
  let u' := List.filter (fun b => negb ((uc_Tx b =? h) && (uc_Index b =? i))) u in
  (negb (length u' =? length u)%nat, u').

Definition memRunVM (tr : TriggerType) (c : memDao) (block : Block) (tx : Transaction)
    (s : VMSetup) : VMOutcome (gmap N Account) :=
  let st := match LoadedScript s with
            | [] | 0 :: _ => HALT
            | _ => FAULT
            end in
  {| vm_State := st;
     vm_Err := match st with FAULT => Some (ErrExternal 3) | _ => None end;
     vm_GasConsumed := Z.of_nat (length (LoadedScript s));
     vm_Estack := [];
     notifications := [];
     dao := {[ Hash tx := newAccount (Hash tx) ]} |}.

Definition memPersist (c : memDao) (staged : gmap N Account) : memDao * res N :=
  (mkMemDao (m_unspent c) (staged ∪ m_accounts c) (m_results c) (m_transfers c),
   Ok (N.of_nat (size staged))).

Definition memNEP5Transfer (c : memDao) (tx : Transaction) (block : Block)
    (sh : N) (from to : list N) (amount : Z) : memDao :=
  mkMemDao (m_unspent c) (m_accounts c) (m_results c)
           (m_transfers c ++ [(sh, from, to, amount)]).

Definition memEnv : Env memDao (gmap N Account) :=
  {| CoinSpent := 2;
     CoinClaimed := 4;
     GoverningTokenID := 1000;
     GetAccountStateOrNew := memGetAccountStateOrNew;
     GetAccountState := memGetAccountState;
     PutAccountState := memPutAccountState;
     GetUnspentCoinState := memGetUnspentCoinState;
     PutUnspentCoinState := memPutUnspentCoinState;
     PutAppExecResult := memPutAppExecResult;
     UnclaimedPut := memUnclaimedPut;
     UnclaimedRemove := memUnclaimedRemove;
     processTXWithValidatorsSubtract := fun _ a c => (a, c, None);
     RunVM := memRunVM;
     Persist := memPersist;
     processNEP5Transfer := memNEP5Transfer;
     BytesToInt := fun _ => 0%Z;
     Int64 := Int.wrap_i64 |}.

(** A cache with one transaction (hash 11) of two governing-token outputs
    owned by account 5: output 0 is unspent, output 1 was spent at height 3.
    Account 5 holds the balance of output 0 and the unclaimed balance of
    output 1. *)
Definition coin11 : UnspentCoin :=
  mkUnspentCoin 1 [mkOutputState (mkOutput 1000 100 5) 0 0;
                   mkOutputState (mkOutput 1000 60 5) 3 2].

Definition account5 : Account :=
  mkAccount 0 5 false [] {[ 1000 := [mkUnspentBalance 11 0 100] ]}
            [mkUnclaimedBalance 11 1 1 3 60].

Definition cache0 : memDao :=
  mkMemDao {[ 11 := coin11 ]} {[ 5 := account5 ]} [] [].

Definition tx42 : Transaction := mkTransaction 42 43 [].
Definition block9 : Block := mkBlock 9.
Definition lenient : Config := mkConfig false 10.
Definition strict : Config := mkConfig true 10.

(** *** Facts about the three functions, for every environment. *)

Section TransactionFacts.
Context {cachedDao stagedDao : Type} `{E : Env cachedDao stagedDao}.

Lemma setFlag_sets (flag : N) (st : OutputState) :
  N.land (State (setFlag flag st)) flag = flag.
Proof.
  unfold setFlag; simpl.
  apply N.bits_inj; intros k.
  rewrite N.land_spec, N.lor_spec.
  destruct (N.testbit (State st) k), (N.testbit flag k); reflexivity.
Qed.


Lemma markClaimed_lookup (scs : UnspentCoin) (i : nat) (st : OutputState) :
  States scs !! i = Some st ->
  States (markClaimed scs i) !! i = Some (setFlag CoinClaimed st).
Proof.
  intros H. unfold markClaimed. rewrite H. simpl.
  apply list_lookup_insert_eq. eapply lookup_lt_Some, H.
Qed.

Lemma markClaimed_others (scs : UnspentCoin) (i j : nat) :
  i <> j -> States (markClaimed scs i) !! j = States scs !! j.
Proof.
  intros Hne. unfold markClaimed.
  destruct (States scs !! i) eqn:H; [|reflexivity].
  simpl. apply list_lookup_insert_ne, Hne.
Qed.


Lemma HasFailed_FAULT (v : VMOutcome stagedDao) :
  HasFailed v = true <-> vm_State v = FAULT.
Proof.
  unfold HasFailed. destruct (vm_State v); split; intros H; congruence.
Qed.

Lemma Wrap_None (e : option error) (msg : string) : e = None -> Wrap e msg = None.
Proof. intros ->. reflexivity. Qed.

(** C1. When the run of the VM ends in FAULT, processInvocationTX does not
    call Persist on the staged DAO: the cache it leaves is the cache it was
    given with the execution result put into it, and nothing else.  The
    result that is put carries the hash of the transaction, the FAULT state
    and the gas consumed; the failure is logged; what the function returns is
    what putting the result returns, so with the result stored it returns no
    error. *)
Theorem processInvocationTX_fault (cfg : Config) (t : InvocationTX) (tx : Transaction)
    (block : Block) (cache : cachedDao) (log : list LogEntry) :
  let v := RunVM Application cache block tx (setupVM cfg t tx) in
  let aer := execResult tx v in
  vm_State v = FAULT ->
  TxHash aer = Hash tx /\ aer_VMState aer = FAULT /\ GasConsumed aer = vm_GasConsumed v /\
  processInvocationTX cfg t tx block (cache, log)
    = ((fst (PutAppExecResult cache aer),
        log ++ [WarnInvocationFailed (Hash tx) (Index block) (vm_Err v)]),
       Wrap (snd (PutAppExecResult cache aer)) "failed to store notifications") /\
  (snd (PutAppExecResult cache aer) = None ->
   snd (processInvocationTX cfg t tx block (cache, log)) = None).
Proof.
  intros v aer Hfault.
  assert (Hrun : processInvocationTX cfg t tx block (cache, log)
    = ((fst (PutAppExecResult cache aer),
        log ++ [WarnInvocationFailed (Hash tx) (Index block) (vm_Err v)]),
       Wrap (snd (PutAppExecResult cache aer)) "failed to store notifications")).
  { unfold processInvocationTX, finishInvocation. simpl fst. fold v.
    apply HasFailed_FAULT in Hfault. rewrite Hfault. simpl negb. cbv iota.
    fold (execResult tx v). fold aer.
    destruct (PutAppExecResult cache aer) as [c1 err]. reflexivity. }
  repeat split.
  - exact Hfault.
  - exact Hrun.
  - intros Hput. rewrite Hrun. simpl. apply Wrap_None, Hput.
Qed.

Lemma processClaims_cons (cfg : Config) (tx : Transaction) (block : Block)
    (input : Input) (rest : list Input) (w : cachedDao * list LogEntry) :
  processClaims cfg tx block (input :: rest) w
    = match processClaim cfg tx block input w with
      | (w1, Next) => processClaims cfg tx block rest w1
      | (w1, Break) => (w1, None)
      | (w1, Return e) => (w1, Some e)
      end.
Proof. reflexivity. Qed.

(** An accepted claim takes the loop to the next one. *)
Lemma processClaims_next (cfg : Config) (tx : Transaction) (block : Block)
    (input : Input) (rest : list Input) (w w1 : cachedDao * list LogEntry) :
  processClaim cfg tx block input w = (w1, Next) ->
  processClaims cfg tx block (input :: rest) w = processClaims cfg tx block rest w1.
Proof. intros H. rewrite processClaims_cons, H. reflexivity. Qed.

Lemma processClaims_runsThrough (cfg : Config) (tx : Transaction) (block : Block)
    (pre rest : list Input) (w w1 : cachedDao * list LogEntry) :
  runsThrough cfg tx block pre w w1 ->
  processClaims cfg tx block (pre ++ rest) w = processClaims cfg tx block rest w1.
Proof.
  induction 1 as [w|input pre' w wa wb Hstep Hrun IH].
  - reflexivity.
  - rewrite <- app_comm_cons. rewrite (processClaims_next _ _ _ _ _ _ _ Hstep).
    exact IH.
Qed.

(** What one turn of the loop does with a claim that fails the check. *)
Lemma processClaim_rejected (cfg : Config) (tx : Transaction) (block : Block)
    (input : Input) (cache cache1 : cachedDao) (log : list LogEntry) (e : error) :
  checkClaim input cache = (cache1, Err e) ->
  processClaim cfg tx block input (cache, log)
    = ((cache1, log ++ [WarnFalseOrDoubleClaim (PrevHash input) (PrevIndex input)
                                               (Hash tx) (Index block)]),
       if VerifyTransactions cfg then Return e else Break).
Proof.
  intros H. unfold processClaim. rewrite H.
  destruct (VerifyTransactions cfg); reflexivity.
Qed.

(** C2 (amended). The claims of a ClaimTX are processed in order.  At the
    first claim that fails the check (unknown previous hash, index out of
    range, or claimed already) a warning is logged; under strict
    verification processClaimTX returns the error of the check; without it
    the loop over the claims is left there, the claims after the failing one
    are not processed, and processClaimTX returns no error. *)
Theorem processClaimTX_first_bad_claim (cfg : Config) (t : ClaimTX) (tx : Transaction)
    (block : Block) (pre rest : list Input) (input : Input)
    (w : cachedDao * list LogEntry) (cache cache1 : cachedDao) (log : list LogEntry)
    (e : error) :
  Claims t = pre ++ input :: rest ->
  runsThrough cfg tx block pre w (cache, log) ->
  checkClaim input cache = (cache1, Err e) ->
  processClaimTX cfg t tx block w
    = ((cache1, log ++ [WarnFalseOrDoubleClaim (PrevHash input) (PrevIndex input)
                                               (Hash tx) (Index block)]),
       if VerifyTransactions cfg then Some e else None).
Proof.
  intros Hclaims Hpre Hbad. unfold processClaimTX. rewrite Hclaims.
  rewrite (processClaims_runsThrough _ _ _ _ _ _ _ Hpre).
  rewrite processClaims_cons, (processClaim_rejected _ _ _ _ _ _ _ _ Hbad).
  destruct (VerifyTransactions cfg); reflexivity.
Qed.

(** C3 (amended). A claim that the loop of processClaimTX accepts refers to
    an output that exists in the coin state and does not have its claimed
    flag yet (the spent flag is not looked at).  The coin state is put back
    with the claimed flag of that output set; Unclaimed.Remove is applied to
    the account of the output's owner, which is put back when an unclaimed
    balance was removed from it, while otherwise a warning is logged and the
    account is left as it is. *)
Theorem processClaim_accepted (cfg : Config) (tx : Transaction) (block : Block)
    (input : Input) (cache : cachedDao) (log : list LogEntry)
    (w' : cachedDao * list LogEntry) :
  processClaim cfg tx block input (cache, log) = (w', Next) ->
  let i := N.to_nat (PrevIndex input) in
  exists cache1 scs st cache2 acc cache3,
    GetUnspentCoinState cache (PrevHash input) = (cache1, Ok scs) /\
    States scs !! i = Some st /\
    N.land (State st) CoinClaimed = 0 /\
    GetAccountState cache1 (ScriptHash (Output st)) = (cache2, Ok acc) /\
    PutUnspentCoinState cache2 (PrevHash input) (markClaimed scs i) = (cache3, None) /\
    States (markClaimed scs i) !! i = Some (setFlag CoinClaimed st) /\
    N.land (State (setFlag CoinClaimed st)) CoinClaimed = CoinClaimed /\
    (forall u, UnclaimedRemove (Unclaimed acc) (PrevHash input) (PrevIndex input) = (true, u) ->
       exists cache4, PutAccountState cache3 (setUnclaimed acc u) = (cache4, None) /\
                      w' = (cache4, log)) /\
    (forall u, UnclaimedRemove (Unclaimed acc) (PrevHash input) (PrevIndex input) = (false, u) ->
       w' = (cache3, log ++ [WarnNoSpentCoin (Hash tx) (PrevHash input) (acc_ScriptHash acc)])).
Proof.
  intros H i. unfold processClaim, checkClaim in H. fold i in H.
  destruct (GetUnspentCoinState cache (PrevHash input)) as [cache1 [scs|e]] eqn:Hget.
  2:{ destruct (VerifyTransactions cfg); discriminate. }
  destruct (States scs !! i) as [st|] eqn:Hst.
  2:{ destruct (VerifyTransactions cfg); discriminate. }
  destruct (N.land (State st) CoinClaimed =? 0) eqn:Hcl; simpl in H.
  2:{ destruct (VerifyTransactions cfg); discriminate. }
  rewrite Hst in H.
  destruct (GetAccountState cache1 (ScriptHash (Output st))) as [cache2 [acc|e]] eqn:Hacc;
    [|discriminate].
  destruct (PutUnspentCoinState cache2 (PrevHash input) (markClaimed scs i))
    as [cache3 [e|]] eqn:Hput; [discriminate|].
  exists cache1, scs, st, cache2, acc, cache3.
  apply N.eqb_eq in Hcl.
  repeat split; try assumption; try reflexivity.
  - apply markClaimed_lookup, Hst.
  - apply setFlag_sets.
  - intros u Hu. rewrite Hu in H. simpl in H.
    destruct (PutAccountState cache3 (setUnclaimed acc u)) as [cache4 [e|]];
      [discriminate|].
    exists cache4. split; [reflexivity|]. congruence.
  - intros u Hu. rewrite Hu in H. simpl in H. congruence.
Qed.

(** C5 (amended). processInvocationTX runs the VM as [setupVM] sets it up,
    with the script of the transaction loaded.  Under a positive free gas
    limit the gas limit of that run is the Fixed8 sum of the free gas limit
    and the gas of the transaction, which is their sum whenever that fits 64
    bits; under a free gas limit of zero or less no gas limit is set at
    all. *)
Theorem processInvocationTX_gas_limit (cfg : Config) (t : InvocationTX) (tx : Transaction)
    (block : Block) (w : cachedDao * list LogEntry) :
  processInvocationTX cfg t tx block w
    = finishInvocation tx block w (RunVM Application (fst w) block tx (setupVM cfg t tx)) /\
  LoadedScript (setupVM cfg t tx) = Script t /\
  ((0 < FreeGasLimit cfg)%Z ->
   GasLimit (setupVM cfg t tx) = Some (Int.wrap_i64 (FreeGasLimit cfg + Gas t))) /\
  ((0 < FreeGasLimit cfg)%Z -> Int.is_i64 (FreeGasLimit cfg + Gas t) ->
   GasLimit (setupVM cfg t tx) = Some (FreeGasLimit cfg + Gas t)%Z) /\
  ((FreeGasLimit cfg <= 0)%Z -> GasLimit (setupVM cfg t tx) = None).
Proof.
  split; [reflexivity|]. split; [reflexivity|].
  unfold setupVM; simpl.
  split; [|split].
  - intros Hpos. apply Z.ltb_lt in Hpos. rewrite Hpos. reflexivity.
  - intros Hpos Hfit. apply Z.ltb_lt in Hpos. rewrite Hpos.
    rewrite Int.wrap_i64_small by exact Hfit. reflexivity.
  - intros Hle. apply Z.ltb_ge in Hle. rewrite Hle. reflexivity.
Qed.

End TransactionFacts.

(** *** The functions on the in-memory environment. *)

(** The claims as the specification words them, to be compared with what the
    functions do. *)

(** "Logged and skipped", the remaining claims being processed: without
    strict verification a claim that fails the check only adds its warning,
    and the loop goes on with the claims after it. *)
Definition spec_bad_claim_is_skipped : Prop :=
  forall (input : Input) (rest : list Input) (cache cache1 : memDao)
         (log : list LogEntry) (e : error),
    checkClaim (E := memEnv) input cache = (cache1, Err e) ->
    processClaims (E := memEnv) lenient tx42 block9 (input :: rest) (cache, log)
    = processClaims (E := memEnv) lenient tx42 block9 rest
        (cache1, log ++ [WarnFalseOrDoubleClaim (PrevHash input) (PrevIndex input)
                                                (Hash tx42) (Index block9)]).

(** "Verify it is already spent and not yet claimed": an accepted claim
    refers to an output with the spent flag and without the claimed flag. *)
Definition spec_accepted_claim_is_spent : Prop :=
  forall (cfg : Config) (input : Input) (cache : memDao) (log : list LogEntry)
         (w' : memDao * list LogEntry),
    processClaim (E := memEnv) cfg tx42 block9 input (cache, log) = (w', Next) ->
    exists scs st,
      m_unspent cache !! PrevHash input = Some scs /\
      States scs !! N.to_nat (PrevIndex input) = Some st /\
      N.land (State st) (CoinSpent (Env := memEnv)) <> 0 /\
      N.land (State st) (CoinClaimed (Env := memEnv)) = 0.

(** "A gas limit of free_gas + tx.gas", for every invocation. *)
Definition spec_gas_limit_is_sum : Prop :=
  forall (cfg : Config) (t : InvocationTX) (tx : Transaction),
    GasLimit (setupVM cfg t tx) = Some (FreeGasLimit cfg + Gas t)%Z.

Example processTXInput_spends_output :
  let r := processTXInput (E := memEnv) (mkInput 11 0) coin11 block9 cache0 in
  snd r = None /\
  States (fst (fst r)) = [mkOutputState (mkOutput 1000 100 5) 9 2;
                          mkOutputState (mkOutput 1000 60 5) 3 2] /\
  Unclaimed <$> (m_accounts (snd (fst r)) !! 5)
    = Some [mkUnclaimedBalance 11 1 1 3 60; mkUnclaimedBalance 11 0 1 9 100].
Proof. vm_compute. repeat split. Qed.

Example processTXInput_double_spend :
  processTXInput (E := memEnv) (mkInput 11 1) coin11 block9 cache0
  = (coin11, cache0, Some (ErrDoubleSpend 11 1)).
Proof. reflexivity. Qed.

Example processTXInput_bad_index :
  processTXInput (E := memEnv) (mkInput 11 2) coin11 block9 cache0
  = (coin11, cache0, Some (ErrBadInput 11 2)).
Proof. reflexivity. Qed.

Lemma processInvocationTX_fault_witness :
  vm_State (RunVM (Env := memEnv) Application cache0 block9 tx42
              (setupVM lenient (mkInvocationTX [1; 2; 3] 5) tx42)) = FAULT /\
  processInvocationTX (E := memEnv) lenient (mkInvocationTX [1; 2; 3] 5) tx42 block9
                      (cache0, [])
  = ((mkMemDao (m_unspent cache0) (m_accounts cache0)
               [mkAppExecResult 42 Application FAULT 3 [] []] [],
      [WarnInvocationFailed 42 9 (Some (ErrExternal 3))]),
     None).
Proof.
  split; [reflexivity|].
  destruct (processInvocationTX_fault (E := memEnv) lenient (mkInvocationTX [1; 2; 3] 5)
              tx42 block9 cache0 [] eq_refl) as (_ & _ & _ & Hrun & _).
  rewrite Hrun. reflexivity.
Defined.

(** The same script under a leading zero byte halts in the stand-in VM, and
    then the staged account reaches the cache. *)
Example processInvocationTX_halt_persists :
  let r := processInvocationTX (E := memEnv) lenient (mkInvocationTX [0; 2; 3] 5) tx42
             block9 (cache0, []) in
  snd r = None /\
  m_accounts (fst (fst r)) !! 42 = Some (newAccount 42) /\
  m_results (fst (fst r)) = [mkAppExecResult 42 Application HALT 3 [] []].
Proof. vm_compute. repeat split. Qed.

Example processInvocationTX_fault_drops_staged :
  let r := processInvocationTX (E := memEnv) lenient (mkInvocationTX [1; 2; 3] 5) tx42
             block9 (cache0, []) in
  m_accounts (fst (fst r)) !! 42 = None.
Proof. vm_compute. reflexivity. Qed.

Lemma processClaimTX_first_bad_claim_witness :
  processClaimTX (E := memEnv) lenient
    (mkClaimTX [mkInput 11 1; mkInput 11 7; mkInput 11 0]) tx42 block9 (cache0, [])
  = ((fst (fst (processClaim (E := memEnv) lenient tx42 block9 (mkInput 11 1) (cache0, []))),
      [WarnFalseOrDoubleClaim 11 7 42 9]), None).
Proof.
  apply (processClaimTX_first_bad_claim (E := memEnv) lenient
           (mkClaimTX [mkInput 11 1; mkInput 11 7; mkInput 11 0]) tx42 block9
           [mkInput 11 1] [mkInput 11 0] (mkInput 11 7) (cache0, [])
           (fst (fst (processClaim (E := memEnv) lenient tx42 block9 (mkInput 11 1)
                        (cache0, []))))
           (fst (fst (processClaim (E := memEnv) lenient tx42 block9 (mkInput 11 1)
                        (cache0, []))))
           [] ErrInvalidClaimIndex).
  - reflexivity.
  - eapply runs_cons; [|apply runs_nil]. vm_compute. reflexivity.
  - vm_compute. reflexivity.
Defined.

(** C2, as worded, fails: after the claim of the missing output 7 the claim
    of output 1 is not processed, though it is a good one. *)
Lemma bad_claim_is_skipped_counterexample : ~ spec_bad_claim_is_skipped.
Proof.
  intros H.
  specialize (H (mkInput 11 7) [mkInput 11 1] cache0 cache0 [] ErrInvalidClaimIndex eq_refl).
  apply (f_equal (fun r => m_unspent (fst (fst r)) !! 11)) in H.
  vm_compute in H. discriminate H.
Qed.

Example processClaimTX_stops_after_bad_claim :
  let r := processClaimTX (E := memEnv) lenient (mkClaimTX [mkInput 11 7; mkInput 11 1])
             tx42 block9 (cache0, []) in
  snd r = None /\ m_unspent (fst (fst r)) !! 11 = Some coin11.
Proof. vm_compute. split; reflexivity. Qed.

Example processClaimTX_strict_fails :
  snd (processClaimTX (E := memEnv) strict (mkClaimTX [mkInput 11 7; mkInput 11 1])
         tx42 block9 (cache0, []))
  = Some ErrInvalidClaimIndex.
Proof. reflexivity. Qed.

Example processClaimTX_unknown_hash :
  processClaimTX (E := memEnv) lenient (mkClaimTX [mkInput 12 0; mkInput 11 1])
    tx42 block9 (cache0, [])
  = ((cache0, [WarnFalseOrDoubleClaim 12 0 42 9]), None).
Proof. reflexivity. Qed.

Lemma processClaim_accepted_witness :
  exists cache1 scs st cache2 acc cache3,
    GetUnspentCoinState (Env := memEnv) cache0 11 = (cache1, Ok scs) /\
    States scs !! 1%nat = Some st /\
    N.land (State st) (CoinClaimed (Env := memEnv)) = 0 /\
    GetAccountState (Env := memEnv) cache1 (ScriptHash (Output st)) = (cache2, Ok acc) /\
    PutUnspentCoinState (Env := memEnv) cache2 11 (markClaimed (E := memEnv) scs 1)
      = (cache3, None) /\
    States (markClaimed (E := memEnv) scs 1) !! 1%nat
      = Some (setFlag (CoinClaimed (Env := memEnv)) st) /\
    State (setFlag (CoinClaimed (Env := memEnv)) st) = 6.
Proof.
  destruct (processClaim_accepted (E := memEnv) lenient tx42 block9 (mkInput 11 1) cache0 []
              (fst (processClaim (E := memEnv) lenient tx42 block9 (mkInput 11 1)
                      (cache0, []))))
    as (c1 & scs & st & c2 & acc & c3 & H1 & H2 & H3 & H4 & H5 & H6 & H7 & _).
  { vm_compute. reflexivity. }
  exists c1, scs, st, c2, acc, c3.
  simpl in H2.
  repeat split; try assumption.
  assert (Hscs : scs = coin11).
  { vm_compute in H1. injection H1 as _ Hs. rewrite <- Hs. reflexivity. }
  subst scs. vm_compute in H2. injection H2 as <-. reflexivity.
Defined.

(** C3, as worded, fails: the claim of output 0, which was never spent, is
    accepted. *)
Lemma accepted_claim_is_spent_counterexample : ~ spec_accepted_claim_is_spent.
Proof.
  intros H.
  destruct (H lenient (mkInput 11 0) cache0 []
              (fst (processClaim (E := memEnv) lenient tx42 block9 (mkInput 11 0)
                      (cache0, []))))
    as (scs & st & Hscs & Hst & Hspent & _).
  { vm_compute. reflexivity. }
  vm_compute in Hscs. injection Hscs as <-.
  vm_compute in Hst. injection Hst as <-.
  apply Hspent. reflexivity.
Qed.

Example processClaimTX_claims_unspent_output :
  let r := processClaimTX (E := memEnv) lenient (mkClaimTX [mkInput 11 0]) tx42 block9
             (cache0, []) in
  snd r = None /\
  snd (fst r) = [WarnNoSpentCoin 42 11 5] /\
  States <$> (m_unspent (fst (fst r)) !! 11)
    = Some [mkOutputState (mkOutput 1000 100 5) 0 4;
            mkOutputState (mkOutput 1000 60 5) 3 2].
Proof. vm_compute. repeat split. Qed.

(** C5, as worded, fails: under a free gas limit of zero no limit is set. *)
Lemma gas_limit_is_sum_counterexample : ~ spec_gas_limit_is_sum.
Proof.
  intros H.
  specialize (H (mkConfig false 0) (mkInvocationTX [] 5) tx42).
  discriminate H.
Qed.

Example setupVM_positive_free_gas :
  GasLimit (setupVM (mkConfig false 10) (mkInvocationTX [] 5) tx42) = Some 15%Z.
Proof. reflexivity. Qed.

Example setupVM_no_free_gas :
  GasLimit (setupVM (mkConfig false 0) (mkInvocationTX [] 5) tx42) = None.
Proof. reflexivity. Qed.


(** *** processInputs (lines 72-90).  transaction.GroupInputsByPrevHash is
    not in the sources at hand and is taken as a parameter: it hands the
    inputs over in groups, each group a slice whose first element gives the
    previous hash of the group. *)

Section Inputs.
Context {cachedDao stagedDao : Type} `{E : Env cachedDao stagedDao}.
Variable GroupInputsByPrevHash : list Input -> list (list Input).

(** Lines 80-84: the inputs of one group, all over the one coin state
    [unspent] points to, which every call changes in place. *)
Fixpoint processGroup (inputs : list Input) (unspent : UnspentCoin) (block : Block)
    (cache : cachedDao) : UnspentCoin * cachedDao * option error :=
  match inputs with
  | [] => (unspent, cache, None)
  | input :: rest =>
      match processTXInput input unspent block cache with
      | (unspent1, cache1, Some e) => (unspent1, cache1, Some e)
      | (unspent1, cache1, None) => processGroup rest unspent1 block cache1
      end
  end.

(** Lines 74-88: the loop over the groups.  [None] is the run-time panic of
    [inputs[0]] on an empty group. *)
Fixpoint processGroups (groups : list (list Input)) (block : Block) (cache : cachedDao)
    : option (cachedDao * option error) :=
  match groups with
  | [] => Some (cache, None)
  | inputs :: rest =>
      match inputs with
      | [] => None
      | first :: _ =>
          let prevHash := PrevHash first in
          match GetUnspentCoinState cache prevHash with
          | (cache1, Err e) => Some (cache1, Some e)
          | (cache1, Ok unspent) =>
              match processGroup inputs unspent block cache1 with
              | (_, cache2, Some e) => Some (cache2, Some e)
              | (unspent', cache2, None) =>
                  match PutUnspentCoinState cache2 prevHash unspent' with
                  | (cache3, Some e) => Some (cache3, Some e)
                  | (cache3, None) => processGroups rest block cache3
                  end
              end
          end
      end
  end.

(** processInputs (lines 72-90). *)
Definition processInputs (tx : Transaction) (block : Block) (cache : cachedDao)
    : option (cachedDao * option error) :=
  processGroups (GroupInputsByPrevHash (Inputs tx)) block cache.

End Inputs.

(** The notifications processInvocationTX acts on (lines 216-239): an array
    of four items, the first the bytes of "transfer", the second and the
    third byte strings, the fourth an integer or a byte string. *)
Definition isNEP5Transfer (item : StackItem) : Prop :=
  exists from to amount,
    item = ItemArray [ItemBytes transfer_op; ItemBytes from; ItemBytes to; amount] /\
    ((exists z, amount = ItemBigInt z) \/ (exists bs, amount = ItemBytes bs)).

(** A DAO that reads back the coin state that was put, and whose coin states
    are not touched by putting an account. *)
Definition coherentCoins {cachedDao stagedDao : Type} `{E : Env cachedDao stagedDao} : Prop :=
  (forall c h u c', PutUnspentCoinState c h u = (c', None) ->
     snd (GetUnspentCoinState c' h) = Ok u) /\
  (forall c a c' h, PutAccountState c a = (c', None) ->
     snd (GetUnspentCoinState c' h) = snd (GetUnspentCoinState c h)).

(** The grouping used on the in-memory environment where all inputs share
    one previous hash: one group, or none. *)
Definition oneGroup (ins : list Input) : list (list Input) :=
  match ins with
  | [] => []
  | _ => [ins]
  end.

Section MoreFacts.
Context {cachedDao stagedDao : Type} `{E : Env cachedDao stagedDao}.

Lemma markSpent_idem (block : Block) (st : OutputState) :
  markSpent block (markSpent block st) = markSpent block st.
Proof.
  unfold markSpent; simpl. f_equal.
  rewrite <- N.lor_assoc, N.lor_diag. reflexivity.
Qed.


(** A call of processTXInput that returns no error found the output, found
    it unspent, and marked it. *)
Lemma processTXInput_ok (input : Input) (unspent : UnspentCoin) (block : Block)
    (cache : cachedDao) :
  snd (processTXInput input unspent block cache) = None ->
  exists st,
    States unspent !! N.to_nat (PrevIndex input) = Some st /\
    N.land (State st) CoinSpent = 0 /\
    fst (fst (processTXInput input unspent block cache))
      = {| Height := Height unspent;
           States := <[N.to_nat (PrevIndex input) := markSpent block st]> (States unspent) |}.
Proof.
  unfold processTXInput.
  destruct (States unspent !! N.to_nat (PrevIndex input)) as [st|] eqn:Hst; [|discriminate].
  destruct (N.land (State st) CoinSpent =? 0) eqn:Hsp; simpl; [|discriminate].
  intros Hok. exists st. apply N.eqb_eq in Hsp.
  split; [reflexivity|]. split; [exact Hsp|].
  destruct (GetAccountStateOrNew cache (ScriptHash (Output st))) as [c1 [a|e]];
    [|reflexivity].
  destruct (AssetID (Output st) =? GoverningTokenID).
  - destruct (UnclaimedPut _ _); [|reflexivity].
    destruct (processTXWithValidatorsSubtract _ _ _) as [[a' c2] [e|]]; [reflexivity|].
    destruct (PutAccountState _ _); reflexivity.
  - destruct (PutAccountState _ _); reflexivity.
Qed.

Lemma processGroup_cons (input : Input) (rest : list Input) (unspent : UnspentCoin)
    (block : Block) (cache : cachedDao) :
  processGroup (input :: rest) unspent block cache
    = match processTXInput input unspent block cache with
      | (unspent1, cache1, Some e) => (unspent1, cache1, Some e)
      | (unspent1, cache1, None) => processGroup rest unspent1 block cache1
      end.
Proof. reflexivity. Qed.

(** One turn of the loop over a group that goes on to the next input. *)
Lemma processGroup_step (input : Input) (rest : list Input) (unspent : UnspentCoin)
    (block : Block) (cache : cachedDao) :
  snd (processGroup (input :: rest) unspent block cache) = None ->
  exists st cache1,
    States unspent !! N.to_nat (PrevIndex input) = Some st /\
    N.land (State st) CoinSpent = 0 /\
    processGroup (input :: rest) unspent block cache
      = processGroup rest
          {| Height := Height unspent;
             States := <[N.to_nat (PrevIndex input) := markSpent block st]> (States unspent) |}
          block cache1.
Proof.
  rewrite processGroup_cons.
  pose proof (processTXInput_ok input unspent block cache) as Hone.
  destruct (processTXInput input unspent block cache) as [[u1 c1] [e|]]; [discriminate|].
  intros _. destruct (Hone eq_refl) as (st & Hst & Hsp & Hu). simpl in Hu. subst u1.
  exists st, c1. auto.
Qed.

(** Every input of a group that was processed without error refers to an
    output that the coin state had, without the spent flag, when the group
    was started on. *)
Lemma processGroup_ok_states (inputs : list Input) (unspent : UnspentCoin) (block : Block)
    (cache : cachedDao) :
  snd (processGroup inputs unspent block cache) = None ->
  forall input, input ∈ inputs ->
    exists st, States unspent !! N.to_nat (PrevIndex input) = Some st /\
               N.land (State st) CoinSpent = 0.
Proof.
  revert unspent cache.
  induction inputs as [|a rest IH]; intros unspent cache Hok input Hin.
  - inversion Hin.
  - destruct (processGroup_step _ _ _ _ _ Hok) as (st & c1 & Hst & Hsp & Hrun).
    rewrite Hrun in Hok.
    apply elem_of_cons in Hin as [->|Hin]; [exists st; auto|].
    destruct (decide (N.to_nat (PrevIndex input) = N.to_nat (PrevIndex a))) as [Heq|Hne].
    + rewrite Heq. exists st; auto.
    + destruct (IH _ _ Hok input Hin) as (st1 & Hst1 & Hsp1). simpl in Hst1.
      rewrite list_lookup_insert_ne in Hst1 by congruence.
      exists st1; auto.
Qed.


(** Removing by swapping with the last element keeps every other element. *)
Lemma swap_remove_Permutation {A : Type} (l : list A) (index : nat) (b : A) :
  l !! index = Some b ->
  l ≡ₚ b :: take (length l - 1)
              (if (index <? length l - 1)%nat then
                 match l !! (length l - 1)%nat with
                 | Some x => <[index := x]> l
                 | None => l
                 end
               else l).
Proof.
  destruct l as [|y l0] using rev_ind; [discriminate|]. clear IHl0.
  rename l0 into l'. rename y into x.
  intros Hb. rewrite length_app. simpl.
  replace (length l' + 1 - 1)%nat with (length l') by lia.
  rewrite (lookup_app_r l' [x] (length l')) by lia.
  replace (length l' - length l')%nat with 0%nat by lia. simpl.
  destruct (index <? length l')%nat eqn:Hlt.
  - apply Nat.ltb_lt in Hlt.
    rewrite lookup_app_l in Hb by exact Hlt.
    rewrite insert_app_l by exact Hlt.
    rewrite take_app_length' by (rewrite length_insert; reflexivity).
    rewrite (insert_take_drop l' index x) by exact Hlt.
    pose proof (take_drop_middle l' index b Hb) as Hmid.
    set (pre := take index l') in *. set (suf := drop (S index) l') in *.
    rewrite <- Hmid. rewrite <- app_assoc. simpl.
    rewrite <- Permutation_middle. constructor.
    apply Permutation_app_head.
    symmetry. apply Permutation_cons_append.
  - apply Nat.ltb_ge in Hlt.
    assert (index = length l').
    { apply lookup_lt_Some in Hb. rewrite length_app in Hb. simpl in Hb. lia. }
    subst index.
    rewrite lookup_app_r in Hb by lia.
    replace (length l' - length l')%nat with 0%nat in Hb by lia.
    injection Hb as ->.
    rewrite take_app_length.
    symmetry. apply Permutation_cons_append.
Qed.

Lemma findBalance_Some (h i : N) (l : list UnspentBalance) (n : nat) :
  findBalance h i l = Some n ->
  exists b, l !! n = Some b /\ ub_Tx b = h /\ ub_Index b = i /\
    forall k b', (k < n)%nat -> l !! k = Some b' -> ~ (ub_Tx b' = h /\ ub_Index b' = i).
Proof.
  revert n. induction l as [|b rest IH]; intros n Hn; [discriminate|].
  simpl in Hn.
  destruct ((ub_Tx b =? h) && (ub_Index b =? i)) eqn:Hm.
  - injection Hn as <-. apply andb_true_iff in Hm as [H1 H2].
    apply N.eqb_eq in H1, H2. exists b. repeat split; auto. intros k b' Hk. lia.
  - destruct (findBalance h i rest) as [m|] eqn:Hf; [|discriminate].
    injection Hn as <-.
    destruct (IH m eq_refl) as (b0 & Hb0 & Ht & Hi & Hfirst).
    exists b0. repeat split; auto.
    intros k b' Hk Hb' [H1 H2].
    destruct k as [|k].
    + simpl in Hb'. injection Hb' as <-.
      apply N.eqb_eq in H1, H2. rewrite H1, H2 in Hm. discriminate.
    + simpl in Hb'. apply (Hfirst k b'); [lia|exact Hb'|auto].
Qed.

Lemma findBalance_None (h i : N) (l : list UnspentBalance) :
  findBalance h i l = None ->
  forall b, b ∈ l -> ~ (ub_Tx b = h /\ ub_Index b = i).
Proof.
  induction l as [|b rest IH]; intros Hn b0 Hin; [inversion Hin|].
  simpl in Hn.
  destruct ((ub_Tx b =? h) && (ub_Index b =? i)) eqn:Hm; [discriminate|].
  destruct (findBalance h i rest) eqn:Hf; [discriminate|].
  apply elem_of_cons in Hin as [->|Hin].
  - intros [H1 H2]. apply N.eqb_eq in H1, H2. rewrite H1, H2 in Hm. discriminate.
  - apply IH; auto.
Qed.

(** X1. Spending an output of an asset of which the account holds more than
    one balance removes the first balance of that output from the list, by
    moving the last balance into its place: what is left is the list
    without that one balance, every other balance kept (in another order),
    one element shorter. *)
Theorem removeBalance_swap_remove (account : Account) (asset h i : N)
    (balances : list UnspentBalance) :
  Balances account !! asset = Some balances ->
  (1 < length balances)%nat ->
  (exists b, b ∈ balances /\ ub_Tx b = h /\ ub_Index b = i) ->
  exists b rest,
    b ∈ balances /\ ub_Tx b = h /\ ub_Index b = i /\
    Balances (removeBalance account asset h i) !! asset = Some rest /\
    balances ≡ₚ b :: rest /\
    length rest = (length balances - 1)%nat.
Proof.
  intros Hbal Hlen (b0 & Hin0 & Ht0 & Hi0).
  unfold removeBalance. simpl. rewrite Hbal. simpl.
  destruct (length balances <=? 1)%nat eqn:Hle; [apply Nat.leb_le in Hle; lia|].
  destruct (findBalance h i balances) as [index|] eqn:Hfind.
  2:{ exfalso. apply (findBalance_None _ _ _ Hfind b0 Hin0). auto. }
  destruct (findBalance_Some _ _ _ _ Hfind) as (b & Hb & Ht & Hi & _).
  exists b. eexists. split; [eapply list_elem_of_lookup_2, Hb|].
  split; [exact Ht|]. split; [exact Hi|].
  split; [apply lookup_insert_eq|].
  pose proof (swap_remove_Permutation balances index b Hb) as Hperm.
  split; [exact Hperm|].
  apply Permutation_length in Hperm. simpl in Hperm. lia.
Qed.

(** X2. What removeBalance leaves alone: the balances of every other asset,
    and the version, script hash, frozen flag, votes and unclaimed balances
    of the account. *)
Theorem removeBalance_frame (account : Account) (asset h i : N) :
  Version (removeBalance account asset h i) = Version account /\
  acc_ScriptHash (removeBalance account asset h i) = acc_ScriptHash account /\
  IsFrozen (removeBalance account asset h i) = IsFrozen account /\
  Votes (removeBalance account asset h i) = Votes account /\
  Unclaimed (removeBalance account asset h i) = Unclaimed account /\
  forall other, other <> asset ->
    Balances (removeBalance account asset h i) !! other = Balances account !! other.
Proof.
  repeat split.
  intros other Hne. unfold removeBalance. simpl.
  destruct (length (default [] (Balances account !! asset)) <=? 1)%nat.
  - apply lookup_delete_ne. congruence.
  - destruct (findBalance h i (default [] (Balances account !! asset))); [|reflexivity].
    apply lookup_insert_ne. congruence.
Qed.

(** X3. The edges of removeBalance.  When the account holds at most one
    balance of the asset, the entry of the asset is deleted from the map
    whether or not that balance is the one of the spent output; when it
    holds more and none is of the spent output, the account stays as it
    is. *)
Theorem removeBalance_edges (account : Account) (asset h i : N) :
  ((length (default [] (Balances account !! asset)) <= 1)%nat ->
   Balances (removeBalance account asset h i) !! asset = None) /\
  ((1 < length (default [] (Balances account !! asset)))%nat ->
   (forall b, b ∈ default [] (Balances account !! asset) ->
              ~ (ub_Tx b = h /\ ub_Index b = i)) ->
   removeBalance account asset h i = account).
Proof.
  split.
  - intros Hle. unfold removeBalance. simpl.
    apply Nat.leb_le in Hle. rewrite Hle. apply lookup_delete_eq.
  - intros Hlt Hnone. unfold removeBalance.
    destruct (length (default [] (Balances account !! asset)) <=? 1)%nat eqn:Hle;
      [apply Nat.leb_le in Hle; lia|].
    destruct (findBalance h i (default [] (Balances account !! asset))) as [n|] eqn:Hf.
    + destruct (findBalance_Some _ _ _ _ Hf) as (b & Hb & Ht & Hi & _).
      exfalso. apply (Hnone b); [eapply list_elem_of_lookup_2, Hb|auto].
    + destruct account; reflexivity.
Qed.

(** X4. The account side of processTXInput.  An input that is processed
    without error has the account of the output's owner fetched (or made),
    and put back without the balance of the output.  For an output of the
    governing token the account first gets an unclaimed balance of the
    output's amount that runs from the height of the coin state to the index
    of the block, and goes through the validators' subtraction; for any other
    asset neither happens. *)
Theorem processTXInput_account (input : Input) (unspent : UnspentCoin) (block : Block)
    (cache : cachedDao) (st : OutputState) :
  States unspent !! N.to_nat (PrevIndex input) = Some st ->
  snd (processTXInput input unspent block cache) = None ->
  exists cache1 account account1 cache2,
    GetAccountStateOrNew cache (ScriptHash (Output st)) = (cache1, Ok account) /\
    (if AssetID (Output st) =? GoverningTokenID then
       exists u,
         UnclaimedPut (Unclaimed account)
           {| uc_Tx := PrevHash input; uc_Index := PrevIndex input;
              uc_Start := Height unspent; uc_End := Index block;
              uc_Value := Amount (Output st) |} = Ok u /\
         processTXWithValidatorsSubtract (Output st) (setUnclaimed account u) cache1
           = (account1, cache2, None)
     else account1 = account /\ cache2 = cache1) /\
    PutAccountState cache2
      (removeBalance account1 (AssetID (Output st)) (PrevHash input) (PrevIndex input))
      = (snd (fst (processTXInput input unspent block cache)), None).
Proof.
  intros Hst. unfold processTXInput. rewrite Hst.
  destruct (N.land (State st) CoinSpent =? 0); simpl; [|discriminate].
  destruct (GetAccountStateOrNew cache (ScriptHash (Output st))) as [c1 [a|e]];
    [|discriminate].
  destruct (AssetID (Output st) =? GoverningTokenID).
  - destruct (UnclaimedPut _ _) as [u|e] eqn:Hput; [|discriminate].
    destruct (processTXWithValidatorsSubtract _ _ _) as [[a' c2] [e|]] eqn:Hsub;
      [discriminate|].
    destruct (PutAccountState _ _) as [c3 err] eqn:Hacc. simpl. intros ->.
    exists c1, a, a', c2. split; [reflexivity|]. split; [|exact Hacc].
    exists u. auto.
  - destruct (PutAccountState _ _) as [c3 err] eqn:Hacc. simpl. intros ->.
    exists c1, a, a, c1. auto.
Qed.

(** X5. A group of inputs that is processed without error leaves the coin
    state with every output the group names marked as spent at the height of
    the block, each of them an output that was there and unspent before;
    the outputs the group does not name, the number of outputs and the
    height of the coin state are as they were. *)
Theorem processGroup_spends (inputs : list Input) (unspent : UnspentCoin) (block : Block)
    (cache : cachedDao) :
  snd (processGroup inputs unspent block cache) = None ->
  Height (fst (fst (processGroup inputs unspent block cache))) = Height unspent /\
  length (States (fst (fst (processGroup inputs unspent block cache))))
    = length (States unspent) /\
  (forall input, input ∈ inputs ->
     exists st,
       States unspent !! N.to_nat (PrevIndex input) = Some st /\
       N.land (State st) CoinSpent = 0 /\
       States (fst (fst (processGroup inputs unspent block cache)))
         !! N.to_nat (PrevIndex input) = Some (markSpent block st)) /\
  (forall j, (forall input, input ∈ inputs -> N.to_nat (PrevIndex input) <> j) ->
     States (fst (fst (processGroup inputs unspent block cache))) !! j
       = States unspent !! j).
Proof.
  revert unspent cache.
  induction inputs as [|a rest IH]; intros unspent cache Hok.
  - simpl. repeat split; auto. intros input Hin. inversion Hin.
  - destruct (processGroup_step _ _ _ _ _ Hok) as (st & c1 & Hst & Hsp & Hrun).
    rewrite Hrun in *.
    set (u1 := {| Height := Height unspent;
                  States := <[N.to_nat (PrevIndex a) := markSpent block st]>
                              (States unspent) |}) in *.
    destruct (IH u1 c1 Hok) as (Hh & Hlen & Hin1 & Hout1).
    assert (Hlt : (N.to_nat (PrevIndex a) < length (States unspent))%nat)
      by (eapply lookup_lt_Some, Hst).
    assert (Hfinal : forall input st0,
      input ∈ rest ->
      States unspent !! N.to_nat (PrevIndex input) = Some st0 ->
      States (fst (fst (processGroup rest u1 block c1))) !! N.to_nat (PrevIndex input)
        = Some (markSpent block st0)).
    { intros input st0 Hin Hst0.
      destruct (Hin1 input Hin) as (st1 & Hst1 & _ & Hf). rewrite Hf.
      unfold u1 in Hst1. simpl in Hst1.
      destruct (decide (N.to_nat (PrevIndex input) = N.to_nat (PrevIndex a))) as [Heq|Hne].
      - rewrite Heq in Hst1, Hst0.
        rewrite list_lookup_insert_eq in Hst1 by exact Hlt.
        injection Hst1 as <-. rewrite Hst in Hst0. injection Hst0 as <-.
        rewrite markSpent_idem. reflexivity.
      - rewrite list_lookup_insert_ne in Hst1 by congruence.
        congruence. }
    split; [exact Hh|].
    split; [rewrite Hlen; unfold u1; simpl; apply length_insert|].
    split.
    + intros input Hin.
      destruct (processGroup_ok_states (a :: rest) unspent block cache
                  ltac:(rewrite Hrun; exact Hok) input Hin) as (st0 & Hst0 & Hsp0).
      exists st0. split; [exact Hst0|]. split; [exact Hsp0|].
      apply elem_of_cons in Hin as [->|Hin]; [|apply Hfinal; assumption].
      rewrite Hst in Hst0. injection Hst0 as <-.
      destruct (decide (N.to_nat (PrevIndex a) ∈ (fun x => N.to_nat (PrevIndex x)) <$> rest))
        as [Hdup|Hfresh].
      * apply list_elem_of_fmap in Hdup as (input' & Hidx & Hin').
        rewrite Hidx. apply Hfinal; [exact Hin'|]. rewrite <- Hidx. exact Hst.
      * rewrite Hout1.
        -- unfold u1. simpl. apply list_lookup_insert_eq, Hlt.
        -- intros input' Hin' Heq. apply Hfresh.
           apply list_elem_of_fmap. exists input'. auto.
    + intros j Hj. rewrite Hout1.
      * unfold u1. simpl. apply list_lookup_insert_ne.
        apply Hj. left.
      * intros input Hin. apply Hj. right. exact Hin.
Qed.


Lemma processClaim_Break (cfg : Config) (tx : Transaction) (block : Block)
    (input : Input) (w w1 : cachedDao * list LogEntry) :
  processClaim cfg tx block input w = (w1, Break) -> VerifyTransactions cfg = false.
Proof.
  destruct w as [cache log]. unfold processClaim.
  destruct (checkClaim input cache) as [c1 [scs|e]].
  - destruct (GetAccountState _ _) as [c2 [acc|e]]; [|discriminate].
    destruct (PutUnspentCoinState _ _ _) as [c3 [e|]]; [discriminate|].
    destruct (UnclaimedRemove _ _ _) as [changed u].
    destruct changed; simpl; [|discriminate].
    destruct (PutAccountState _ _) as [c4 [e|]]; discriminate.
  - destruct (VerifyTransactions cfg); [discriminate|reflexivity].
Qed.

(** X7. Under strict verification processClaimTX returns no error only when
    every claim of the transaction was accepted, one after the other: no
    claim was left out, and the cache and the log it leaves are those of the
    last accepted claim. *)
Theorem processClaimTX_strict_ok (cfg : Config) (t : ClaimTX) (tx : Transaction)
    (block : Block) (w w' : cachedDao * list LogEntry) :
  VerifyTransactions cfg = true ->
  processClaimTX cfg t tx block w = (w', None) ->
  runsThrough cfg tx block (Claims t) w w'.
Proof.
  intros Hstrict. unfold processClaimTX.
  generalize (Claims t) as claims. intros claims. revert w.
  induction claims as [|input rest IH]; intros w Hok.
  - simpl in Hok. injection Hok as <-. constructor.
  - rewrite processClaims_cons in Hok.
    destruct (processClaim cfg tx block input w) as [w1 [| |e]] eqn:Hstep.
    + econstructor; [exact Hstep|]. apply IH, Hok.
    + apply processClaim_Break in Hstep. congruence.
    + discriminate.
Qed.

(** X8. On a DAO that reads back the coin states put into it, a claim that
    was accepted is rejected as a double claim when it comes again, be it in
    the same transaction or in a later one: the claimed flag the first turn
    has put into the coin state is found by the second, which logs the
    warning and returns the error under strict verification, and leaves the
    loop without it.  (The claimed flag is taken to be a flag, that is, not
    zero.) *)
Theorem processClaim_twice (cfg : Config) (tx tx' : Transaction) (block block' : Block)
    (input : Input) (w w1 : cachedDao * list LogEntry) :
  CoinClaimed <> 0 ->
  coherentCoins ->
  processClaim cfg tx block input w = (w1, Next) ->
  processClaim cfg tx' block' input w1
    = ((fst (GetUnspentCoinState (fst w1) (PrevHash input)),
        snd w1 ++ [WarnFalseOrDoubleClaim (PrevHash input) (PrevIndex input)
                                          (Hash tx') (Index block')]),
       if VerifyTransactions cfg then Return ErrDoubleClaim else Break).
Proof.
  intros Hflag [Hread Hkeep] Hfirst. destruct w as [cache log].
  assert (Hcoin : exists scs st,
    States scs !! N.to_nat (PrevIndex input) = Some st /\
    snd (GetUnspentCoinState (fst w1) (PrevHash input))
      = Ok (markClaimed scs (N.to_nat (PrevIndex input)))).
  { unfold processClaim, checkClaim in Hfirst.
    destruct (GetUnspentCoinState cache (PrevHash input)) as [c1 [scs|e]].
    2:{ destruct (VerifyTransactions cfg); discriminate. }
    destruct (States scs !! N.to_nat (PrevIndex input)) as [st|] eqn:Hst.
    2:{ destruct (VerifyTransactions cfg); discriminate. }
    destruct (N.land (State st) CoinClaimed =? 0); simpl in Hfirst.
    2:{ destruct (VerifyTransactions cfg); discriminate. }
    destruct (GetAccountState _ _) as [c2 [acc|e]]; [|discriminate].
    destruct (PutUnspentCoinState _ _ _) as [c3 [e|]] eqn:Hput; [discriminate|].
    exists scs, st. split; [exact Hst|].
    destruct (UnclaimedRemove _ _ _) as [changed u].
    destruct changed; simpl in Hfirst.
    - destruct (PutAccountState _ _) as [c4 [e|]] eqn:Hacc; [discriminate|].
      injection Hfirst as <-. simpl.
      rewrite (Hkeep _ _ _ _ Hacc). apply (Hread _ _ _ _ Hput).
    - injection Hfirst as <-. simpl. apply (Hread _ _ _ _ Hput). }
  destruct Hcoin as (scs & st & Hst & Hget).
  destruct w1 as [cacheA logA]. simpl in *.
  assert (Hcheck : checkClaim input cacheA
    = (fst (GetUnspentCoinState cacheA (PrevHash input)), Err ErrDoubleClaim)).
  { unfold checkClaim.
    destruct (GetUnspentCoinState cacheA (PrevHash input)) as [cB r]. simpl in *.
    subst r. rewrite (markClaimed_lookup _ _ _ Hst).
    rewrite setFlag_sets.
    destruct (CoinClaimed =? 0) eqn:Hz; [apply N.eqb_eq in Hz; contradiction|].
    reflexivity. }
  apply (processClaim_rejected _ _ _ _ _ _ _ _ Hcheck).
Qed.

(** One notification that is not of the shape of a NEP5 transfer leaves the
    cache as it is. *)
Lemma processNotification_ignored (tx : Transaction) (block : Block) (cache : cachedDao)
    (note : NotificationEvent) :
  ~ isNEP5Transfer (note_Item note) ->
  processNotification tx block cache note = cache.
Proof.
  intros Hno. unfold processNotification.
  destruct (note_Item note) as [l| | |]; try reflexivity.
  destruct l as [|[]]; try reflexivity.
  destruct l as [|from l]; try reflexivity.
  destruct l as [|to l]; try reflexivity.
  destruct l as [|amount l]; try reflexivity.
  destruct l; try reflexivity.
  destruct (bool_decide (b = transfer_op)) eqn:Hop; [|reflexivity].
  apply bool_decide_eq_true in Hop. subst b. simpl.
  destruct from as [| from' | |]; try reflexivity.
  destruct to as [| to' | |]; try reflexivity.
  destruct amount as [| bs | z |]; try reflexivity;
    exfalso; apply Hno; eexists _, _, _; split; eauto.
Qed.

(** X9. A run of the VM that did not fail and whose staged changes cannot be
    persisted: processInvocationTX returns the error of Persist, wrapped,
    and stops there.  No notification is looked at, no execution result is
    put, nothing is logged. *)
Theorem processInvocationTX_persist_failure (cfg : Config) (t : InvocationTX)
    (tx : Transaction) (block : Block) (cache cache1 : cachedDao) (log : list LogEntry)
    (e : error) :
  let v := RunVM Application cache block tx (setupVM cfg t tx) in
  vm_State v <> FAULT ->
  Persist cache (dao v) = (cache1, Err e) ->
  processInvocationTX cfg t tx block (cache, log)
    = ((cache1, log), Some (ErrWrap e "failed to persist invocation results")).
Proof.
  intros v Hstate Hpersist.
  unfold processInvocationTX, finishInvocation. simpl fst. fold v.
  destruct (HasFailed v) eqn:Hf; [apply HasFailed_FAULT in Hf; contradiction|].
  simpl negb. cbv iota. rewrite Hpersist. reflexivity.
Qed.

(** X10. A run of the VM that did not fail and none of whose notifications
    has the shape of a NEP5 transfer (an array of four items: the bytes of
    "transfer", two byte strings, and an integer or a byte string): the
    notifications change nothing, the cache processInvocationTX leaves is
    the one Persist left with the execution result put into it, nothing is
    logged, and the error is that of putting the result. *)
Theorem processInvocationTX_no_transfer (cfg : Config) (t : InvocationTX)
    (tx : Transaction) (block : Block) (cache cache1 : cachedDao) (log : list LogEntry)
    (n : N) :
  let v := RunVM Application cache block tx (setupVM cfg t tx) in
  vm_State v <> FAULT ->
  Persist cache (dao v) = (cache1, Ok n) ->
  (forall note, note ∈ notifications v -> ~ isNEP5Transfer (note_Item note)) ->
  processInvocationTX cfg t tx block (cache, log)
    = ((fst (PutAppExecResult cache1 (execResult tx v)), log),
       Wrap (snd (PutAppExecResult cache1 (execResult tx v)))
            "failed to store notifications").
Proof.
  intros v Hstate Hpersist Hnotes.
  unfold processInvocationTX, finishInvocation. simpl fst. fold v.
  destruct (HasFailed v) eqn:Hf; [apply HasFailed_FAULT in Hf; contradiction|].
  simpl negb. cbv iota. rewrite Hpersist.
  assert (Hfold : fold_left (processNotification tx block) (notifications v) cache1 = cache1).
  { clear Hpersist. revert Hnotes. generalize (notifications v) as notes.
    intros notes. induction notes as [|note rest IH]; intros Hnotes; [reflexivity|].
    simpl. rewrite processNotification_ignored by (apply Hnotes; left).
    apply IH. intros note' Hin. apply Hnotes. right. exact Hin. }
  rewrite Hfold. fold (execResult tx v).
  destruct (PutAppExecResult cache1 (execResult tx v)) as [c3 err]. reflexivity.
Qed.

End MoreFacts.

(** *** The further functions on the in-memory environment. *)

(** An account with three balances of the governing token. *)
Definition account3 : Account :=
  mkAccount 0 5 false [7]
            {[ 1000 := [mkUnspentBalance 11 0 100; mkUnspentBalance 12 1 5;
                        mkUnspentBalance 13 2 7] ]}
            [].

(** The in-memory environment with a store that cannot persist. *)
Definition failingEnv : Env memDao (gmap N Account) :=
  {| CoinSpent := 2;
     CoinClaimed := 4;
     GoverningTokenID := 1000;
     GetAccountStateOrNew := memGetAccountStateOrNew;
     GetAccountState := memGetAccountState;
     PutAccountState := memPutAccountState;
     GetUnspentCoinState := memGetUnspentCoinState;
     PutUnspentCoinState := memPutUnspentCoinState;
     PutAppExecResult := memPutAppExecResult;
     UnclaimedPut := memUnclaimedPut;
     UnclaimedRemove := memUnclaimedRemove;
     processTXWithValidatorsSubtract := fun _ a c => (a, c, None);
     RunVM := memRunVM;
     Persist := fun c _ => (c, Err (ErrExternal 7));
     processNEP5Transfer := memNEP5Transfer;
     BytesToInt := fun _ => 0%Z;
     Int64 := Int.wrap_i64 |}.

(** The in-memory environment with a VM whose runs notify: one notification
    of the "transfer" name whose receiver is not a byte string, and one that
    is no array. *)
Definition notes2 : list NotificationEvent :=
  [mkNotification 7 (ItemArray [ItemBytes transfer_op; ItemBytes [1]; ItemOther;
                                ItemBigInt 5]);
   mkNotification 8 (ItemBytes [1; 2])].

Definition notifyingEnv : Env memDao (gmap N Account) :=
  {| CoinSpent := 2;
     CoinClaimed := 4;
     GoverningTokenID := 1000;
     GetAccountStateOrNew := memGetAccountStateOrNew;
     GetAccountState := memGetAccountState;
     PutAccountState := memPutAccountState;
     GetUnspentCoinState := memGetUnspentCoinState;
     PutUnspentCoinState := memPutUnspentCoinState;
     PutAppExecResult := memPutAppExecResult;
     UnclaimedPut := memUnclaimedPut;
     UnclaimedRemove := memUnclaimedRemove;
     processTXWithValidatorsSubtract := fun _ a c => (a, c, None);
     RunVM := fun tr c block tx s =>
       {| vm_State := HALT; vm_Err := None; vm_GasConsumed := 1; vm_Estack := [];
          notifications := notes2; dao := ∅ |};
     Persist := memPersist;
     processNEP5Transfer := memNEP5Transfer;
     BytesToInt := fun _ => 0%Z;
     Int64 := Int.wrap_i64 |}.

Lemma memEnv_coherentCoins : coherentCoins (E := memEnv).
Proof.
  split.
  - intros c h u c' Hput. simpl in *. unfold memPutUnspentCoinState in Hput.
    injection Hput as <-. unfold memGetUnspentCoinState. simpl.
    rewrite lookup_insert_eq. reflexivity.
  - intros c a c' h Hput. simpl in *. unfold memPutAccountState in Hput.
    injection Hput as <-. reflexivity.
Qed.

Lemma removeBalance_swap_remove_witness :
  exists b rest,
    b ∈ [mkUnspentBalance 11 0 100; mkUnspentBalance 12 1 5; mkUnspentBalance 13 2 7] /\
    ub_Tx b = 11 /\ ub_Index b = 0 /\
    Balances (removeBalance account3 1000 11 0) !! 1000 = Some rest /\
    [mkUnspentBalance 11 0 100; mkUnspentBalance 12 1 5; mkUnspentBalance 13 2 7]
      ≡ₚ b :: rest /\
    length rest = (3 - 1)%nat.
Proof.
  apply (removeBalance_swap_remove account3 1000 11 0
           [mkUnspentBalance 11 0 100; mkUnspentBalance 12 1 5; mkUnspentBalance 13 2 7]).
  - vm_compute. reflexivity.
  - simpl. lia.
  - exists (mkUnspentBalance 11 0 100). split; [left|]. split; reflexivity.
Defined.

(** The last balance has taken the place of the first. *)
Example removeBalance_moves_last :
  Balances (removeBalance account3 1000 11 0) !! 1000
    = Some [mkUnspentBalance 13 2 7; mkUnspentBalance 12 1 5] /\
  Balances (removeBalance account3 1000 13 2) !! 1000
    = Some [mkUnspentBalance 11 0 100; mkUnspentBalance 12 1 5] /\
  removeBalance account3 1000 14 0 = account3.
Proof. vm_compute. repeat split. Qed.

(** The one balance of account 5 goes with the entry of the asset, also for
    an output the balance is not of. *)
Example removeBalance_single_other :
  Balances (removeBalance account5 1000 99 9) !! 1000 = None.
Proof. vm_compute. reflexivity. Qed.

Lemma processTXInput_account_witness :
  let st := mkOutputState (mkOutput 1000 100 5) 0 0 in
  exists cache1 account account1 cache2,
    GetAccountStateOrNew (Env := memEnv) cache0 (ScriptHash (Output st))
      = (cache1, Ok account) /\
    (if AssetID (Output st) =? GoverningTokenID (Env := memEnv) then
       exists u,
         UnclaimedPut (Env := memEnv) (Unclaimed account)
           {| uc_Tx := PrevHash (mkInput 11 0); uc_Index := PrevIndex (mkInput 11 0);
              uc_Start := Height coin11; uc_End := Index block9;
              uc_Value := Amount (Output st) |} = Ok u /\
         processTXWithValidatorsSubtract (Env := memEnv) (Output st)
           (setUnclaimed account u) cache1 = (account1, cache2, None)
     else account1 = account /\ cache2 = cache1) /\
    PutAccountState (Env := memEnv) cache2
      (removeBalance account1 (AssetID (Output st)) (PrevHash (mkInput 11 0))
                     (PrevIndex (mkInput 11 0)))
      = (snd (fst (processTXInput (E := memEnv) (mkInput 11 0) coin11 block9 cache0)), None).
Proof.
  intros st.
  apply (processTXInput_account (E := memEnv) (mkInput 11 0) coin11 block9 cache0 st).
  - reflexivity.
  - vm_compute. reflexivity.
Defined.

Lemma processGroup_spends_witness :
  let r := processGroup (E := memEnv) [mkInput 11 0] coin11 block9 cache0 in
  Height (fst (fst r)) = Height coin11 /\
  length (States (fst (fst r))) = length (States coin11) /\
  (forall input, input ∈ [mkInput 11 0] ->
     exists st,
       States coin11 !! N.to_nat (PrevIndex input) = Some st /\
       N.land (State st) (CoinSpent (Env := memEnv)) = 0 /\
       States (fst (fst r)) !! N.to_nat (PrevIndex input)
         = Some (markSpent (E := memEnv) block9 st)) /\
  (forall j, (forall input, input ∈ [mkInput 11 0] -> N.to_nat (PrevIndex input) <> j) ->
     States (fst (fst r)) !! j = States coin11 !! j).
Proof.
  intros r.
  apply (processGroup_spends (E := memEnv) [mkInput 11 0] coin11 block9 cache0).
  vm_compute. reflexivity.
Defined.


(** The inputs of a transaction reach the coin state in the cache. *)
Example processInputs_spends_output :
  match processInputs (E := memEnv) oneGroup (mkTransaction 42 43 [mkInput 11 0])
          block9 cache0 with
  | Some (c, None) =>
      States <$> (m_unspent c !! 11)
        = Some [mkOutputState (mkOutput 1000 100 5) 9 2;
                mkOutputState (mkOutput 1000 60 5) 3 2]
  | _ => False
  end.
Proof. vm_compute. reflexivity. Qed.

(** The same output twice in one group: the second input is a double spend,
    and the coin state in the cache is not written. *)
Example processInputs_same_output_twice :
  match processInputs (E := memEnv) oneGroup
          (mkTransaction 42 43 [mkInput 11 0; mkInput 11 0]) block9 cache0 with
  | Some (c, Some e) => e = ErrDoubleSpend 11 0 /\ m_unspent c !! 11 = Some coin11
  | _ => False
  end.
Proof. vm_compute. split; reflexivity. Qed.

(** An empty group is the panic of [inputs[0]]. *)
Example processInputs_empty_group :
  processInputs (E := memEnv) (fun _ => [[]]) tx42 block9 cache0 = None.
Proof. reflexivity. Qed.

Lemma processClaimTX_strict_ok_witness :
  runsThrough (E := memEnv) strict tx42 block9 (Claims (mkClaimTX [mkInput 11 1]))
    (cache0, [])
    (fst (processClaimTX (E := memEnv) strict (mkClaimTX [mkInput 11 1]) tx42 block9
            (cache0, []))).
Proof.
  apply (processClaimTX_strict_ok (E := memEnv) strict (mkClaimTX [mkInput 11 1]) tx42
           block9 (cache0, [])).
  - reflexivity.
  - vm_compute. reflexivity.
Defined.

Lemma processClaim_twice_witness :
  let w1 := fst (processClaim (E := memEnv) lenient tx42 block9 (mkInput 11 1)
                   (cache0, [])) in
  processClaim (E := memEnv) lenient tx42 block9 (mkInput 11 1) w1
    = ((fst (GetUnspentCoinState (Env := memEnv) (fst w1) (PrevHash (mkInput 11 1))),
        snd w1 ++ [WarnFalseOrDoubleClaim (PrevHash (mkInput 11 1))
                     (PrevIndex (mkInput 11 1)) (Hash tx42) (Index block9)]),
       if VerifyTransactions lenient then Return ErrDoubleClaim else Break).
Proof.
  intros w1.
  apply (processClaim_twice (E := memEnv) lenient tx42 tx42 block9 block9 (mkInput 11 1)
           (cache0, []) w1).
  - discriminate.
  - exact memEnv_coherentCoins.
  - vm_compute. reflexivity.
Defined.

(** The same claim twice in one transaction: the second one is the double
    claim, under strict verification the error of the transaction. *)
Example processClaimTX_same_claim_twice :
  snd (processClaimTX (E := memEnv) strict (mkClaimTX [mkInput 11 1; mkInput 11 1])
         tx42 block9 (cache0, []))
  = Some ErrDoubleClaim.
Proof. vm_compute. reflexivity. Qed.

Lemma processInvocationTX_persist_failure_witness :
  processInvocationTX (E := failingEnv) lenient (mkInvocationTX [0; 2; 3] 5) tx42 block9
    (cache0, [])
  = ((cache0, []),
     Some (ErrWrap (ErrExternal 7) "failed to persist invocation results")).
Proof.
  apply (processInvocationTX_persist_failure (E := failingEnv) lenient
           (mkInvocationTX [0; 2; 3] 5) tx42 block9 cache0 cache0 [] (ErrExternal 7)).
  - discriminate.
  - reflexivity.
Defined.

Lemma processInvocationTX_no_transfer_witness :
  let v := RunVM (Env := notifyingEnv) Application cache0 block9 tx42
             (setupVM lenient (mkInvocationTX [0] 5) tx42) in
  processInvocationTX (E := notifyingEnv) lenient (mkInvocationTX [0] 5) tx42 block9
    (cache0, [])
  = ((fst (PutAppExecResult (Env := notifyingEnv)
             (fst (memPersist cache0 ∅)) (execResult tx42 v)), []),
     Wrap (snd (PutAppExecResult (Env := notifyingEnv)
                  (fst (memPersist cache0 ∅)) (execResult tx42 v)))
          "failed to store notifications").
Proof.
  intros v.
  apply (processInvocationTX_no_transfer (E := notifyingEnv) lenient
           (mkInvocationTX [0] 5) tx42 block9 cache0 (fst (memPersist cache0 ∅)) [] 0).
  - discriminate.
  - reflexivity.
  - intros note Hin (from & to & amount & Hitem & _).
    apply elem_of_cons in Hin as [->|Hin].
    + discriminate Hitem.
    + apply elem_of_cons in Hin as [->|Hin]; [discriminate Hitem|inversion Hin].
Defined.

(** A notification of the NEP5 shape does reach processNEP5Transfer, with
    the amount cut to 64 bits. *)
Example processNotification_transfer :
  m_transfers
    (processNotification (E := memEnv) tx42 block9 cache0
       (mkNotification 7 (ItemArray [ItemBytes transfer_op; ItemBytes [1]; ItemBytes [2];
                                     ItemBigInt (2 ^ 64 + 5)])))
  = [(7, [1], [2], 5%Z)].
Proof. vm_compute. reflexivity. Qed.

(** *** processTXData (lines 92-146).  The asset and contract states, the
    results of a transaction and the processing of enrollment and state
    transactions are not in the sources at hand; the records hold the
    fields the function names, the other functions are parameters. *)

(** state.Asset, the fields processTXData sets or changes. *)
Record Asset := mkAsset {
  asset_ID : N;
  asset_AssetType : N;
  asset_Name : string;
  asset_Amount : Z;            (* util.Fixed8 *)
  asset_Available : Z;         (* util.Fixed8 *)
  asset_Precision : N;
  asset_Owner : N;
  asset_Admin : N;
  asset_Expiration : N         (* uint32 *)
}.

(** transaction.RegisterTX *)
Record RegisterTX := mkRegisterTX {
  reg_AssetType : N;
  reg_Name : string;
  reg_Amount : Z;
  reg_Precision : N;
  reg_Owner : N;
  reg_Admin : N
}.

(** transaction.PublishTX *)
Record PublishTX := mkPublishTX {
  pub_Script : list N;
  pub_ParamList : list N;
  pub_ReturnType : N;
  pub_NeedStorage : bool;
  pub_Name : string;
  pub_CodeVersion : string;
  pub_Author : string;
  pub_Email : string;
  pub_Description : string
}.

(** state.Contract *)
Record Contract := mkContract {
  con_Script : list N;
  con_ParamList : list N;
  con_ReturnType : N;
  con_Properties : N;          (* smartcontract.PropertyState *)
  con_Name : string;
  con_CodeVersion : string;
  con_Author : string;
  con_Email : string;
  con_Description : string
}.

(** transaction.TransactionResult *)
Record TransactionResult := mkResult {
  res_AssetID : N;
  res_Amount : Z               (* util.Fixed8 *)
}.

(** tx.Data, by its dynamic type; [DataOther] is any type without a case of
    its own. *)
Inductive TXData (EnrollmentTX StateTX : Type) :=
| DataRegister (t : RegisterTX)
| DataIssue
| DataClaim (t : ClaimTX)
| DataEnrollment (t : EnrollmentTX)
| DataState (t : StateTX)
| DataPublish (t : PublishTX)
| DataInvocation (t : InvocationTX)
| DataOther.
Arguments DataRegister {EnrollmentTX StateTX} t.
Arguments DataIssue {EnrollmentTX StateTX}.
Arguments DataClaim {EnrollmentTX StateTX} t.
Arguments DataEnrollment {EnrollmentTX StateTX} t.
Arguments DataState {EnrollmentTX StateTX} t.
Arguments DataPublish {EnrollmentTX StateTX} t.
Arguments DataInvocation {EnrollmentTX StateTX} t.
Arguments DataOther {EnrollmentTX StateTX}.

(** The errors of processTXData: the one it builds itself ("issue failed: no
    asset %s or error %s"), and those handed up. *)
Inductive txError :=
| IssueFailed (asset : N) (err : option error)
| TxErr (e : error).

Definition setAvailable (a : Asset) (v : Z) : Asset :=
  {| asset_ID := asset_ID a; asset_AssetType := asset_AssetType a;
     asset_Name := asset_Name a; asset_Amount := asset_Amount a;
     asset_Available := v; asset_Precision := asset_Precision a;
     asset_Owner := asset_Owner a; asset_Admin := asset_Admin a;
     asset_Expiration := asset_Expiration a |}.

Definition isNegative (res : TransactionResult) : bool := (res_Amount res <? 0)%Z.

Section TXData.
Context {cachedDao stagedDao : Type} `{E : Env cachedDao stagedDao}.
Context {EnrollmentTX StateTX : Type}.
Variable PutAssetState : cachedDao -> Asset -> cachedDao * option error.
(* returns the asset, which may be nil, and an error *)
Variable GetAssetState : cachedDao -> N -> cachedDao * (option Asset * option error).
Variable PutContractState : cachedDao -> Contract -> cachedDao * option error.
Variable processEnrollmentTX : cachedDao -> EnrollmentTX -> cachedDao * option error.
Variable processStateTX : cachedDao -> StateTX -> cachedDao * option error.
Variable BlockHeight : N.                (* bc.BlockHeight() *)
Variable registeredAssetLifetime : N.
Variable GetTransactionResults : Transaction -> list TransactionResult.
Variable HasStorage : N.                 (* smartcontract.HasStorage *)

(** Lines 107-118: the loop over the results of an issue transaction. *)
Fixpoint issueResults (results : list TransactionResult) (cache : cachedDao)
    : cachedDao * option txError :=
  match results with
  | [] => (cache, None)
  | res :: rest =>
      if isNegative res then
        match GetAssetState cache (res_AssetID res) with
        | (cache1, (Some asset, None)) =>
            let asset' :=
              setAvailable asset (Int.wrap_i64 (asset_Available asset - res_Amount res)) in
            match PutAssetState cache1 asset' with
            | (cache2, Some e) => (cache2, Some (TxErr e))
            | (cache2, None) => issueResults rest cache2
            end
        | (cache1, (_, err)) => (cache1, Some (IssueFailed (res_AssetID res) err))
        end
      else issueResults rest cache
  end.

Definition liftErr {A : Type} (r : A * option error) : A * option txError :=
  (fst r, option_map TxErr (snd r)).

(** processTXData (lines 92-146). *)
Definition processTXData (cfg : Config) (data : TXData EnrollmentTX StateTX)
    (tx : Transaction) (block : Block) (w : cachedDao * list LogEntry)
    : (cachedDao * list LogEntry) * option txError :=
  let '(cache, log) := w in
  match data with
  | DataRegister t =>
      let '(cache1, err) :=
        PutAssetState cache
          {| asset_ID := Hash tx; asset_AssetType := reg_AssetType t;
             asset_Name := reg_Name t; asset_Amount := reg_Amount t;
             asset_Available := 0; asset_Precision := reg_Precision t;
             asset_Owner := reg_Owner t; asset_Admin := reg_Admin t;
             asset_Expiration := (BlockHeight + registeredAssetLifetime) mod 2 ^ 32 |} in
      ((cache1, log), option_map TxErr err)
  | DataIssue =>
      let '(cache1, err) := issueResults (GetTransactionResults tx) cache in
      ((cache1, log), err)
  | DataClaim t => liftErr (processClaimTX cfg t tx block w)
  | DataEnrollment t =>
      let '(cache1, err) := processEnrollmentTX cache t in
      ((cache1, log), option_map TxErr err)
  | DataState t =>
      let '(cache1, err) := processStateTX cache t in
      ((cache1, log), option_map TxErr err)
  | DataPublish t =>
      let properties := if pub_NeedStorage t then N.lor 0 HasStorage else 0 in
      let '(cache1, err) :=
        PutContractState cache
          {| con_Script := pub_Script t; con_ParamList := pub_ParamList t;
             con_ReturnType := pub_ReturnType t; con_Properties := properties;
             con_Name := pub_Name t; con_CodeVersion := pub_CodeVersion t;
             con_Author := pub_Author t; con_Email := pub_Email t;
             con_Description := pub_Description t |} in
      ((cache1, log), option_map TxErr err)
  | DataInvocation t => liftErr (processInvocationTX cfg t tx block w)
  | DataOther => (w, None)
  end.

(** An asset DAO that reads back what was put: reading changes nothing that
    can be read, and putting an asset changes what is read under the ID of
    the asset and nothing else. *)
Definition coherentAssets : Prop :=
  (forall c id id', snd (GetAssetState (fst (GetAssetState c id)) id')
                    = snd (GetAssetState c id')) /\
  (forall c a c', PutAssetState c a = (c', None) ->
     snd (GetAssetState c' (asset_ID a)) = (Some a, None) /\
     forall id, id <> asset_ID a ->
       snd (GetAssetState c' id) = snd (GetAssetState c id)).

(** Every asset of the cache is found under its own ID. *)
Definition wellKeyed (c : cachedDao) : Prop :=
  forall id a, snd (GetAssetState c id) = (Some a, None) -> asset_ID a = id.

(** The sum of the amounts of the negative results for one asset. *)
Fixpoint issued (id : N) (results : list TransactionResult) : Z :=
  match results with
  | [] => 0
  | res :: rest =>
      (if isNegative res && (res_AssetID res =? id)%N then res_Amount res else 0)
      + issued id rest
  end%Z.

Lemma issueResults_filter (results : list TransactionResult) (cache : cachedDao) :
  issueResults results cache = issueResults (List.filter isNegative results) cache.
Proof.
  revert cache. induction results as [|res rest IH]; intros cache; [reflexivity|].
  simpl. destruct (isNegative res) eqn:Hneg.
  - simpl. rewrite Hneg.
    destruct (GetAssetState cache (res_AssetID res)) as [c1 [[asset|] [e|]]];
      try reflexivity.
    destruct (PutAssetState c1 _) as [c2 [e|]]; [reflexivity|]. apply IH.
  - apply IH.
Qed.

Lemma wrap_i64_sub_idemp (x y : Z) :
  Int.wrap_i64 (Int.wrap_i64 x - y) = Int.wrap_i64 (x - y).
Proof.
  unfold Int.wrap_i64. f_equal.
  replace ((x + 2 ^ 63) mod 2 ^ 64 - 2 ^ 63 - y + 2 ^ 63)%Z
    with ((x + 2 ^ 63) mod 2 ^ 64 - y)%Z by lia.
  rewrite Zminus_mod_idemp_l. f_equal. lia.
Qed.

Lemma setAvailable_same (a : Asset) : setAvailable a (asset_Available a) = a.
Proof. destruct a; reflexivity. Qed.

Lemma setAvailable_twice (a : Asset) (v v' : Z) :
  setAvailable (setAvailable a v) v' = setAvailable a v'.
Proof. reflexivity. Qed.

(** X18. Of the results of an issue transaction only those with a negative
    amount count: processTXData does with an IssueTX what it would do with
    the negative results alone, and when no result is negative it returns
    no error and leaves the cache and the log as they were, without a call
    of the DAO. *)
Theorem processTXData_issue_negative_only (cfg : Config) (tx : Transaction)
    (block : Block) (cache : cachedDao) (log : list LogEntry) :
  processTXData cfg DataIssue tx block (cache, log)
    = ((fst (issueResults (List.filter isNegative (GetTransactionResults tx)) cache), log),
       snd (issueResults (List.filter isNegative (GetTransactionResults tx)) cache)) /\
  ((forall res, res ∈ GetTransactionResults tx -> (0 <= res_Amount res)%Z) ->
   processTXData cfg DataIssue tx block (cache, log) = ((cache, log), None)).
Proof.
  assert (Hrun : processTXData cfg DataIssue tx block (cache, log)
    = ((fst (issueResults (List.filter isNegative (GetTransactionResults tx)) cache), log),
       snd (issueResults (List.filter isNegative (GetTransactionResults tx)) cache))).
  { unfold processTXData. rewrite issueResults_filter.
    destruct (issueResults _ cache) as [c1 err]. reflexivity. }
  split; [exact Hrun|].
  intros Hpos. rewrite Hrun.
  assert (Hnil : List.filter isNegative (GetTransactionResults tx) = []).
  { revert Hpos. generalize (GetTransactionResults tx) as results.
    induction results as [|res rest IH]; intros Hpos; [reflexivity|].
    simpl. unfold isNegative at 1.
    assert (Hres : (0 <= res_Amount res)%Z) by (apply Hpos; left).
    apply Z.ltb_ge in Hres. rewrite Hres. apply IH.
    intros r Hin. apply Hpos. right. exact Hin. }
  rewrite Hnil. reflexivity.
Qed.

(** X19. On an asset DAO that reads back what was put, an issue that goes
    through adds to every asset what was issued of it: the asset is found
    as it was except for its Available field, which is the old one minus
    the sum of the negative amounts of the results for that asset (as a
    64-bit Fixed8), and so is unchanged when there is no such result.  The
    assets of the cache stay under their own IDs. *)
Theorem issueResults_available (results : list TransactionResult)
    (cache cache' : cachedDao) :
  coherentAssets ->
  wellKeyed cache ->
  issueResults results cache = (cache', None) ->
  wellKeyed cache' /\
  forall id a0,
    snd (GetAssetState cache id) = (Some a0, None) ->
    Int.is_i64 (asset_Available a0) ->
    snd (GetAssetState cache' id)
      = (Some (setAvailable a0 (Int.wrap_i64 (asset_Available a0 - issued id results))),
         None).
Proof.
  intros [Hread Hput]. revert cache.
  induction results as [|res rest IH]; intros cache Hkeys Hrun.
  - simpl in Hrun. injection Hrun as <-. split; [exact Hkeys|].
    intros id a0 Hget Hfit. rewrite Hget. simpl.
    rewrite Z.sub_0_r, Int.wrap_i64_small by exact Hfit.
    rewrite setAvailable_same. reflexivity.
  - simpl in Hrun. simpl issued.
    destruct (isNegative res) eqn:Hneg.
    2:{ destruct (IH cache Hkeys Hrun) as [Hk Hav]. split; [exact Hk|].
        intros id a0 Hget Hfit. simpl. apply Hav; assumption. }
    pose proof (Hread cache (res_AssetID res)) as Hsame.
    destruct (GetAssetState cache (res_AssetID res)) as [c1 [[asset|] [e|]]] eqn:Hg;
      try discriminate.
    simpl in Hsame.
    assert (Hid : asset_ID asset = res_AssetID res).
    { apply Hkeys. rewrite Hg. reflexivity. }
    set (asset' := setAvailable asset
                     (Int.wrap_i64 (asset_Available asset - res_Amount res))) in *.
    destruct (PutAssetState c1 asset') as [c2 [e|]] eqn:Hp; [discriminate|].
    destruct (Hput _ _ _ Hp) as [Hnew Hold]. simpl in Hnew, Hold.
    assert (Hkeys2 : wellKeyed c2).
    { intros id a Hget. destruct (decide (id = asset_ID asset)) as [->|Hne].
      - rewrite Hnew in Hget. injection Hget as <-. reflexivity.
      - rewrite (Hold id Hne), Hsame in Hget. apply Hkeys, Hget. }
    destruct (IH c2 Hkeys2 Hrun) as [Hk Hav]. split; [exact Hk|].
    intros id a0 Hget Hfit.
    destruct (res_AssetID res =? id) eqn:Heq.
    + apply N.eqb_eq in Heq. subst id. simpl.
      assert (a0 = asset).
      { rewrite Hg in Hget. simpl in Hget. congruence. }
      subst a0.
      rewrite (Hav (res_AssetID res) asset').
      * subst asset'. rewrite setAvailable_twice. simpl.
        rewrite wrap_i64_sub_idemp.
        replace (asset_Available asset - res_Amount res - issued (res_AssetID res) rest)%Z
          with (asset_Available asset
                - (res_Amount res + issued (res_AssetID res) rest))%Z by lia.
        reflexivity.
      * rewrite <- Hid. exact Hnew.
      * apply Int.wrap_i64_range.
    + apply N.eqb_neq in Heq. simpl.
      apply Hav; [|exact Hfit].
      rewrite Hold by congruence. rewrite Hsame. exact Hget.
Qed.

End TXData.

(** An asset DAO in memory: a map from IDs to assets. *)
Definition assetGet (c : gmap N Asset) (id : N) : gmap N Asset * (option Asset * option error) :=
  (c, (c !! id, None)).

Definition assetPut (c : gmap N Asset) (a : Asset) : gmap N Asset * option error :=
  (<[asset_ID a := a]> c, None).

Definition asset7 : Asset := mkAsset 7 0 "token" 1000 100 8 1 1 50.
Definition asset8 : Asset := mkAsset 8 0 "share" 500 0 0 2 2 60.
Definition assets0 : gmap N Asset := <[7 := asset7]> (<[8 := asset8]> ∅).

(** Results that issue 30 and 12 of asset 7, and take 5 of asset 8 in. *)
Definition results0 : list TransactionResult :=
  [mkResult 7 (-30); mkResult 8 5; mkResult 7 (-12)].

Lemma asset_coherentAssets : coherentAssets assetPut assetGet.
Proof.
  split.
  - intros c id id'. reflexivity.
  - intros c a c' Hput. unfold assetPut in Hput. injection Hput as <-.
    unfold assetGet. simpl. split.
    + rewrite lookup_insert_eq. reflexivity.
    + intros id Hne. rewrite lookup_insert_ne by congruence. reflexivity.
Qed.

Lemma assets0_wellKeyed : wellKeyed assetGet assets0.
Proof.
  intros id a Hget. unfold assetGet, assets0 in Hget. simpl in Hget.
  injection Hget as Hget.
  destruct (decide (id = 7)) as [->|H7].
  - rewrite lookup_insert_eq in Hget. injection Hget as <-. reflexivity.
  - rewrite lookup_insert_ne in Hget by congruence.
    destruct (decide (id = 8)) as [->|H8].
    + rewrite lookup_insert_eq in Hget. injection Hget as <-. reflexivity.
    + rewrite lookup_insert_ne in Hget by congruence.
      rewrite lookup_empty in Hget. discriminate.
Qed.

Lemma issueResults_available_witness :
  let cache' := fst (issueResults assetPut assetGet results0 assets0) in
  wellKeyed assetGet cache' /\
  forall id a0,
    snd (assetGet assets0 id) = (Some a0, None) ->
    Int.is_i64 (asset_Available a0) ->
    snd (assetGet cache' id)
      = (Some (setAvailable a0 (Int.wrap_i64 (asset_Available a0 - issued id results0))),
         None).
Proof.
  intros cache'.
  apply (issueResults_available assetPut assetGet results0 assets0 cache').
  - exact asset_coherentAssets.
  - exact assets0_wellKeyed.
  - vm_compute. reflexivity.
Defined.

(** 42 of asset 7 are issued; asset 8, whose result is positive, is not
    touched. *)
Example issueResults_issues :
  let cache' := fst (issueResults assetPut assetGet results0 assets0) in
  asset_Available <$> (cache' !! 7) = Some 142%Z /\
  cache' !! 8 = Some asset8.
Proof. vm_compute. split; reflexivity. Qed.

(** A negative result for an asset that is not there fails the issue. *)
Example issueResults_no_asset :
  snd (issueResults assetPut assetGet [mkResult 9 (-1)] assets0)
  = Some (IssueFailed 9 None).
Proof. reflexivity. Qed.

End Core.

(** ** pkg/vm: the script VM

    The interpreter (vm.go), its stack items, the opcode table and the
    serializer are not part of the sources at hand; only vm_test.go is.  The
    definitions of this module are therefore modelled from the specification
    and checked against the tests.  The model covers the opcodes the tests of
    the resource bounds, of serialization and of the iterators use, with
    programs as lists of decoded instructions and jump offsets counted in
    instructions. *)

Module Vm.
Local Open Scope Z_scope.

(** Modelled from the spec: the resource bounds, whose constants are not in
    the sources at hand.  "Integer magnitude <= 256 bits", "MaxItemSize
    (about 1 MiB)", "MaxStackSize (about 2048)"; TestStackLimitAPPENDStructGood
    notes that (MaxStackSize/2-2)*2+3 is 2047. *)
Definition MaxBigIntegerSizeBits : Z := 256.
Definition MaxItemSize : Z := 1048576.
Definition MaxStackSize : Z := 2048.

(** Modelled from the spec: stack items.  Compound items and interop values
    live in an arena and are held by handle, so that DUP keeps the identity of
    an array, and items may refer to each other in cycles. *)
Inductive Item :=
| Null
| Bool (b : bool)
| Integer (z : Z)
| ByteArray (bs : list Z)
| Interop (a : positive)
| Ref (a : positive).

(** Keys of maps are primitive items. *)
Inductive Key :=
| KBool (b : bool)
| KInteger (z : Z)
| KByteArray (bs : list Z).

(** What a handle stands for: an array, a struct, a map with its elements in
    the order they were added (MapElement in the tests), an iterator with its
    position, or an interop value the VM does not look into. *)
Inductive Object :=
| Array (l : list Item)
| Struct (l : list Item)
| Map (m : list (Key * Item))
| Iterator (entries : list (Item * Item)) (pos : nat)
| Opaque.

(** Modelled from the spec: the states of the VM. *)
Inductive State := NONE | BREAK | HALT | FAULT.

(** Modelled from the spec: the instructions of the model, operands decoded.
    [PUSHINT] stands for PUSHM1, PUSH0..PUSH16 and PUSHINT8..PUSHINT256,
    [PUSHDATA] for PUSHDATA1/2/4. *)
Inductive Instr :=
| PUSHINT (z : Z)
| PUSHDATA (bs : list Z)
| PUSHNULL
| NOP
| JMP (off : Z)
| JMPIF (off : Z)
| JMPIFNOT (off : Z)
| RET
| SYSCALL (name : string)
| DUP
| DROP
| SWAP
| DEPTH
| TOALTSTACK
| FROMALTSTACK
| DUPFROMALTSTACK
| INC
| DEC
| ADD
| SUB
| MUL
| SHL
| NEWARRAY
| NEWSTRUCT
| NEWMAP
| PACK
| APPEND
| SETITEM
| REMOVE.

(** Modelled from the spec: the VM with one invocation context: script and
    instruction pointer, evaluation and alt stack (top first), the arena with
    its next free handle, the state and the gas counters.  [gasLimit] is
    [None] until set_gas_limit is called. *)
Record VM := mkVM {
  prog : list Instr;
  ip : nat;
  estack : list Item;
  astack : list Item;
  arena : gmap positive Object;
  next : positive;
  state : State;
  gasConsumed : Z;
  gasLimit : option Z
}.

(** Modelled from the spec: what the VM is given besides the script: the
    resolver from syscall names to handlers (the interop table; the hash of
    the name that addresses it is left out) and the price getter, if any. *)
Record Env := mkEnv {
  getInterop : string -> option (VM -> option VM);
  getPrice : option (Instr -> Z)
}.

Definition setEstack (vm : VM) (s : list Item) : VM :=
  mkVM (prog vm) (ip vm) s (astack vm) (arena vm) (next vm) (state vm)
       (gasConsumed vm) (gasLimit vm).

Definition setAstack (vm : VM) (s : list Item) : VM :=
  mkVM (prog vm) (ip vm) (estack vm) s (arena vm) (next vm) (state vm)
       (gasConsumed vm) (gasLimit vm).

Definition setIp (vm : VM) (i : nat) : VM :=
  mkVM (prog vm) i (estack vm) (astack vm) (arena vm) (next vm) (state vm)
       (gasConsumed vm) (gasLimit vm).

Definition setState (vm : VM) (s : State) : VM :=
  mkVM (prog vm) (ip vm) (estack vm) (astack vm) (arena vm) (next vm) s
       (gasConsumed vm) (gasLimit vm).

Definition setGas (vm : VM) (g : Z) : VM :=
  mkVM (prog vm) (ip vm) (estack vm) (astack vm) (arena vm) (next vm) (state vm)
       g (gasLimit vm).

Definition setObject (vm : VM) (a : positive) (o : Object) : VM :=
  mkVM (prog vm) (ip vm) (estack vm) (astack vm) (<[a := o]> (arena vm)) (next vm)
       (state vm) (gasConsumed vm) (gasLimit vm).

(** A new object gets the next free handle. *)
Definition alloc (vm : VM) (o : Object) : positive * VM :=
  (next vm,
   mkVM (prog vm) (ip vm) (estack vm) (astack vm) (<[next vm := o]> (arena vm))
        (Pos.succ (next vm)) (state vm) (gasConsumed vm) (gasLimit vm)).

(** load(script), with items put on the evaluation stack beforehand. *)
Definition load (script : list Instr) (stack : list Item)
    (ar : gmap positive Object) (nxt : positive) : VM :=
  mkVM script 0 stack [] ar nxt NONE 0 None.

Definition SetGasLimit (vm : VM) (g : Z) : VM :=
  mkVM (prog vm) (ip vm) (estack vm) (astack vm) (arena vm) (next vm) (state vm)
       (gasConsumed vm) (Some g).

Definition HasFailed (vm : VM) : bool :=
  match state vm with FAULT => true | _ => false end.

Definition terminal (s : State) : bool :=
  match s with HALT | FAULT => true | _ => false end.

(** *** Integers *)

(** The length in bits of the absolute value (BitLen of a big integer). *)
Definition bitLen (z : Z) : Z :=
  if z =? 0 then 0 else Z.log2 (Z.abs z) + 1.

(** Modelled from the spec: the integer cap, "integer magnitude <= 256 bits
    (MaxBigIntegerSizeBits)". *)
Definition checkBigIntSize (z : Z) : bool := bitLen z <=? MaxBigIntegerSizeBits.

(** Modelled from the spec: integers as byte strings, little-endian two's
    complement of minimal length, zero being the empty string (emit.IntToBytes
    and emit.BytesToInt are not in the sources at hand). *)
Fixpoint encInt (fuel : nat) (z : Z) : list Z :=
  match fuel with
  | O => [z mod 256]
  | S f =>
      if (-128 <=? z) && (z <? 128) then [z mod 256]
      else (z mod 256) :: encInt f (z / 256)
  end.

Definition IntToBytes (z : Z) : list Z :=
  if z =? 0 then [] else encInt (Z.to_nat (Z.log2 (Z.abs z))) z.

Fixpoint BytesToInt (bs : list Z) : Z :=
  match bs with
  | [] => 0
  | b :: rest =>
      match rest with
      | [] => if b <? 128 then b else b - 256
      | _ => b + 256 * BytesToInt rest
      end
  end.

(** The conversions an opcode applies to its operands. *)
Definition toBigInt (x : Item) : option Z :=
  match x with
  | Integer z => Some z
  | Bool b => Some (if b then 1 else 0)
  | ByteArray bs => Some (BytesToInt bs)
  | _ => None
  end.

Definition toBool (x : Item) : bool :=
  match x with
  | Null => false
  | Bool b => b
  | Integer z => negb (z =? 0)
  | ByteArray bs => existsb (fun b => negb (b =? 0)) bs
  | Interop _ | Ref _ => true
  end.

Definition toKey (x : Item) : option Key :=
  match x with
  | Bool b => Some (KBool b)
  | Integer z => Some (KInteger z)
  | ByteArray bs => Some (KByteArray bs)
  | _ => None
  end.

Definition keyItem (k : Key) : Item :=
  match k with
  | KBool b => Bool b
  | KInteger z => Integer z
  | KByteArray bs => ByteArray bs
  end.

Fixpoint bytes_eqb (a b : list Z) : bool :=
  match a, b with
  | [], [] => true
  | x :: a', y :: b' => (x =? y) && bytes_eqb a' b'
  | _, _ => false
  end.

Definition key_eqb (a b : Key) : bool :=
  match a, b with
  | KBool x, KBool y => Bool.eqb x y
  | KInteger x, KInteger y => x =? y
  | KByteArray x, KByteArray y => bytes_eqb x y
  | _, _ => false
  end.

(** m.Add: the value of a key that is there is replaced, a new key is added
    at the end. *)
Fixpoint mapAdd (k : Key) (v : Item) (m : list (Key * Item)) : list (Key * Item) :=
  match m with
  | [] => [(k, v)]
  | (k', v') :: rest =>
      if key_eqb k k' then (k, v) :: rest else (k', v') :: mapAdd k v rest
  end.

Definition mapRemove (k : Key) (m : list (Key * Item)) : list (Key * Item) :=
  List.filter (fun e => negb (key_eqb k (fst e))) m.

(** *** Stack-size accounting *)

(** The items a compound object holds. *)
Definition children (o : Object) : list Item :=
  match o with
  | Array l | Struct l => l
  | Map m => List.map snd m
  | Iterator _ _ | Opaque => []
  end.

Definition refOf (x : Item) : option positive :=
  match x with
  | Ref a => Some a
  | _ => None
  end.

(** The elements of the compound objects that can be reached from the
    handles of [todo], every object counted once. *)
Fixpoint reach (fuel : nat) (ar : gmap positive Object) (todo : list positive)
    (seen : gmap positive unit) (count : Z) : Z :=
  match fuel with
  | O => count
  | S f =>
      match todo with
      | [] => count
      | a :: rest =>
          match seen !! a with
          | Some _ => reach f ar rest seen count
          | None =>
              match ar !! a with
              | None => reach f ar rest seen count
              | Some o =>
                  reach f ar (omap refOf (children o) ++ rest) (<[a := tt]> seen)
                        (count + Z.of_nat (length (children o)))
              end
          end
      end
  end.

(** Handles are followed at most once per element that holds them. *)
Definition reachFuel (ar : gmap positive Object) (roots : list positive) : nat :=
  S (length roots + map_fold (fun _ o n => (length (children o) + n)%nat) 0%nat ar).

(** Modelled from the spec: the live item count, "items reachable from any
    stack frame including alt stacks and inside compound items", a compound
    item that is shared or cyclic being counted once. *)
Definition liveSize (vm : VM) : Z :=
  let roots := omap refOf (estack vm ++ astack vm) in
  Z.of_nat (length (estack vm)) + Z.of_nat (length (astack vm))
  + reach (reachFuel (arena vm) roots) (arena vm) roots ∅ 0.

(** *** Struct values *)

Fixpoint mapVM (f : VM -> Item -> option (Item * VM)) (vm : VM) (l : list Item)
    : option (list Item * VM) :=
  match l with
  | [] => Some ([], vm)
  | x :: rest =>
      match f vm x with
      | None => None
      | Some (x', vm1) =>
          match mapVM f vm1 rest with
          | None => None
          | Some (rest', vm2) => Some (x' :: rest', vm2)
          end
      end
  end.

(** Modelled from the spec: "Struct is value-semantics: when appended into
    another container, it is deep-cloned (bounded)"; arrays and maps inside
    stay shared.  The bound is the depth of the copy. *)
Fixpoint clone (fuel : nat) (vm : VM) (x : Item) : option (Item * VM) :=
  match fuel with
  | O => None
  | S f =>
      match x with
      | Ref a =>
          match arena vm !! a with
          | Some (Struct l) =>
              match mapVM (clone f) vm l with
              | None => None
              | Some (l', vm1) =>
                  let '(a', vm2) := alloc vm1 (Struct l') in Some (Ref a', vm2)
              end
          | _ => Some (x, vm)
          end
      | _ => Some (x, vm)
      end
  end.

Definition cloneBudget : nat := Z.to_nat MaxStackSize.

(** *** Instructions *)

(** Modelled from the spec: ADD, SUB and MUL: both operands and the result
    are held to the integer cap; the result is the exact one. *)
Definition arith (f : Z -> Z -> Z) (vm : VM) : option VM :=
  match estack vm with
  | b :: a :: rest =>
      match toBigInt a, toBigInt b with
      | Some za, Some zb =>
          if checkBigIntSize za then
            if checkBigIntSize zb then
              if checkBigIntSize (f za zb)
              then Some (setEstack vm (Integer (f za zb) :: rest))
              else None
            else None
          else None
      | _, _ => None
      end
  | _ => None
  end.

(** INC and DEC. *)
Definition arith1 (f : Z -> Z) (vm : VM) : option VM :=
  match estack vm with
  | a :: rest =>
      match toBigInt a with
      | Some za =>
          if checkBigIntSize za then
            if checkBigIntSize (f za)
            then Some (setEstack vm (Integer (f za) :: rest))
            else None
          else None
      | None => None
      end
  | _ => None
  end.

(** SHL: as ADD, the shift count on top; a shift by zero leaves the item as
    it is (TestSHLZero). *)
Definition shl (vm : VM) : option VM :=
  match estack vm with
  | b :: a :: rest =>
      match toBigInt a, toBigInt b with
      | Some za, Some zb =>
          if checkBigIntSize za then
            if checkBigIntSize zb then
              if zb =? 0 then Some (setEstack vm (a :: rest))
              else if checkBigIntSize (Z.shiftl za zb)
              then Some (setEstack vm (Integer (Z.shiftl za zb) :: rest))
              else None
            else None
          else None
      | _, _ => None
      end
  | _ => None
  end.

(** NEWARRAY and NEWSTRUCT: a count gives that many [false] elements, an
    array or struct is converted, its elements copied into the new item
    unless it is of the wanted kind already. *)
Definition newCompound (isStruct : bool) (vm : VM) : option VM :=
  let mk := if isStruct then Struct else Array in
  match estack vm with
  | Ref a :: rest =>
      match arena vm !! a with
      | Some (Array l) =>
          if isStruct then
            let '(a', vm1) := alloc (setEstack vm rest) (Struct l) in
            Some (setEstack vm1 (Ref a' :: rest))
          else Some vm
      | Some (Struct l) =>
          if isStruct then Some vm
          else
            let '(a', vm1) := alloc (setEstack vm rest) (Array l) in
            Some (setEstack vm1 (Ref a' :: rest))
      | _ => None
      end
  | x :: rest =>
      match toBigInt x with
      | Some n =>
          if n <? 0 then None
          else
            let '(a', vm1) := alloc (setEstack vm rest)
                                (mk (replicate (Z.to_nat n) (Bool false))) in
            Some (setEstack vm1 (Ref a' :: rest))
      | None => None
      end
  | [] => None
  end.

(** PACK: the count, then that many items, the first taken first. *)
Definition pack (vm : VM) : option VM :=
  match estack vm with
  | x :: rest =>
      match toBigInt x with
      | Some n =>
          if (n <? 0) || (Z.of_nat (length rest) <? n) then None
          else
            let k := Z.to_nat n in
            let '(a', vm1) := alloc (setEstack vm (drop k rest)) (Array (take k rest)) in
            Some (setEstack vm1 (Ref a' :: drop k rest))
      | None => None
      end
  | [] => None
  end.

(** APPEND: the item, then the array or struct it goes into; a struct is
    cloned on the way in. *)
Definition append (vm : VM) : option VM :=
  match estack vm with
  | x :: Ref a :: rest =>
      match clone cloneBudget (setEstack vm rest) x with
      | None => None
      | Some (x', vm1) =>
          match arena vm1 !! a with
          | Some (Array l) => Some (setObject vm1 a (Array (l ++ [x'])))
          | Some (Struct l) => Some (setObject vm1 a (Struct (l ++ [x'])))
          | _ => None
          end
      end
  | _ => None
  end.

(** SETITEM: the value, the key, the container. *)
Definition setitem (vm : VM) : option VM :=
  match estack vm with
  | v :: k :: Ref a :: rest =>
      match clone cloneBudget (setEstack vm rest) v with
      | None => None
      | Some (v', vm1) =>
          match arena vm1 !! a with
          | Some (Map m) =>
              match toKey k with
              | Some key => Some (setObject vm1 a (Map (mapAdd key v' m)))
              | None => None
              end
          | Some (Array l) =>
              match toBigInt k with
              | Some i =>
                  if (i <? 0) || (Z.of_nat (length l) <=? i) then None
                  else Some (setObject vm1 a (Array (<[Z.to_nat i := v']> l)))
              | None => None
              end
          | Some (Struct l) =>
              match toBigInt k with
              | Some i =>
                  if (i <? 0) || (Z.of_nat (length l) <=? i) then None
                  else Some (setObject vm1 a (Struct (<[Z.to_nat i := v']> l)))
              | None => None
              end
          | _ => None
          end
      end
  | _ => None
  end.

(** REMOVE: the key, the container. *)
Definition remove (vm : VM) : option VM :=
  match estack vm with
  | k :: Ref a :: rest =>
      match arena vm !! a with
      | Some (Map m) =>
          match toKey k with
          | Some key => Some (setObject (setEstack vm rest) a (Map (mapRemove key m)))
          | None => None
          end
      | Some (Array l) =>
          match toBigInt k with
          | Some i =>
              if (i <? 0) || (Z.of_nat (length l) <=? i) then None
              else Some (setObject (setEstack vm rest) a (Array (delete (Z.to_nat i) l)))
          | None => None
          end
      | Some (Struct l) =>
          match toBigInt k with
          | Some i =>
              if (i <? 0) || (Z.of_nat (length l) <=? i) then None
              else Some (setObject (setEstack vm rest) a (Struct (delete (Z.to_nat i) l)))
          | None => None
          end
      | _ => None
      end
  | _ => None
  end.

(** A jump by [off] instructions; the target lies within the script or just
    behind it. *)
Definition jump (off : Z) (vm : VM) : option VM :=
  let target := Z.of_nat (ip vm) + off in
  if (target <? 0) || (Z.of_nat (length (prog vm)) <? target) then None
  else Some (setIp vm (Z.to_nat target)).

Definition advance (vm : VM) : VM := setIp vm (S (ip vm)).

(** Modelled from the spec: one instruction on the stacks and the arena.
    [None] stands for a failure of the instruction: stack underflow, type
    mismatch, arithmetic overflow, unresolved syscall, bad operand. *)
Definition exec (env : Env) (i : Instr) (vm : VM) : option VM :=
  match i with
  | PUSHINT z => Some (advance (setEstack vm (Integer z :: estack vm)))
  | PUSHDATA bs =>
      if MaxItemSize <? Z.of_nat (length bs) then None
      else Some (advance (setEstack vm (ByteArray bs :: estack vm)))
  | PUSHNULL => Some (advance (setEstack vm (Null :: estack vm)))
  | NOP => Some (advance vm)
  | JMP off => jump off vm
  | JMPIF off =>
      match estack vm with
      | c :: rest =>
          if toBool c then jump off (setEstack vm rest)
          else Some (advance (setEstack vm rest))
      | [] => None
      end
  | JMPIFNOT off =>
      match estack vm with
      | c :: rest =>
          if toBool c then Some (advance (setEstack vm rest))
          else jump off (setEstack vm rest)
      | [] => None
      end
  | RET => Some (setState vm HALT)
  | SYSCALL name =>
      match getInterop env name with
      | Some handler => handler (advance vm)
      | None => None
      end
  | DUP =>
      match estack vm with
      | x :: rest => Some (advance (setEstack vm (x :: x :: rest)))
      | [] => None
      end
  | DROP =>
      match estack vm with
      | _ :: rest => Some (advance (setEstack vm rest))
      | [] => None
      end
  | SWAP =>
      match estack vm with
      | x :: y :: rest => Some (advance (setEstack vm (y :: x :: rest)))
      | _ => None
      end
  | DEPTH =>
      Some (advance (setEstack vm (Integer (Z.of_nat (length (estack vm))) :: estack vm)))
  | TOALTSTACK =>
      match estack vm with
      | x :: rest => Some (advance (setAstack (setEstack vm rest) (x :: astack vm)))
      | [] => None
      end
  | FROMALTSTACK =>
      match astack vm with
      | x :: rest => Some (advance (setAstack (setEstack vm (x :: estack vm)) rest))
      | [] => None
      end
  | DUPFROMALTSTACK =>
      match astack vm with
      | x :: _ => Some (advance (setEstack vm (x :: estack vm)))
      | [] => None
      end
  | INC => option_map advance (arith1 (fun z => z + 1) vm)
  | DEC => option_map advance (arith1 (fun z => z - 1) vm)
  | ADD => option_map advance (arith Z.add vm)
  | SUB => option_map advance (arith Z.sub vm)
  | MUL => option_map advance (arith Z.mul vm)
  | SHL => option_map advance (shl vm)
  | NEWARRAY => option_map advance (newCompound false vm)
  | NEWSTRUCT => option_map advance (newCompound true vm)
  | NEWMAP =>
      let '(a, vm1) := alloc vm (Map []) in
      Some (advance (setEstack vm1 (Ref a :: estack vm1)))
  | PACK => option_map advance (pack vm)
  | APPEND => option_map advance (append vm)
  | SETITEM => option_map advance (setitem vm)
  | REMOVE => option_map advance (remove vm)
  end.

(** The price of the instruction is added to the gas consumed when a price
    getter is set. *)
Definition charge (env : Env) (i : Instr) (vm : VM) : VM :=
  match getPrice env with
  | Some price => setGas vm (gasConsumed vm + price i)
  | None => vm
  end.

(** Modelled from the spec: "accumulated gas <= configured limit". *)
Definition overLimit (vm : VM) : bool :=
  match gasLimit vm with
  | Some g => g <? gasConsumed vm
  | None => false
  end.

(** Modelled from the spec: one step.  HALT and FAULT are absorbing; the end
    of the script is a RET; the gas bound, the instruction and the stack-size
    bound each turn the VM to FAULT at the instruction, the stacks left as
    they were before it. *)
Definition step (env : Env) (vm : VM) : VM :=
  if terminal (state vm) then vm
  else
    match prog vm !! ip vm with
    | None => setState vm HALT
    | Some i =>
        let vm1 := charge env i (setState vm NONE) in
        if overLimit vm1 then setState vm1 FAULT
        else
          match exec env i vm1 with
          | None => setState vm1 FAULT
          | Some vm2 =>
              if MaxStackSize <? liveSize vm2 then setState vm1 FAULT else vm2
          end
    end.

(** run(): steps until HALT or FAULT, here for at most [fuel] steps. *)
Fixpoint run (env : Env) (fuel : nat) (vm : VM) : VM :=
  match fuel with
  | O => vm
  | S f => if terminal (state vm) then vm else run env f (step env vm)
  end.

(** The steps of a run, one VM after the other. *)
Fixpoint trace (env : Env) (fuel : nat) (vm : VM) : list VM :=
  match fuel with
  | O => []
  | S f => let vm' := step env vm in vm' :: trace env f vm'
  end.

(** An environment without interops and without prices. *)
Definition bareEnv : Env := mkEnv (fun _ => None) None.

(** *** Serialization *)

(** The value of an item that holds no cycle and no interop handle: what
    "deep structural equality" compares. *)
Inductive Tree :=
| TBool (b : bool)
| TInteger (z : Z)
| TByteArray (bs : list Z)
| TArray (l : list Tree)
| TStruct (l : list Tree)
| TMap (m : list (Key * Tree)).

Definition keyTree (k : Key) : Tree :=
  match k with
  | KBool b => TBool b
  | KInteger z => TInteger z
  | KByteArray bs => TByteArray bs
  end.

Definition treeKey (t : Tree) : option Key :=
  match t with
  | TBool b => Some (KBool b)
  | TInteger z => Some (KInteger z)
  | TByteArray bs => Some (KByteArray bs)
  | _ => None
  end.

(** Modelled from the spec: the type tags.  TestSerializeMapCompat fixes the
    tags of byte arrays (0x28) and maps (0x48); the other tags are not in
    the sources at hand, and any values that differ would do. *)
Definition BooleanT : Z := 32.
Definition IntegerT : Z := 33.
Definition ByteArrayT : Z := 40.
Definition ArrayT : Z := 64.
Definition StructT : Z := 65.
Definition MapT : Z := 72.

(** Modelled from the spec: "fixed-little-endian integers, length-prefixed
    byte strings (var-int length)". *)
Fixpoint leBytes (k : nat) (n : Z) : list Z :=
  match k with
  | O => []
  | S k' => (n mod 256) :: leBytes k' (n / 256)
  end.

Fixpoint readLE (k : nat) (bs : list Z) : option (Z * list Z) :=
  match k with
  | O => Some (0, bs)
  | S k' =>
      match bs with
      | [] => None
      | b :: rest =>
          match readLE k' rest with
          | None => None
          | Some (n, rest') => Some (b + 256 * n, rest')
          end
      end
  end.

Definition writeVarUint (n : Z) : list Z :=
  if n <? 253 then [n]
  else if n <=? 65535 then 253 :: leBytes 2 n
  else if n <=? 4294967295 then 254 :: leBytes 4 n
  else 255 :: leBytes 8 n.

Definition readVarUint (bs : list Z) : option (Z * list Z) :=
  match bs with
  | [] => None
  | b :: rest =>
      if b =? 253 then readLE 2 rest
      else if b =? 254 then readLE 4 rest
      else if b =? 255 then readLE 8 rest
      else Some (b, rest)
  end.

Definition writeVarBytes (bs : list Z) : list Z :=
  writeVarUint (Z.of_nat (length bs)) ++ bs.

Definition readVarBytes (bs : list Z) : option (list Z * list Z) :=
  match readVarUint bs with
  | None => None
  | Some (n, rest) =>
      if (n <? 0) || (Z.of_nat (length rest) <? n) then None
      else Some (take (Z.to_nat n) rest, drop (Z.to_nat n) rest)
  end.

Section Nested.
Context {A B : Type}.
Variable f : A -> list B.

(** The outputs of [f] on the elements of a list, one after the other. *)
Fixpoint flatMap (l : list A) : list B :=
  match l with
  | [] => []
  | x :: rest => f x ++ flatMap rest
  end.
End Nested.

(** A key is written as the primitive item it is. *)
Definition encodeKey (k : Key) : list Z :=
  match k with
  | KBool b => [BooleanT; if b then 1 else 0]
  | KInteger z => IntegerT :: writeVarBytes (IntToBytes z)
  | KByteArray bs => ByteArrayT :: writeVarBytes bs
  end.

(** Modelled from the spec: the serialized form of a value: the tag, then the
    value of a primitive or the elements of a compound item behind their
    count, a map as its keys and values in turn. *)
Fixpoint encode (t : Tree) : list Z :=
  match t with
  | TBool b => [BooleanT; if b then 1 else 0]
  | TInteger z => IntegerT :: writeVarBytes (IntToBytes z)
  | TByteArray bs => ByteArrayT :: writeVarBytes bs
  | TArray l => ArrayT :: writeVarUint (Z.of_nat (length l)) ++ flatMap encode l
  | TStruct l => StructT :: writeVarUint (Z.of_nat (length l)) ++ flatMap encode l
  | TMap m =>
      MapT :: writeVarUint (Z.of_nat (length m))
           ++ flatMap (fun e => encodeKey (fst e) ++ encode (snd e)) m
  end.

(** [n] values in a row. *)
Fixpoint decodeMany (dec : list Z -> option (Tree * list Z)) (n : nat) (bs : list Z)
    : option (list Tree * list Z) :=
  match n with
  | O => Some ([], bs)
  | S n' =>
      match dec bs with
      | None => None
      | Some (t, rest) =>
          match decodeMany dec n' rest with
          | None => None
          | Some (ts, rest') => Some (t :: ts, rest')
          end
      end
  end.

(** The elements of a map as they are read: a key, which is a primitive, and
    a value, [n] times. *)
Fixpoint decodePairs (dec : list Z -> option (Tree * list Z)) (n : nat) (bs : list Z)
    : option (list (Key * Tree) * list Z) :=
  match n with
  | O => Some ([], bs)
  | S n' =>
      match dec bs with
      | None => None
      | Some (tk, rest) =>
          match treeKey tk with
          | None => None
          | Some k =>
              match dec rest with
              | None => None
              | Some (tv, rest1) =>
                  match decodePairs dec n' rest1 with
                  | None => None
                  | Some (m, rest2) => Some ((k, tv) :: m, rest2)
                  end
              end
          end
      end
  end.

(** m.Add on values. *)
Fixpoint treeAdd (k : Key) (v : Tree) (m : list (Key * Tree)) : list (Key * Tree) :=
  match m with
  | [] => [(k, v)]
  | (k', v') :: rest =>
      if key_eqb k k' then (k, v) :: rest else (k', v') :: treeAdd k v rest
  end.

Definition treeMap (entries : list (Key * Tree)) : list (Key * Tree) :=
  fold_left (fun m e => treeAdd (fst e) (snd e) m) entries [].

(** A count is good for at most as many elements as there are bytes left. *)
Definition countOk (n : Z) (rest : list Z) : bool :=
  (0 <=? n) && (n <=? Z.of_nat (length rest)).

(** Modelled from the spec: reading a value back; [fuel] bounds the depth. *)
Fixpoint decode (fuel : nat) (bs : list Z) : option (Tree * list Z) :=
  match fuel with
  | O => None
  | S f =>
      match bs with
      | [] => None
      | tag :: rest =>
          if tag =? BooleanT then
            match rest with
            | [] => None
            | b :: rest' => Some (TBool (negb (b =? 0)), rest')
            end
          else if tag =? IntegerT then
            match readVarBytes rest with
            | None => None
            | Some (data, rest') => Some (TInteger (BytesToInt data), rest')
            end
          else if tag =? ByteArrayT then
            match readVarBytes rest with
            | None => None
            | Some (data, rest') => Some (TByteArray data, rest')
            end
          else if (tag =? ArrayT) || (tag =? StructT) then
            match readVarUint rest with
            | None => None
            | Some (n, rest1) =>
                if countOk n rest1 then
                  match decodeMany (decode f) (Z.to_nat n) rest1 with
                  | None => None
                  | Some (ts, rest2) =>
                      Some (if tag =? ArrayT then TArray ts else TStruct ts, rest2)
                  end
                else None
            end
          else if tag =? MapT then
            match readVarUint rest with
            | None => None
            | Some (n, rest1) =>
                if countOk n rest1 then
                  match decodePairs (decode f) (Z.to_nat n) rest1 with
                  | None => None
                  | Some (m, rest2) => Some (TMap (treeMap m), rest2)
                  end
                else None
            end
          else None
      end
  end.

(** DeserializeItem: one value from the front of the bytes. *)
Definition DeserializeItem (bs : list Z) : option Tree :=
  match decode (S (length bs)) bs with
  | Some (t, _) => Some t
  | None => None
  end.

(** The outcome of reading the value of an item off the arena: the value, a
    failure (a cycle, an interop handle, null), or the fuel being spent. *)
Inductive sres (A : Type) :=
| SOk (a : A)
| SFault
| SFuel.
Arguments SOk {A} a.
Arguments SFault {A}.
Arguments SFuel {A}.

Section Values.
Variable f : Item -> sres Tree.

Fixpoint allTrees (l : list Item) : sres (list Tree) :=
  match l with
  | [] => SOk []
  | x :: rest =>
      match f x with
      | SOk t =>
          match allTrees rest with
          | SOk ts => SOk (t :: ts)
          | SFault => SFault
          | SFuel => SFuel
          end
      | SFault => SFault
      | SFuel => SFuel
      end
  end.

Fixpoint allEntries (m : list (Key * Item)) : sres (list (Key * Tree)) :=
  match m with
  | [] => SOk []
  | (k, x) :: rest =>
      match f x with
      | SOk t =>
          match allEntries rest with
          | SOk ts => SOk ((k, t) :: ts)
          | SFault => SFault
          | SFuel => SFuel
          end
      | SFault => SFault
      | SFuel => SFuel
      end
  end.
End Values.

Definition onPath (a : positive) (path : list positive) : bool :=
  existsb (Pos.eqb a) path.

(** Modelled from the spec: "serialization must detect cycles (FAULT on
    attempt)": the compound items that are being written are kept in [path],
    and meeting one of them again is a failure, as is an interop handle. *)
Fixpoint toTree (fuel : nat) (ar : gmap positive Object) (path : list positive)
    (x : Item) : sres Tree :=
  match x with
  | Null | Interop _ => SFault
  | Bool b => SOk (TBool b)
  | Integer z => SOk (TInteger z)
  | ByteArray bs => SOk (TByteArray bs)
  | Ref a =>
      if onPath a path then SFault
      else
        match fuel with
        | O => SFuel
        | S f =>
            match ar !! a with
            | Some (Array l) =>
                match allTrees (toTree f ar (a :: path)) l with
                | SOk ts => SOk (TArray ts)
                | SFault => SFault
                | SFuel => SFuel
                end
            | Some (Struct l) =>
                match allTrees (toTree f ar (a :: path)) l with
                | SOk ts => SOk (TStruct ts)
                | SFault => SFault
                | SFuel => SFuel
                end
            | Some (Map m) =>
                match allEntries (toTree f ar (a :: path)) m with
                | SOk tm => SOk (TMap tm)
                | SFault => SFault
                | SFuel => SFuel
                end
            | _ => SFault
            end
        end
  end.

(** The nesting of distinct compound items is no deeper than the arena has
    objects. *)
Definition valueOf (ar : gmap positive Object) (x : Item) : sres Tree :=
  toTree (S (size ar)) ar [] x.

(** SerializeItem. *)
Definition SerializeItem (ar : gmap positive Object) (x : Item) : option (list Z) :=
  match valueOf ar x with
  | SOk t => Some (encode t)
  | _ => None
  end.

Section Building.
Variable f : Tree -> VM -> Item * VM.

Fixpoint buildAll (l : list Tree) (vm : VM) : list Item * VM :=
  match l with
  | [] => ([], vm)
  | t :: rest =>
      let '(x, vm1) := f t vm in
      let '(xs, vm2) := buildAll rest vm1 in
      (x :: xs, vm2)
  end.

Fixpoint buildEntries (m : list (Key * Tree)) (vm : VM) : list (Key * Item) * VM :=
  match m with
  | [] => ([], vm)
  | (k, t) :: rest =>
      let '(x, vm1) := f t vm in
      let '(xs, vm2) := buildEntries rest vm1 in
      ((k, x) :: xs, vm2)
  end.
End Building.

(** The item of a value, its compound parts new in the arena. *)
Fixpoint build (t : Tree) (vm : VM) : Item * VM :=
  match t with
  | TBool b => (Bool b, vm)
  | TInteger z => (Integer z, vm)
  | TByteArray bs => (ByteArray bs, vm)
  | TArray l =>
      let '(xs, vm1) := buildAll build l vm in
      let '(a, vm2) := alloc vm1 (Array xs) in
      (Ref a, vm2)
  | TStruct l =>
      let '(xs, vm1) := buildAll build l vm in
      let '(a, vm2) := alloc vm1 (Struct xs) in
      (Ref a, vm2)
  | TMap m =>
      let '(xs, vm1) := buildEntries build m vm in
      let '(a, vm2) := alloc vm1 (Map xs) in
      (Ref a, vm2)
  end.

Definition toBytes (x : Item) : option (list Z) :=
  match x with
  | ByteArray bs => Some bs
  | Integer z => Some (IntToBytes z)
  | Bool b => Some (if b then [1] else [])
  | _ => None
  end.

(** Modelled from the spec: Runtime.Serialize: the item on top of the stack
    gives way to its serialized form, a byte array within MaxItemSize. *)
Definition RuntimeSerialize (vm : VM) : option VM :=
  match estack vm with
  | x :: rest =>
      match SerializeItem (arena vm) x with
      | Some bs =>
          if MaxItemSize <? Z.of_nat (length bs) then None
          else Some (setEstack vm (ByteArray bs :: rest))
      | None => None
      end
  | [] => None
  end.

(** Modelled from the spec: Runtime.Deserialize: the bytes on top of the
    stack give way to the item they are the serialized form of. *)
Definition RuntimeDeserialize (vm : VM) : option VM :=
  match estack vm with
  | x :: rest =>
      match toBytes x with
      | Some bs =>
          match DeserializeItem bs with
          | Some t =>
              let '(y, vm1) := build t (setEstack vm rest) in
              Some (setEstack vm1 (y :: rest))
          | None => None
          end
      | None => None
      end
  | [] => None
  end.

(** *** Iterators *)

Fixpoint indexed (i : Z) (l : list Item) : list (Item * Item) :=
  match l with
  | [] => []
  | x :: rest => (Integer i, x) :: indexed (i + 1) rest
  end.

(** Neo.Iterator.Create and Neo.Enumerator.Create: an iterator over the
    elements of an array with their indices, or over the elements of a map
    with their keys, in the order the map holds them. *)
Definition IteratorCreate (vm : VM) : option VM :=
  match estack vm with
  | Ref a :: rest =>
      let entries :=
        match arena vm !! a with
        | Some (Array l) | Some (Struct l) => Some (indexed 0 l)
        | Some (Map m) => Some (List.map (fun e => (keyItem (fst e), snd e)) m)
        | _ => None
        end in
      match entries with
      | Some es =>
          let '(a', vm1) := alloc (setEstack vm rest) (Iterator es 0) in
          Some (setEstack vm1 (Interop a' :: rest))
      | None => None
      end
  | _ => None
  end.

(** Neo.Iterator.Values and Neo.Iterator.Keys: an enumerator of the values,
    or of the keys, from where the iterator stands. *)
Definition IteratorProject (keys : bool) (vm : VM) : option VM :=
  match estack vm with
  | Interop a :: rest =>
      match arena vm !! a with
      | Some (Iterator es pos) =>
          let es' := if keys then List.map (fun e => (fst e, fst e)) es else es in
          let '(a', vm1) := alloc (setEstack vm rest) (Iterator es' pos) in
          Some (setEstack vm1 (Interop a' :: rest))
      | _ => None
      end
  | _ => None
  end.

(** Neo.Enumerator.Next: moves on and tells whether there was an element. *)
Definition EnumeratorNext (vm : VM) : option VM :=
  match estack vm with
  | Interop a :: rest =>
      match arena vm !! a with
      | Some (Iterator es pos) =>
          if (pos <? length es)%nat
          then Some (setObject (setEstack vm (Bool true :: rest)) a (Iterator es (S pos)))
          else Some (setEstack vm (Bool false :: rest))
      | _ => None
      end
  | _ => None
  end.

(** Neo.Enumerator.Value and Neo.Iterator.Key: the element the iterator
    stands at. *)
Definition IteratorCurrent (key : bool) (vm : VM) : option VM :=
  match estack vm with
  | Interop a :: rest =>
      match arena vm !! a with
      | Some (Iterator es pos) =>
          match pos with
          | O => None
          | S p =>
              match es !! p with
              | Some (k, v) => Some (setEstack vm ((if key then k else v) :: rest))
              | None => None
              end
          end
      | _ => None
      end
  | _ => None
  end.

(** Modelled from the spec: the interops the VM comes with. *)
Definition defaultInterops (name : string) : option (VM -> option VM) :=
  if String.eqb name "Neo.Runtime.Serialize" then Some RuntimeSerialize
  else if String.eqb name "Neo.Runtime.Deserialize" then Some RuntimeDeserialize
  else if String.eqb name "Neo.Iterator.Create" then Some IteratorCreate
  else if String.eqb name "Neo.Enumerator.Create" then Some IteratorCreate
  else if String.eqb name "Neo.Iterator.Values" then Some (IteratorProject false)
  else if String.eqb name "Neo.Iterator.Keys" then Some (IteratorProject true)
  else if String.eqb name "Neo.Enumerator.Next" then Some EnumeratorNext
  else if String.eqb name "Neo.Enumerator.Value" then Some (IteratorCurrent false)
  else if String.eqb name "Neo.Iterator.Key" then Some (IteratorCurrent true)
  else None.

(** New(): the default interops, no price getter. *)
Definition defaultEnv : Env := mkEnv defaultInterops None.

(** RegisterInteropGetter: a getter that is asked after the ones before. *)
Definition RegisterInteropGetter (env : Env)
    (getter : string -> option (VM -> option VM)) : Env :=
  mkEnv (fun name => match getInterop env name with
                     | Some h => Some h
                     | None => getter name
                     end)
        (getPrice env).

Definition SetPriceGetter (env : Env) (price : Instr -> Z) : Env :=
  mkEnv (getInterop env) (Some price).

(** *** Values of items, cycles *)

(** [Denotes ar x t]: in the arena [ar] the item [x] has the value [t]; an
    item has a value when no interop handle, null or cycle is met from it. *)
Inductive Denotes (ar : gmap positive Object) : Item -> Tree -> Prop :=
| DenBool b : Denotes ar (Bool b) (TBool b)
| DenInteger z : Denotes ar (Integer z) (TInteger z)
| DenByteArray bs : Denotes ar (ByteArray bs) (TByteArray bs)
| DenArray a l ts :
    ar !! a = Some (Array l) -> DenotesAll ar l ts -> Denotes ar (Ref a) (TArray ts)
| DenStruct a l ts :
    ar !! a = Some (Struct l) -> DenotesAll ar l ts -> Denotes ar (Ref a) (TStruct ts)
| DenMap a m tm :
    ar !! a = Some (Map m) -> DenotesEntries ar m tm -> Denotes ar (Ref a) (TMap tm)
with DenotesAll (ar : gmap positive Object) : list Item -> list Tree -> Prop :=
| DenNil : DenotesAll ar [] []
| DenCons x t xs ts :
    Denotes ar x t -> DenotesAll ar xs ts -> DenotesAll ar (x :: xs) (t :: ts)
with DenotesEntries (ar : gmap positive Object)
  : list (Key * Item) -> list (Key * Tree) -> Prop :=
| DenENil : DenotesEntries ar [] []
| DenECons k x t m tm :
    Denotes ar x t -> DenotesEntries ar m tm ->
    DenotesEntries ar ((k, x) :: m) ((k, t) :: tm).

Scheme Denotes_mut := Minimality for Denotes Sort Prop
  with DenotesAll_mut := Minimality for DenotesAll Sort Prop
  with DenotesEntries_mut := Minimality for DenotesEntries Sort Prop.
Combined Scheme Denotes_mutind from Denotes_mut, DenotesAll_mut, DenotesEntries_mut.

(** [b] is held by the compound item [a]. *)
Definition edge (ar : gmap positive Object) (a b : positive) : Prop :=
  exists o, ar !! a = Some o /\ In (Ref b) (children o).

(** A cyclic item: a compound item from which a compound item is reached
    that holds itself, immediately or through others. *)
Definition Cyclic (ar : gmap positive Object) (x : Item) : Prop :=
  exists a b, x = Ref a /\ rtc (edge ar) a b /\ tc (edge ar) b b.

(** The keys of every map of a value are distinct. *)
Fixpoint uniqueKeys (ks : list Key) : bool :=
  match ks with
  | [] => true
  | k :: rest => negb (existsb (key_eqb k) rest) && uniqueKeys rest
  end.

Fixpoint wfTree (t : Tree) : bool :=
  match t with
  | TBool _ | TInteger _ | TByteArray _ => true
  | TArray l | TStruct l => forallb wfTree l
  | TMap m => uniqueKeys (List.map fst m) && forallb (fun e => wfTree (snd e)) m
  end.

(** The handles in use lie below the next free one. *)
Definition wfArena (vm : VM) : Prop :=
  forall a o, arena vm !! a = Some o -> (a < next vm)%positive.

Fixpoint tsize (t : Tree) : nat :=
  match t with
  | TBool _ | TInteger _ | TByteArray _ => 1
  | TArray l | TStruct l => S (list_sum (List.map tsize l))
  | TMap m => S (list_sum (List.map (fun e => tsize (snd e)) m))
  end.

Fixpoint tdepth (t : Tree) : nat :=
  match t with
  | TBool _ | TInteger _ | TByteArray _ => 1
  | TArray l | TStruct l => S (list_max (List.map tdepth l))
  | TMap m => S (list_max (List.map (fun e => tdepth (snd e)) m))
  end.

(** *** Facts: the integer cap *)

(** The opcodes of two integer operands that the cap is claimed for. *)
Definition opZ (i : Instr) : option (Z -> Z -> Z) :=
  match i with
  | ADD => Some Z.add
  | SUB => Some Z.sub
  | MUL => Some Z.mul
  | SHL => Some Z.shiftl
  | _ => None
  end.

Lemma bitLen_nonneg (z : Z) : 0 <= bitLen z.
Proof.
  unfold bitLen. destruct (z =? 0); [lia|].
  pose proof (Z.log2_nonneg (Z.abs z)). lia.
Qed.

(** The cap in terms of magnitude: at most [n] bits is below [2^n]. *)
Lemma bitLen_le_iff (z n : Z) : 0 <= n -> (bitLen z <= n <-> Z.abs z < 2 ^ n).
Proof.
  intros Hn. unfold bitLen.
  destruct (z =? 0) eqn:Hz.
  - apply Z.eqb_eq in Hz. subst z. simpl.
    split; intros _; [apply Z.pow_pos_nonneg; lia | lia].
  - apply Z.eqb_neq in Hz.
    assert (Hpos : 0 < Z.abs z) by lia.
    split; intros H.
    + apply Z.log2_lt_pow2; [exact Hpos | lia].
    + apply Z.log2_lt_pow2 in H; [lia | exact Hpos].
Qed.

Lemma checkBigIntSize_true (z : Z) :
  checkBigIntSize z = true <-> bitLen z <= MaxBigIntegerSizeBits.
Proof. unfold checkBigIntSize. apply Z.leb_le. Qed.

Lemma checkBigIntSize_false (z : Z) :
  checkBigIntSize z = false <-> MaxBigIntegerSizeBits < bitLen z.
Proof. unfold checkBigIntSize. apply Z.leb_gt. Qed.

Lemma exec_same_stacks (env : Env) (i : Instr) (vm : VM) (g : Z) (s : State) :
  opZ i <> None ->
  exec env i (setGas (setState vm s) g) = None <-> exec env i vm = None.
Proof.
  intros Hop.
  destruct i; simpl in Hop; try congruence; simpl;
    unfold arith, shl; simpl;
    destruct (estack vm) as [|y [|x rest]]; simpl; try tauto;
    destruct (toBigInt x), (toBigInt y); simpl; try tauto;
    repeat match goal with
           | |- context [if ?c then _ else _] => destruct c; simpl
           end; split; intros H; congruence.
Qed.

(** Over the cap the instruction fails. *)
Lemma exec_over_cap (env : Env) (i : Instr) (f : Z -> Z -> Z) (vm : VM)
    (a b : Z) (rest : list Item) :
  opZ i = Some f ->
  estack vm = Integer b :: Integer a :: rest ->
  MaxBigIntegerSizeBits < bitLen a \/ MaxBigIntegerSizeBits < bitLen b
    \/ MaxBigIntegerSizeBits < bitLen (f a b) ->
  exec env i vm = None.
Proof.
  intros Hop Hst Hover.
  assert (Hcases : checkBigIntSize a = false \/ checkBigIntSize b = false
                   \/ checkBigIntSize (f a b) = false).
  { rewrite !checkBigIntSize_false. exact Hover. }
  destruct i; simpl in Hop; try discriminate; injection Hop as <-; simpl;
    unfold arith, shl; rewrite Hst; simpl;
    destruct (checkBigIntSize a) eqn:Ha; simpl; try reflexivity;
    destruct (checkBigIntSize b) eqn:Hb; simpl; try reflexivity.
  1-3: destruct Hcases as [H|[H|H]]; try congruence; rewrite H; reflexivity.
  destruct (b =? 0) eqn:Hb0.
  - apply Z.eqb_eq in Hb0. subst b. rewrite Z.shiftl_0_r in Hcases.
    destruct Hcases as [H|[H|H]]; congruence.
  - destruct Hcases as [H|[H|H]]; try congruence. rewrite H. reflexivity.
Qed.

(** Within the cap the instruction leaves the exact result. *)
Lemma exec_within_cap (env : Env) (i : Instr) (f : Z -> Z -> Z) (vm : VM)
    (a b : Z) (rest : list Item) :
  opZ i = Some f ->
  estack vm = Integer b :: Integer a :: rest ->
  bitLen a <= MaxBigIntegerSizeBits ->
  bitLen b <= MaxBigIntegerSizeBits ->
  bitLen (f a b) <= MaxBigIntegerSizeBits ->
  exec env i vm = Some (advance (setEstack vm (Integer (f a b) :: rest))).
Proof.
  intros Hop Hst Ha Hb Hr.
  apply checkBigIntSize_true in Ha, Hb, Hr.
  destruct i; simpl in Hop; try discriminate; injection Hop as <-; simpl;
    unfold arith, shl; rewrite Hst; simpl; rewrite Ha, Hb; simpl.
  1-3: rewrite Hr; reflexivity.
  destruct (b =? 0) eqn:Hb0.
  - apply Z.eqb_eq in Hb0. subst b. rewrite Z.shiftl_0_r. reflexivity.
  - rewrite Hr. reflexivity.
Qed.

(** A failing instruction is a FAULT of the step. *)
Lemma step_exec_none (env : Env) (i : Instr) (vm : VM) :
  terminal (state vm) = false ->
  prog vm !! ip vm = Some i ->
  exec env i (charge env i (setState vm NONE)) = None ->
  state (step env vm) = FAULT.
Proof.
  intros Hterm Hi Hex. unfold step. rewrite Hterm, Hi. cbv zeta.
  destruct (overLimit _); [reflexivity|].
  rewrite Hex. reflexivity.
Qed.

(** C9. ADD, SUB, MUL and SHL on integers: when an operand or the exact
    result has more than MaxBigIntegerSizeBits bits the instruction fails,
    which is a FAULT of the VM at that step; when both operands and the
    result are within the cap (magnitude below 2^256) the result is the
    exact one.  INC of 2^256 - 2 succeeds, INC of 2^256 - 1 fails. *)
Theorem arith_integer_cap (env : Env) (i : Instr) (f : Z -> Z -> Z) (vm : VM)
    (a b : Z) (rest : list Item) :
  opZ i = Some f ->
  estack vm = Integer b :: Integer a :: rest ->
  (MaxBigIntegerSizeBits < bitLen a \/ MaxBigIntegerSizeBits < bitLen b
     \/ MaxBigIntegerSizeBits < bitLen (f a b) ->
   exec env i vm = None /\
   (terminal (state vm) = false -> prog vm !! ip vm = Some i ->
    state (step env vm) = FAULT)) /\
  (Z.abs a < 2 ^ MaxBigIntegerSizeBits -> Z.abs b < 2 ^ MaxBigIntegerSizeBits ->
   Z.abs (f a b) < 2 ^ MaxBigIntegerSizeBits ->
   exec env i vm = Some (advance (setEstack vm (Integer (f a b) :: rest)))) /\
  exec env INC (setEstack vm [Integer (2 ^ MaxBigIntegerSizeBits - 2)])
    = Some (advance (setEstack vm [Integer (2 ^ MaxBigIntegerSizeBits - 1)])) /\
  exec env INC (setEstack vm [Integer (2 ^ MaxBigIntegerSizeBits - 1)]) = None.
Proof.
  intros Hop Hst. split; [|split; [|split]].
  - intros Hover. split.
    + eapply exec_over_cap; eassumption.
    + intros Hterm Hi. eapply step_exec_none; try eassumption.
      unfold charge. destruct (getPrice env).
      * apply exec_same_stacks; [congruence|]. eapply exec_over_cap; eassumption.
      * eapply exec_over_cap; try eassumption.
  - intros Ha Hb Hr.
    eapply exec_within_cap; try eassumption;
      apply bitLen_le_iff; unfold MaxBigIntegerSizeBits; try lia; assumption.
  - reflexivity.
  - reflexivity.
Qed.

(** *** Facts: the stack-size cap *)




Lemma charge_keeps (env : Env) (i : Instr) (vm : VM) :
  ip (charge env i vm) = ip vm /\ estack (charge env i vm) = estack vm /\
  astack (charge env i vm) = astack vm /\ arena (charge env i vm) = arena vm /\
  prog (charge env i vm) = prog vm.
Proof. unfold charge. destruct (getPrice env); repeat split. Qed.




(** *** Facts: determinism *)

Lemma step_terminal (env : Env) (vm : VM) :
  terminal (state vm) = true -> step env vm = vm.
Proof. intros H. unfold step. rewrite H. reflexivity. Qed.











(** *** Facts: integers and lengths as bytes *)

Lemma encInt_nonempty (fuel : nat) (z : Z) : encInt fuel z <> [].
Proof.
  destruct fuel; simpl; [discriminate|].
  destruct ((-128 <=? z) && (z <? 128)); discriminate.
Qed.

Lemma BytesToInt_cons (b : Z) (rest : list Z) :
  rest <> [] -> BytesToInt (b :: rest) = b + 256 * BytesToInt rest.
Proof. intros H. destruct rest; [congruence|reflexivity]. Qed.

Lemma BytesToInt_single (z : Z) :
  -128 <= z < 128 -> BytesToInt [z mod 256] = z.
Proof.
  intros Hz. simpl.
  destruct (Z_lt_le_dec z 0) as [Hneg|Hpos].
  - assert (Hm : z mod 256 = z + 256).
    { symmetry. apply (Z.mod_unique_pos _ _ (-1)); lia. }
    rewrite Hm. destruct (z + 256 <? 128) eqn:Hcmp; [apply Z.ltb_lt in Hcmp|]; lia.
  - rewrite Z.mod_small by lia.
    destruct (z <? 128) eqn:Hcmp; [reflexivity|apply Z.ltb_ge in Hcmp; lia].
Qed.

Lemma BytesToInt_encInt (fuel : nat) (z : Z) :
  -128 * 256 ^ Z.of_nat fuel <= z < 128 * 256 ^ Z.of_nat fuel ->
  BytesToInt (encInt fuel z) = z.
Proof.
  revert z. induction fuel as [|fuel IH]; intros z Hz.
  - simpl encInt. apply BytesToInt_single. simpl in Hz. lia.
  - simpl encInt.
    destruct ((-128 <=? z) && (z <? 128)) eqn:Hsmall.
    + apply BytesToInt_single.
      apply andb_true_iff in Hsmall as [H1 H2].
      apply Z.leb_le in H1. apply Z.ltb_lt in H2. lia.
    + rewrite BytesToInt_cons by apply encInt_nonempty.
      rewrite IH.
      * pose proof (Z.div_mod z 256 ltac:(lia)). lia.
      * rewrite Nat2Z.inj_succ, Z.pow_succ_r in Hz by lia.
        split.
        -- apply Z.div_le_lower_bound; lia.
        -- apply Z.div_lt_upper_bound; lia.
Qed.

Lemma BytesToInt_IntToBytes (z : Z) : BytesToInt (IntToBytes z) = z.
Proof.
  unfold IntToBytes. destruct (z =? 0) eqn:Hz.
  - apply Z.eqb_eq in Hz. subst z. reflexivity.
  - apply Z.eqb_neq in Hz.
    apply BytesToInt_encInt.
    set (L := Z.log2 (Z.abs z)).
    assert (HL : 0 <= L) by apply Z.log2_nonneg.
    rewrite Z2Nat.id by exact HL.
    assert (Habs : Z.abs z < 2 ^ (L + 1)).
    { pose proof (Z.log2_spec (Z.abs z) ltac:(lia)) as [_ H].
      unfold L. replace (Z.log2 (Z.abs z) + 1) with (Z.succ (Z.log2 (Z.abs z))) by lia.
      exact H. }
    assert (Hpow : 2 ^ (L + 1) <= 128 * 256 ^ L).
    { replace 128 with (2 ^ 7) by reflexivity.
      replace 256 with (2 ^ 8) by reflexivity.
      rewrite <- Z.pow_mul_r, <- Z.pow_add_r by lia.
      apply Z.pow_le_mono_r; lia. }
    lia.
Qed.

Lemma readLE_leBytes (k : nat) (n : Z) (rest : list Z) :
  0 <= n < 256 ^ Z.of_nat k ->
  readLE k (leBytes k n ++ rest) = Some (n, rest).
Proof.
  revert n. induction k as [|k IH]; intros n Hn.
  - simpl in *. replace n with 0 by lia. reflexivity.
  - simpl leBytes. simpl readLE. rewrite IH.
    + pose proof (Z.div_mod n 256 ltac:(lia)). f_equal. f_equal. lia.
    + rewrite Nat2Z.inj_succ, Z.pow_succ_r in Hn by lia.
      split; [apply Z.div_pos; lia | apply Z.div_lt_upper_bound; lia].
Qed.

Lemma readVarUint_write (n : Z) (rest : list Z) :
  0 <= n < 2 ^ 64 ->
  readVarUint (writeVarUint n ++ rest) = Some (n, rest).
Proof.
  intros Hn. unfold writeVarUint.
  destruct (n <? 253) eqn:H1.
  - apply Z.ltb_lt in H1. simpl.
    destruct (n =? 253) eqn:E1; [apply Z.eqb_eq in E1; lia|].
    destruct (n =? 254) eqn:E2; [apply Z.eqb_eq in E2; lia|].
    destruct (n =? 255) eqn:E3; [apply Z.eqb_eq in E3; lia|].
    reflexivity.
  - apply Z.ltb_ge in H1.
    destruct (n <=? 65535) eqn:H2.
    + apply Z.leb_le in H2.
      change (readVarUint ((253 :: leBytes 2 n) ++ rest))
        with (readLE 2 (leBytes 2 n ++ rest)).
      apply readLE_leBytes. simpl. lia.
    + apply Z.leb_gt in H2.
      destruct (n <=? 4294967295) eqn:H3.
      * apply Z.leb_le in H3.
        change (readVarUint ((254 :: leBytes 4 n) ++ rest))
          with (readLE 4 (leBytes 4 n ++ rest)).
        apply readLE_leBytes. simpl. lia.
      * change (readVarUint ((255 :: leBytes 8 n) ++ rest))
          with (readLE 8 (leBytes 8 n ++ rest)).
        apply readLE_leBytes. simpl. lia.
Qed.

Lemma readVarBytes_write (bs rest : list Z) :
  Z.of_nat (length bs) < 2 ^ 64 ->
  readVarBytes (writeVarBytes bs ++ rest) = Some (bs, rest).
Proof.
  intros Hlen. unfold readVarBytes, writeVarBytes.
  rewrite <- app_assoc, readVarUint_write by lia.
  rewrite length_app.
  destruct ((Z.of_nat (length bs) <? 0) || (Z.of_nat (length bs + length rest) <? Z.of_nat (length bs)))
    eqn:Hbad.
  - apply orb_true_iff in Hbad as [H|H]; apply Z.ltb_lt in H; lia.
  - rewrite Nat2Z.id. rewrite take_app_length, drop_app_length. reflexivity.
Qed.

(** *** Facts: values and their serialized form *)

Section TreeInduction.
Variable P : Tree -> Prop.
Hypothesis Hbool : forall b, P (TBool b).
Hypothesis Hint : forall z, P (TInteger z).
Hypothesis Hbytes : forall bs, P (TByteArray bs).
Hypothesis Harray : forall l, Forall P l -> P (TArray l).
Hypothesis Hstruct : forall l, Forall P l -> P (TStruct l).
Hypothesis Hmap : forall m, Forall (fun e => P (snd e)) m -> P (TMap m).

(** Induction on values, with the hypothesis for every element. *)
Fixpoint Tree_nested_ind (t : Tree) : P t :=
  match t with
  | TBool b => Hbool b
  | TInteger z => Hint z
  | TByteArray bs => Hbytes bs
  | TArray l =>
      Harray l ((fix go (l : list Tree) : Forall P l :=
                   match l with
                   | [] => @List.Forall_nil _ P
                   | x :: rest => @List.Forall_cons _ P x rest (Tree_nested_ind x) (go rest)
                   end) l)
  | TStruct l =>
      Hstruct l ((fix go (l : list Tree) : Forall P l :=
                    match l with
                    | [] => @List.Forall_nil _ P
                    | x :: rest => @List.Forall_cons _ P x rest (Tree_nested_ind x) (go rest)
                    end) l)
  | TMap m =>
      Hmap m ((fix go (m : list (Key * Tree)) : Forall (fun e => P (snd e)) m :=
                 match m with
                 | [] => @List.Forall_nil _ _
                 | e :: rest =>
                     @List.Forall_cons _ (fun e => P (snd e)) e rest
                                 (Tree_nested_ind (snd e)) (go rest)
                 end) m)
  end.
End TreeInduction.

Lemma bytes_eqb_eq (a b : list Z) : bytes_eqb a b = true <-> a = b.
Proof.
  revert b. induction a as [|x a IH]; intros [|y b]; simpl; try (split; congruence).
  rewrite andb_true_iff, Z.eqb_eq, IH. split; [intros [-> ->]; reflexivity|].
  intros H. injection H as -> ->. split; reflexivity.
Qed.

Lemma key_eqb_eq (a b : Key) : key_eqb a b = true <-> a = b.
Proof.
  destruct a, b; simpl; try (split; congruence).
  - rewrite eqb_true_iff. split; congruence.
  - rewrite Z.eqb_eq. split; congruence.
  - rewrite bytes_eqb_eq. split; congruence.
Qed.

Lemma key_eqb_sym (a b : Key) : key_eqb a b = key_eqb b a.
Proof.
  destruct (key_eqb a b) eqn:H1, (key_eqb b a) eqn:H2; try reflexivity.
  - apply key_eqb_eq in H1. subst. rewrite (proj2 (key_eqb_eq b b) eq_refl) in H2.
    discriminate.
  - apply key_eqb_eq in H2. subst. rewrite (proj2 (key_eqb_eq a a) eq_refl) in H1.
    discriminate.
Qed.

Lemma encodeKey_keyTree (k : Key) : encodeKey k = encode (keyTree k).
Proof. destruct k; reflexivity. Qed.

Lemma treeKey_keyTree (k : Key) : treeKey (keyTree k) = Some k.
Proof. destruct k; reflexivity. Qed.

Lemma encode_nonempty (t : Tree) : (1 <= length (encode t))%nat.
Proof. destruct t; simpl; lia. Qed.

Lemma encodeKey_nonempty (k : Key) : (1 <= length (encodeKey k))%nat.
Proof. rewrite encodeKey_keyTree. apply encode_nonempty. Qed.

Lemma flatMap_length_ge {A : Type} (f : A -> list Z) (l : list A) :
  (forall x, (1 <= length (f x))%nat) -> (length l <= length (flatMap f l))%nat.
Proof.
  intros Hf. induction l as [|x l IH]; simpl; [lia|].
  rewrite length_app. specialize (Hf x). lia.
Qed.

Lemma flatMap_app_assoc {A : Type} (f : A -> list Z) (x : A) (l : list A) (rest : list Z) :
  flatMap f (x :: l) ++ rest = f x ++ (flatMap f l ++ rest).
Proof. simpl. rewrite <- app_assoc. reflexivity. Qed.

(** Adding a key that is not there puts it at the end. *)
Lemma treeAdd_fresh (k : Key) (v : Tree) (m : list (Key * Tree)) :
  existsb (key_eqb k) (List.map fst m) = false ->
  treeAdd k v m = m ++ [(k, v)].
Proof.
  induction m as [|[k' v'] m IH]; simpl; [reflexivity|].
  intros H. apply orb_false_iff in H as [H1 H2].
  rewrite H1, IH by exact H2. reflexivity.
Qed.

Lemma treeMap_unique_acc (m acc : list (Key * Tree)) :
  uniqueKeys (List.map fst (acc ++ m)) = true ->
  fold_left (fun m e => treeAdd (fst e) (snd e) m) m acc = acc ++ m.
Proof.
  revert acc. induction m as [|[k v] m IH]; intros acc Huniq; simpl.
  - rewrite app_nil_r. reflexivity.
  - assert (Hfresh : existsb (key_eqb k) (List.map fst acc) = false).
    { clear IH. induction acc as [|[k0 v0] acc IHacc]; simpl in *; [reflexivity|].
      apply andb_true_iff in Huniq as [Hk0 Hrest].
      apply negb_true_iff in Hk0.
      rewrite List.map_app, existsb_app in Hk0. simpl in Hk0.
      apply orb_false_iff in Hk0 as [_ Hk0].
      apply orb_false_iff in Hk0 as [Hk0 _].
      rewrite key_eqb_sym, Hk0. simpl. apply IHacc, Hrest. }
    rewrite treeAdd_fresh by exact Hfresh.
    rewrite IH.
    + rewrite <- app_assoc. reflexivity.
    + rewrite <- app_assoc. exact Huniq.
Qed.

Lemma treeMap_unique (m : list (Key * Tree)) :
  uniqueKeys (List.map fst m) = true -> treeMap m = m.
Proof. intros H. unfold treeMap. apply (treeMap_unique_acc m []). exact H. Qed.

Lemma decode_bool (f : nat) (b : Z) (rest : list Z) :
  decode (S f) (BooleanT :: b :: rest) = Some (TBool (negb (b =? 0)), rest).
Proof. reflexivity. Qed.

Lemma decode_integer (f : nat) (rest : list Z) :
  decode (S f) (IntegerT :: rest)
  = match readVarBytes rest with
    | None => None
    | Some (data, rest') => Some (TInteger (BytesToInt data), rest')
    end.
Proof. reflexivity. Qed.

Lemma decode_bytes (f : nat) (rest : list Z) :
  decode (S f) (ByteArrayT :: rest)
  = match readVarBytes rest with
    | None => None
    | Some (data, rest') => Some (TByteArray data, rest')
    end.
Proof. reflexivity. Qed.

Lemma decode_array (f : nat) (rest : list Z) :
  decode (S f) (ArrayT :: rest)
  = match readVarUint rest with
    | None => None
    | Some (n, rest1) =>
        if countOk n rest1 then
          match decodeMany (decode f) (Z.to_nat n) rest1 with
          | None => None
          | Some (ts, rest2) => Some (TArray ts, rest2)
          end
        else None
    end.
Proof. reflexivity. Qed.

Lemma decode_struct (f : nat) (rest : list Z) :
  decode (S f) (StructT :: rest)
  = match readVarUint rest with
    | None => None
    | Some (n, rest1) =>
        if countOk n rest1 then
          match decodeMany (decode f) (Z.to_nat n) rest1 with
          | None => None
          | Some (ts, rest2) => Some (TStruct ts, rest2)
          end
        else None
    end.
Proof. reflexivity. Qed.

Lemma decode_map (f : nat) (rest : list Z) :
  decode (S f) (MapT :: rest)
  = match readVarUint rest with
    | None => None
    | Some (n, rest1) =>
        if countOk n rest1 then
          match decodePairs (decode f) (Z.to_nat n) rest1 with
          | None => None
          | Some (m, rest2) => Some (TMap (treeMap m), rest2)
          end
        else None
    end.
Proof. reflexivity. Qed.

(** A value is read back from its serialized form, whatever follows it. *)
Definition decodes (t : Tree) : Prop :=
  forall fuel rest,
    (tdepth t <= fuel)%nat ->
    Z.of_nat (length (encode t)) < 2 ^ 64 ->
    wfTree t = true ->
    decode fuel (encode t ++ rest) = Some (t, rest).

Lemma writeVarUint_length (n : Z) : (1 <= length (writeVarUint n))%nat.
Proof.
  unfold writeVarUint.
  destruct (n <? 253); [simpl; lia|].
  destruct (n <=? 65535); [simpl; lia|].
  destruct (n <=? 4294967295); simpl; lia.
Qed.

Lemma decodes_bool (b : bool) : decodes (TBool b).
Proof.
  intros fuel rest Hfuel _ _. destruct fuel as [|f]; [simpl in Hfuel; lia|].
  simpl encode. simpl app. rewrite decode_bool. destruct b; reflexivity.
Qed.

Lemma decodes_integer (z : Z) : decodes (TInteger z).
Proof.
  intros fuel rest Hfuel Hlen _. destruct fuel as [|f]; [simpl in Hfuel; lia|].
  simpl encode in *. rewrite <- app_comm_cons, decode_integer.
  rewrite readVarBytes_write, BytesToInt_IntToBytes; [reflexivity|].
  simpl length in Hlen. unfold writeVarBytes in Hlen. rewrite length_app in Hlen. lia.
Qed.

Lemma decodes_bytes (bs : list Z) : decodes (TByteArray bs).
Proof.
  intros fuel rest Hfuel Hlen _. destruct fuel as [|f]; [simpl in Hfuel; lia|].
  simpl encode in *. rewrite <- app_comm_cons, decode_bytes.
  rewrite readVarBytes_write; [reflexivity|].
  simpl length in Hlen. unfold writeVarBytes in Hlen. rewrite length_app in Hlen. lia.
Qed.

Lemma decodes_key (k : Key) : decodes (keyTree k).
Proof. destruct k; [apply decodes_bool | apply decodes_integer | apply decodes_bytes]. Qed.

Lemma tdepth_pos (t : Tree) : (1 <= tdepth t)%nat.
Proof. destruct t; simpl; lia. Qed.

Lemma decodeMany_encode (f : nat) (l : list Tree) (rest : list Z) :
  Forall decodes l ->
  (list_max (List.map tdepth l) <= f)%nat ->
  Z.of_nat (length (flatMap encode l)) < 2 ^ 64 ->
  forallb wfTree l = true ->
  decodeMany (decode f) (length l) (flatMap encode l ++ rest) = Some (l, rest).
Proof.
  induction 1 as [|t l Ht Hl IH]; intros Hdepth Hlen Hwf; [reflexivity|].
  simpl in Hdepth, Hwf. apply andb_true_iff in Hwf as [Hwt Hwl].
  simpl flatMap in Hlen. rewrite length_app in Hlen.
  rewrite flatMap_app_assoc. simpl length. simpl decodeMany.
  rewrite Ht; [|lia|lia|exact Hwt].
  rewrite IH; [reflexivity|lia|lia|exact Hwl].
Qed.

Lemma decodePairs_encode (f : nat) (m : list (Key * Tree)) (rest : list Z) :
  Forall (fun e => decodes (snd e)) m ->
  (list_max (List.map (fun e => tdepth (snd e)) m) <= f)%nat ->
  Z.of_nat (length (flatMap (fun e => encodeKey (fst e) ++ encode (snd e)) m)) < 2 ^ 64 ->
  forallb (fun e => wfTree (snd e)) m = true ->
  decodePairs (decode f) (length m)
    (flatMap (fun e => encodeKey (fst e) ++ encode (snd e)) m ++ rest)
  = Some (m, rest).
Proof.
  induction 1 as [|[k t] m Ht Hm IH]; intros Hdepth Hlen Hwf; [reflexivity|].
  simpl in Hdepth, Hwf, Ht. apply andb_true_iff in Hwf as [Hwt Hwm].
  simpl flatMap in Hlen. rewrite !length_app in Hlen.
  rewrite flatMap_app_assoc. simpl fst. simpl snd. rewrite <- app_assoc.
  simpl length. simpl decodePairs.
  pose proof (tdepth_pos t) as Hpos.
  rewrite encodeKey_keyTree.
  rewrite (decodes_key k f).
  - rewrite treeKey_keyTree. rewrite Ht; [|lia|lia|exact Hwt].
    rewrite IH; [reflexivity|lia|lia|exact Hwm].
  - destruct k; simpl; lia.
  - rewrite <- encodeKey_keyTree. lia.
  - destruct k; reflexivity.
Qed.

Lemma countOk_flat {A : Type} (g : A -> list Z) (l : list A) (rest : list Z) :
  (forall x, (1 <= length (g x))%nat) ->
  countOk (Z.of_nat (length l)) (flatMap g l ++ rest) = true.
Proof.
  intros Hg. unfold countOk. apply andb_true_iff. split.
  - apply Z.leb_le. lia.
  - apply Z.leb_le. rewrite length_app.
    pose proof (flatMap_length_ge g l Hg). lia.
Qed.

(** Reading back what was written gives the value that was written. *)
Lemma decode_encode (t : Tree) : decodes t.
Proof.
  induction t as [b|z|bs|l IH|l IH|m IH] using Tree_nested_ind.
  - apply decodes_bool.
  - apply decodes_integer.
  - apply decodes_bytes.
  - intros fuel rest Hfuel Hlen Hwf. destruct fuel as [|f]; [simpl in Hfuel; lia|].
    simpl in Hfuel, Hwf. simpl encode in *.
    simpl length in Hlen. rewrite length_app in Hlen.
    pose proof (flatMap_length_ge encode l encode_nonempty) as Hcount.
    rewrite <- app_comm_cons, <- app_assoc, decode_array.
    rewrite readVarUint_write by lia.
    rewrite countOk_flat by apply encode_nonempty.
    rewrite Nat2Z.id, decodeMany_encode; [reflexivity|exact IH|lia|lia|exact Hwf].
  - intros fuel rest Hfuel Hlen Hwf. destruct fuel as [|f]; [simpl in Hfuel; lia|].
    simpl in Hfuel, Hwf. simpl encode in *.
    simpl length in Hlen. rewrite length_app in Hlen.
    pose proof (flatMap_length_ge encode l encode_nonempty) as Hcount.
    rewrite <- app_comm_cons, <- app_assoc, decode_struct.
    rewrite readVarUint_write by lia.
    rewrite countOk_flat by apply encode_nonempty.
    rewrite Nat2Z.id, decodeMany_encode; [reflexivity|exact IH|lia|lia|exact Hwf].
  - intros fuel rest Hfuel Hlen Hwf. destruct fuel as [|f]; [simpl in Hfuel; lia|].
    simpl in Hfuel, Hwf. apply andb_true_iff in Hwf as [Huniq Hwf].
    simpl encode in *.
    simpl length in Hlen. rewrite length_app in Hlen.
    assert (Hone : forall e : Key * Tree,
               (1 <= length (encodeKey (fst e) ++ encode (snd e)))%nat).
    { intros e. rewrite length_app. pose proof (encode_nonempty (snd e)). lia. }
    pose proof (flatMap_length_ge _ m Hone) as Hcount.
    rewrite <- app_comm_cons, <- app_assoc, decode_map.
    rewrite readVarUint_write by lia.
    rewrite (countOk_flat _ m rest Hone).
    rewrite Nat2Z.id, decodePairs_encode; [|exact IH|lia|lia|exact Hwf].
    rewrite treeMap_unique by exact Huniq. reflexivity.
Qed.

Lemma tdepth_le_encode (t : Tree) : (tdepth t <= length (encode t))%nat.
Proof.
  induction t as [b|z|bs|l IH|l IH|m IH] using Tree_nested_ind;
    try (simpl; lia).
  - simpl. rewrite length_app.
    assert (H : (list_max (List.map tdepth l) <= length (flatMap encode l))%nat).
    { induction IH as [|t l Ht Hl IHl]; simpl; [lia|]. rewrite length_app. lia. }
    lia.
  - simpl. rewrite length_app.
    assert (H : (list_max (List.map tdepth l) <= length (flatMap encode l))%nat).
    { induction IH as [|t l Ht Hl IHl]; simpl; [lia|]. rewrite length_app. lia. }
    lia.
  - simpl. rewrite length_app.
    assert (H : (list_max (List.map (fun e => tdepth (snd e)) m)
                 <= length (flatMap (fun e => encodeKey (fst e) ++ encode (snd e)) m))%nat).
    { induction IH as [|e m Ht Hm IHm]; simpl; [lia|]. rewrite !length_app. lia. }
    lia.
Qed.

(** DeserializeItem undoes the serialized form of a value whose maps have
    distinct keys and whose serialized form is shorter than 2^64 bytes. *)
Lemma DeserializeItem_encode (t : Tree) :
  Z.of_nat (length (encode t)) < 2 ^ 64 ->
  wfTree t = true ->
  DeserializeItem (encode t) = Some t.
Proof.
  intros Hlen Hwf. unfold DeserializeItem.
  pose proof (decode_encode t (S (length (encode t))) []) as H.
  rewrite app_nil_r in H. rewrite H; [reflexivity| |exact Hlen|exact Hwf].
  pose proof (tdepth_le_encode t). lia.
Qed.

(** *** Facts: the value of an item *)

Lemma Denotes_functional (ar : gmap positive Object) :
  (forall x t, Denotes ar x t -> forall t2, Denotes ar x t2 -> t = t2) /\
  (forall l ts, DenotesAll ar l ts -> forall ts2, DenotesAll ar l ts2 -> ts = ts2) /\
  (forall m tm, DenotesEntries ar m tm ->
     forall tm2, DenotesEntries ar m tm2 -> tm = tm2).
Proof.
  apply Denotes_mutind.
  - intros b t2 H. inversion H. reflexivity.
  - intros z t2 H. inversion H. reflexivity.
  - intros bs t2 H. inversion H. reflexivity.
  - intros a l ts Ha _ IH t2 H. inversion H; subst; try congruence.
    f_equal. apply IH. congruence.
  - intros a l ts Ha _ IH t2 H. inversion H; subst; try congruence.
    f_equal. apply IH. congruence.
  - intros a m tm Ha _ IH t2 H. inversion H; subst; try congruence.
    f_equal. apply IH. congruence.
  - intros ts2 H. inversion H. reflexivity.
  - intros x t xs ts _ IHx _ IHxs ts2 H. inversion H; subst.
    f_equal; [apply IHx | apply IHxs]; assumption.
  - intros tm2 H. inversion H. reflexivity.
  - intros k x t m tm _ IHx _ IHm tm2 H. inversion H; subst.
    f_equal; [f_equal; apply IHx | apply IHm]; assumption.
Qed.

Lemma Denotes_unique (ar : gmap positive Object) (x : Item) (t1 t2 : Tree) :
  Denotes ar x t1 -> Denotes ar x t2 -> t1 = t2.
Proof. intros H1 H2. exact (proj1 (Denotes_functional ar) x t1 H1 t2 H2). Qed.

(** The value of an item stays when the arena grows. *)
Lemma Denotes_weaken (ar ar' : gmap positive Object) :
  ar ⊆ ar' ->
  (forall x t, Denotes ar x t -> Denotes ar' x t) /\
  (forall l ts, DenotesAll ar l ts -> DenotesAll ar' l ts) /\
  (forall m tm, DenotesEntries ar m tm -> DenotesEntries ar' m tm).
Proof.
  intros Hsub. apply Denotes_mutind; intros.
  - constructor.
  - constructor.
  - constructor.
  - eapply DenArray; [eapply lookup_weaken; eassumption | assumption].
  - eapply DenStruct; [eapply lookup_weaken; eassumption | assumption].
  - eapply DenMap; [eapply lookup_weaken; eassumption | assumption].
  - constructor.
  - constructor; assumption.
  - constructor.
  - constructor; assumption.
Qed.

Lemma allTrees_sound (ar : gmap positive Object) (g : Item -> sres Tree)
    (l : list Item) (ts : list Tree) :
  (forall x t, g x = SOk t -> Denotes ar x t) ->
  allTrees g l = SOk ts -> DenotesAll ar l ts.
Proof.
  intros Hg. revert ts. induction l as [|x l IH]; intros ts H; simpl in H.
  - injection H as <-. constructor.
  - destruct (g x) as [t| |] eqn:Hx; try discriminate.
    destruct (allTrees g l) as [ts'| |]; try discriminate.
    injection H as <-. constructor; [apply Hg, Hx | apply IH; reflexivity].
Qed.

Lemma allEntries_sound (ar : gmap positive Object) (g : Item -> sres Tree)
    (m : list (Key * Item)) (tm : list (Key * Tree)) :
  (forall x t, g x = SOk t -> Denotes ar x t) ->
  allEntries g m = SOk tm -> DenotesEntries ar m tm.
Proof.
  intros Hg. revert tm. induction m as [|[k x] m IH]; intros tm H; simpl in H.
  - injection H as <-. constructor.
  - destruct (g x) as [t| |] eqn:Hx; try discriminate.
    destruct (allEntries g m) as [tm'| |]; try discriminate.
    injection H as <-. constructor; [apply Hg, Hx | apply IH; reflexivity].
Qed.

(** What is read off the arena is the value of the item. *)
Lemma toTree_sound (ar : gmap positive Object) (fuel : nat) :
  forall path x t, toTree fuel ar path x = SOk t -> Denotes ar x t.
Proof.
  induction fuel as [|f IH]; intros path x t H.
  - destruct x; simpl in H; try discriminate;
      try (injection H as <-; constructor).
    destruct (onPath a path); discriminate.
  - destruct x; simpl in H; try discriminate;
      try (injection H as <-; constructor).
    destruct (onPath a path); [discriminate|].
    destruct (ar !! a) as [[l|l|m|es pos|]|] eqn:Ha; try discriminate.
    + destruct (allTrees _ l) as [ts| |] eqn:Hl; try discriminate.
      injection H as <-. eapply DenArray; [exact Ha|].
      eapply allTrees_sound; [|exact Hl]. intros y ty. apply IH.
    + destruct (allTrees _ l) as [ts| |] eqn:Hl; try discriminate.
      injection H as <-. eapply DenStruct; [exact Ha|].
      eapply allTrees_sound; [|exact Hl]. intros y ty. apply IH.
    + destruct (allEntries _ m) as [tm| |] eqn:Hm; try discriminate.
      injection H as <-. eapply DenMap; [exact Ha|].
      eapply allEntries_sound; [|exact Hm]. intros y ty. apply IH.
Qed.

(** The compound items on the path are above the value that is being read:
    each has a value, and a larger one. *)
Definition pathAbove (ar : gmap positive Object) (path : list positive) (n : nat) : Prop :=
  forall p, In p path -> exists tp, Denotes ar (Ref p) tp /\ (n < tsize tp)%nat.

Lemma pathAbove_le (ar : gmap positive Object) (path : list positive) (n n' : nat) :
  (n' <= n)%nat -> pathAbove ar path n -> pathAbove ar path n'.
Proof.
  intros Hle H p Hp. destruct (H p Hp) as (tp & Hd & Hlt).
  exists tp. split; [exact Hd | lia].
Qed.

Lemma pathAbove_cons (ar : gmap positive Object) (path : list positive)
    (a : positive) (t : Tree) (n : nat) :
  Denotes ar (Ref a) t -> (n < tsize t)%nat ->
  pathAbove ar path (tsize t) ->
  pathAbove ar (a :: path) n.
Proof.
  intros Hd Hlt H p [<-|Hp].
  - exists t. split; assumption.
  - destruct (H p Hp) as (tp & Hdp & Hltp). exists tp. split; [exact Hdp | lia].
Qed.

Lemma onPath_In (a : positive) (path : list positive) :
  onPath a path = true <-> In a path.
Proof.
  unfold onPath. rewrite existsb_exists. split.
  - intros (p & Hp & Heq). apply Pos.eqb_eq in Heq. subst. exact Hp.
  - intros Hp. exists a. split; [exact Hp | apply Pos.eqb_refl].
Qed.

Lemma not_onPath_above (ar : gmap positive Object) (path : list positive)
    (a : positive) (t : Tree) :
  Denotes ar (Ref a) t -> pathAbove ar path (tsize t) -> onPath a path = false.
Proof.
  intros Hd Habove. destruct (onPath a path) eqn:Hon; [|reflexivity].
  apply onPath_In in Hon. destruct (Habove a Hon) as (tp & Hdp & Hlt).
  rewrite (Denotes_unique _ _ _ _ Hd Hdp) in Hlt. lia.
Qed.

(** An item that has a value is read off the arena with that value, unless
    the fuel is spent before. *)
Lemma toTree_complete (ar : gmap positive Object) :
  (forall x t, Denotes ar x t ->
     forall fuel path, pathAbove ar path (tsize t) ->
       toTree fuel ar path x = SOk t \/ toTree fuel ar path x = SFuel) /\
  (forall l ts, DenotesAll ar l ts ->
     forall fuel path, pathAbove ar path (list_sum (List.map tsize ts)) ->
       allTrees (toTree fuel ar path) l = SOk ts
       \/ allTrees (toTree fuel ar path) l = SFuel) /\
  (forall m tm, DenotesEntries ar m tm ->
     forall fuel path,
       pathAbove ar path (list_sum (List.map (fun e => tsize (snd e)) tm)) ->
       allEntries (toTree fuel ar path) m = SOk tm
       \/ allEntries (toTree fuel ar path) m = SFuel).
Proof.
  apply Denotes_mutind.
  - intros b fuel path _. left. destruct fuel; reflexivity.
  - intros z fuel path _. left. destruct fuel; reflexivity.
  - intros bs fuel path _. left. destruct fuel; reflexivity.
  - intros a l ts Ha Hl IH fuel path Habove.
    assert (Hd : Denotes ar (Ref a) (TArray ts)) by (eapply DenArray; eassumption).
    pose proof (not_onPath_above _ _ _ _ Hd Habove) as Hoff.
    destruct fuel as [|f]; simpl; rewrite Hoff; [right; reflexivity|].
    rewrite Ha.
    destruct (IH f (a :: path)) as [H|H]; [|rewrite H; left; reflexivity
                                            |rewrite H; right; reflexivity].
    eapply pathAbove_cons; [exact Hd| |exact Habove]. simpl. lia.
  - intros a l ts Ha Hl IH fuel path Habove.
    assert (Hd : Denotes ar (Ref a) (TStruct ts)) by (eapply DenStruct; eassumption).
    pose proof (not_onPath_above _ _ _ _ Hd Habove) as Hoff.
    destruct fuel as [|f]; simpl; rewrite Hoff; [right; reflexivity|].
    rewrite Ha.
    destruct (IH f (a :: path)) as [H|H]; [|rewrite H; left; reflexivity
                                            |rewrite H; right; reflexivity].
    eapply pathAbove_cons; [exact Hd| |exact Habove]. simpl. lia.
  - intros a m tm Ha Hm IH fuel path Habove.
    assert (Hd : Denotes ar (Ref a) (TMap tm)) by (eapply DenMap; eassumption).
    pose proof (not_onPath_above _ _ _ _ Hd Habove) as Hoff.
    destruct fuel as [|f]; simpl; rewrite Hoff; [right; reflexivity|].
    rewrite Ha.
    destruct (IH f (a :: path)) as [H|H]; [|rewrite H; left; reflexivity
                                            |rewrite H; right; reflexivity].
    eapply pathAbove_cons; [exact Hd| |exact Habove]. simpl. lia.
  - intros fuel path _. left. reflexivity.
  - intros x t xs ts _ IHx _ IHxs fuel path Habove. simpl in Habove. simpl allTrees.
    destruct (IHx fuel path) as [H|H]; [eapply pathAbove_le; [|exact Habove]; lia | |].
    + rewrite H.
      destruct (IHxs fuel path) as [H'|H'];
        [eapply pathAbove_le; [|exact Habove]; lia | |]; rewrite H'.
      * left. reflexivity.
      * right. reflexivity.
    + rewrite H. right. reflexivity.
  - intros fuel path _. left. reflexivity.
  - intros k x t m tm _ IHx _ IHm fuel path Habove. simpl in Habove. simpl allEntries.
    destruct (IHx fuel path) as [H|H]; [eapply pathAbove_le; [|exact Habove]; lia | |].
    + rewrite H.
      destruct (IHm fuel path) as [H'|H'];
        [eapply pathAbove_le; [|exact Habove]; lia | |]; rewrite H'.
      * left. reflexivity.
      * right. reflexivity.
    + rewrite H. right. reflexivity.
Qed.

(** Distinct handles of the arena are no more than the arena has objects. *)
Lemma path_length_le (ar : gmap positive Object) (path : list positive) :
  NoDup path ->
  (forall p, In p path -> is_Some (ar !! p)) ->
  (length path <= size ar)%nat.
Proof.
  intros Hnd Hvalid.
  rewrite <- (size_list_to_set (C := gset positive) path) by exact Hnd.
  rewrite <- (size_dom (D := gset positive) ar).
  apply subseteq_size. intros p Hp.
  apply elem_of_list_to_set in Hp. apply elem_of_dom.
  apply Hvalid. apply list_elem_of_In. exact Hp.
Qed.

Lemma allTrees_no_fuel (g : Item -> sres Tree) (l : list Item) :
  (forall x, g x <> SFuel) -> allTrees g l <> SFuel.
Proof.
  intros Hg. induction l as [|x l IH]; simpl; [discriminate|].
  specialize (Hg x). destruct (g x); try congruence.
  destruct (allTrees g l); congruence.
Qed.

Lemma allEntries_no_fuel (g : Item -> sres Tree) (m : list (Key * Item)) :
  (forall x, g x <> SFuel) -> allEntries g m <> SFuel.
Proof.
  intros Hg. induction m as [|[k x] m IH]; simpl; [discriminate|].
  specialize (Hg x). destruct (g x); try congruence.
  destruct (allEntries g m); congruence.
Qed.

(** With one unit of fuel more than the arena has objects the fuel is never
    spent. *)
Lemma toTree_no_fuel (ar : gmap positive Object) (fuel : nat) :
  forall path x,
    NoDup path ->
    (forall p, In p path -> is_Some (ar !! p)) ->
    (size ar < fuel + length path)%nat ->
    toTree fuel ar path x <> SFuel.
Proof.
  induction fuel as [|f IH]; intros path x Hnd Hvalid Hfuel.
  - pose proof (path_length_le ar path Hnd Hvalid). simpl in Hfuel. lia.
  - destruct x; simpl; try discriminate.
    destruct (onPath a path) eqn:Hon; [discriminate|].
    destruct (ar !! a) as [o|] eqn:Ha; [|discriminate].
    assert (Hstep : forall y, toTree f ar (a :: path) y <> SFuel).
    { intros y. apply IH.
      - constructor; [|exact Hnd]. intros Hin. apply list_elem_of_In in Hin.
        apply onPath_In in Hin. congruence.
      - intros p [<-|Hp]; [rewrite Ha; eauto | apply Hvalid, Hp].
      - simpl. lia. }
    destruct o as [l|l|m|es pos|]; try discriminate.
    + pose proof (allTrees_no_fuel _ l Hstep).
      destruct (allTrees _ l); congruence.
    + pose proof (allTrees_no_fuel _ l Hstep).
      destruct (allTrees _ l); congruence.
    + pose proof (allEntries_no_fuel _ m Hstep).
      destruct (allEntries _ m); congruence.
Qed.

(** [valueOf] gives the value of an item that has one. *)
Lemma valueOf_Denotes (ar : gmap positive Object) (x : Item) (t : Tree) :
  Denotes ar x t <-> valueOf ar x = SOk t.
Proof.
  split.
  - intros Hd. unfold valueOf.
    destruct (proj1 (toTree_complete ar) x t Hd (S (size ar)) []) as [H|H].
    + intros p [].
    + exact H.
    + exfalso. revert H. apply toTree_no_fuel; [constructor | intros p [] | simpl; lia].
  - apply toTree_sound.
Qed.

Lemma valueOf_total (ar : gmap positive Object) (x : Item) : valueOf ar x <> SFuel.
Proof. apply toTree_no_fuel; [constructor | intros p [] | simpl; lia]. Qed.

(** *** Facts: cycles *)

Lemma DenotesAll_In (ar : gmap positive Object) (l : list Item) (ts : list Tree)
    (x : Item) :
  DenotesAll ar l ts -> In x l ->
  exists t, Denotes ar x t /\ (tsize t <= list_sum (List.map tsize ts))%nat.
Proof.
  induction 1 as [|y t xs ts Hy Hxs IH]; intros Hin; [destruct Hin|].
  destruct Hin as [<-|Hin].
  - exists t. split; [exact Hy | simpl; lia].
  - destruct (IH Hin) as (t' & Hd & Hle). exists t'. split; [exact Hd | simpl; lia].
Qed.

Lemma DenotesEntries_In (ar : gmap positive Object) (m : list (Key * Item))
    (tm : list (Key * Tree)) (x : Item) :
  DenotesEntries ar m tm -> In x (List.map snd m) ->
  exists t, Denotes ar x t
            /\ (tsize t <= list_sum (List.map (fun e => tsize (snd e)) tm))%nat.
Proof.
  induction 1 as [|k y t m tm Hy Hm IH]; intros Hin; [destruct Hin|].
  destruct Hin as [<-|Hin].
  - exists t. split; [exact Hy | simpl; lia].
  - destruct (IH Hin) as (t' & Hd & Hle). exists t'. split; [exact Hd | simpl; lia].
Qed.

(** What a compound item with a value holds has a smaller value. *)
Lemma edge_smaller (ar : gmap positive Object) (a b : positive) (t : Tree) :
  Denotes ar (Ref a) t -> edge ar a b ->
  exists t', Denotes ar (Ref b) t' /\ (tsize t' < tsize t)%nat.
Proof.
  intros Hd (o & Ho & Hin).
  inversion Hd as [| | |a' l ts Ha Hl|a' l ts Ha Hl|a' m tm Ha Hm]; subst;
    rewrite Ha in Ho; injection Ho as <-; simpl in Hin.
  - destruct (DenotesAll_In _ _ _ _ Hl Hin) as (t' & Hd' & Hle).
    exists t'. split; [exact Hd' | simpl; lia].
  - destruct (DenotesAll_In _ _ _ _ Hl Hin) as (t' & Hd' & Hle).
    exists t'. split; [exact Hd' | simpl; lia].
  - destruct (DenotesEntries_In _ _ _ _ Hm Hin) as (t' & Hd' & Hle).
    exists t'. split; [exact Hd' | simpl; lia].
Qed.

Lemma tc_smaller (ar : gmap positive Object) (a b : positive) :
  tc (edge ar) a b ->
  forall t, Denotes ar (Ref a) t ->
  exists t', Denotes ar (Ref b) t' /\ (tsize t' < tsize t)%nat.
Proof.
  induction 1 as [a b Hab|a b c Hab Hbc IH]; intros t Hd.
  - eapply edge_smaller; eassumption.
  - destruct (edge_smaller _ _ _ _ Hd Hab) as (t1 & Hd1 & Hlt1).
    destruct (IH t1 Hd1) as (t2 & Hd2 & Hlt2).
    exists t2. split; [exact Hd2 | lia].
Qed.

Lemma rtc_denotes (ar : gmap positive Object) (a b : positive) :
  rtc (edge ar) a b ->
  forall t, Denotes ar (Ref a) t -> exists t', Denotes ar (Ref b) t'.
Proof.
  induction 1 as [a|a b c Hab Hbc IH]; intros t Hd.
  - exists t. exact Hd.
  - destruct (edge_smaller _ _ _ _ Hd Hab) as (t1 & Hd1 & _).
    apply (IH t1 Hd1).
Qed.

(** An item that has a value is not cyclic. *)
Lemma Denotes_acyclic (ar : gmap positive Object) (x : Item) (t : Tree) :
  Denotes ar x t -> ~ Cyclic ar x.
Proof.
  intros Hd (a & b & -> & Hab & Hbb).
  destruct (rtc_denotes _ _ _ Hab t Hd) as (tb & Hdb).
  destruct (tc_smaller _ _ _ Hbb tb Hdb) as (tb' & Hdb' & Hlt).
  rewrite (Denotes_unique _ _ _ _ Hdb Hdb') in Hlt. lia.
Qed.

(** Reading the value of a cyclic item fails. *)
Lemma Cyclic_fault (ar : gmap positive Object) (x : Item) :
  Cyclic ar x -> valueOf ar x = SFault.
Proof.
  intros Hcyc. destruct (valueOf ar x) as [t| |] eqn:Hv.
  - exfalso. apply valueOf_Denotes in Hv. exact (Denotes_acyclic _ _ _ Hv Hcyc).
  - reflexivity.
  - exfalso. exact (valueOf_total _ _ Hv).
Qed.

(** *** Facts: building an item from a value *)

(** What of the VM is outside the arena. *)
Definition frame (vm : VM) : list Instr * nat * list Item * list Item * State * Z * option Z :=
  (prog vm, ip vm, estack vm, astack vm, state vm, gasConsumed vm, gasLimit vm).

(** [vm'] is [vm] with objects added to the arena. *)
Definition extends (vm vm' : VM) : Prop :=
  wfArena vm' /\ arena vm ⊆ arena vm' /\ frame vm' = frame vm.

Lemma extends_refl (vm : VM) : wfArena vm -> extends vm vm.
Proof. intros H. repeat split; [exact H | reflexivity]. Qed.

Lemma extends_trans (vm1 vm2 vm3 : VM) :
  extends vm1 vm2 -> extends vm2 vm3 -> extends vm1 vm3.
Proof.
  intros (H1 & H2 & H3) (H4 & H5 & H6). repeat split.
  - exact H4.
  - etransitivity; eassumption.
  - congruence.
Qed.

Lemma alloc_extends (vm : VM) (o : Object) :
  wfArena vm ->
  extends vm (snd (alloc vm o)) /\
  arena (snd (alloc vm o)) !! fst (alloc vm o) = Some o.
Proof.
  intros Hwf. unfold alloc; simpl. split; [repeat split|].
  - intros a o' Ha. simpl in *.
    destruct (decide (a = next vm)) as [->|Hne]; [lia|].
    rewrite lookup_insert_ne in Ha by congruence.
    specialize (Hwf a o' Ha). lia.
  - simpl. apply insert_subseteq.
    destruct (arena vm !! next vm) as [o'|] eqn:Hn; [|reflexivity].
    specialize (Hwf _ _ Hn). lia.
  - apply lookup_insert_eq.
Qed.

Definition builds (t : Tree) : Prop :=
  forall vm, wfArena vm ->
    Denotes (arena (snd (build t vm))) (fst (build t vm)) t /\
    extends vm (snd (build t vm)).

Lemma buildAll_spec (l : list Tree) :
  Forall builds l ->
  forall vm, wfArena vm ->
    DenotesAll (arena (snd (buildAll build l vm))) (fst (buildAll build l vm)) l /\
    extends vm (snd (buildAll build l vm)).
Proof.
  induction 1 as [|t l Ht Hl IH]; intros vm Hwf; simpl.
  - split; [constructor | apply extends_refl, Hwf].
  - destruct (Ht vm Hwf) as [Hd Hext].
    destruct (build t vm) as [x vm1]; simpl in *.
    destruct (IH vm1 (proj1 Hext)) as [Hds Hext'].
    destruct (buildAll build l vm1) as [xs vm2]; simpl in *.
    split; [|eapply extends_trans; eassumption].
    constructor; [|exact Hds].
    exact (proj1 (Denotes_weaken _ _ (proj1 (proj2 Hext'))) x t Hd).
Qed.

Lemma buildEntries_spec (m : list (Key * Tree)) :
  Forall (fun e => builds (snd e)) m ->
  forall vm, wfArena vm ->
    DenotesEntries (arena (snd (buildEntries build m vm)))
                   (fst (buildEntries build m vm)) m /\
    extends vm (snd (buildEntries build m vm)).
Proof.
  induction 1 as [|[k t] m Ht Hm IH]; intros vm Hwf; simpl.
  - split; [constructor | apply extends_refl, Hwf].
  - simpl in Ht. destruct (Ht vm Hwf) as [Hd Hext].
    destruct (build t vm) as [x vm1]; simpl in *.
    destruct (IH vm1 (proj1 Hext)) as [Hds Hext'].
    destruct (buildEntries build m vm1) as [xs vm2]; simpl in *.
    split; [|eapply extends_trans; eassumption].
    constructor; [|exact Hds].
    exact (proj1 (Denotes_weaken _ _ (proj1 (proj2 Hext'))) x t Hd).
Qed.

(** The item built from a value has that value. *)
Lemma build_spec (t : Tree) : builds t.
Proof.
  induction t as [b|z|bs|l IH|l IH|m IH] using Tree_nested_ind; intros vm Hwf.
  - simpl. split; [constructor | apply extends_refl, Hwf].
  - simpl. split; [constructor | apply extends_refl, Hwf].
  - simpl. split; [constructor | apply extends_refl, Hwf].
  - destruct (buildAll_spec l IH vm Hwf) as [Hds Hext].
    simpl. destruct (buildAll build l vm) as [xs vm1]; simpl in *.
    destruct (alloc_extends vm1 (Array xs) (proj1 Hext)) as [Hext' Hlk].
    unfold alloc in *; simpl in *.
    split; [|eapply extends_trans; eassumption].
    eapply DenArray; [exact Hlk|].
    exact (proj1 (proj2 (Denotes_weaken _ _ (proj1 (proj2 Hext')))) xs l Hds).
  - destruct (buildAll_spec l IH vm Hwf) as [Hds Hext].
    simpl. destruct (buildAll build l vm) as [xs vm1]; simpl in *.
    destruct (alloc_extends vm1 (Struct xs) (proj1 Hext)) as [Hext' Hlk].
    unfold alloc in *; simpl in *.
    split; [|eapply extends_trans; eassumption].
    eapply DenStruct; [exact Hlk|].
    exact (proj1 (proj2 (Denotes_weaken _ _ (proj1 (proj2 Hext')))) xs l Hds).
  - destruct (buildEntries_spec m IH vm Hwf) as [Hds Hext].
    simpl. destruct (buildEntries build m vm) as [xs vm1]; simpl in *.
    destruct (alloc_extends vm1 (Map xs) (proj1 Hext)) as [Hext' Hlk].
    unfold alloc in *; simpl in *.
    split; [|eapply extends_trans; eassumption].
    eapply DenMap; [exact Hlk|].
    exact (proj2 (proj2 (Denotes_weaken _ _ (proj1 (proj2 Hext')))) xs m Hds).
Qed.

(** *** Facts: Runtime.Serialize and Runtime.Deserialize *)

Lemma RuntimeSerialize_value (vm : VM) (x : Item) (rest : list Item) (t : Tree) :
  estack vm = x :: rest ->
  Denotes (arena vm) x t ->
  Z.of_nat (length (encode t)) <= MaxItemSize ->
  RuntimeSerialize vm = Some (setEstack vm (ByteArray (encode t) :: rest)).
Proof.
  intros Hst Hd Hlen. unfold RuntimeSerialize, SerializeItem.
  rewrite Hst. apply valueOf_Denotes in Hd. rewrite Hd.
  destruct (MaxItemSize <? Z.of_nat (length (encode t))) eqn:Hcmp; [|reflexivity].
  apply Z.ltb_lt in Hcmp. lia.
Qed.

Lemma RuntimeDeserialize_value (vm : VM) (rest : list Item) (t : Tree) :
  estack vm = ByteArray (encode t) :: rest ->
  wfArena vm ->
  wfTree t = true ->
  Z.of_nat (length (encode t)) < 2 ^ 64 ->
  exists vm2 x',
    RuntimeDeserialize vm = Some vm2 /\ estack vm2 = x' :: rest /\
    Denotes (arena vm2) x' t /\ arena vm ⊆ arena vm2.
Proof.
  intros Hst Hwf Hwt Hlen. unfold RuntimeDeserialize. rewrite Hst. simpl toBytes.
  cbv iota. rewrite DeserializeItem_encode by assumption.
  destruct (build_spec t (setEstack vm rest) Hwf) as [Hd (_ & Hsub & _)].
  destruct (build t (setEstack vm rest)) as [y vmb]; simpl in *.
  exists (setEstack vmb (y :: rest)), y. repeat split; assumption.
Qed.

Lemma RuntimeSerialize_fails (vm : VM) (x : Item) (rest : list Item) :
  estack vm = x :: rest ->
  (exists a, x = Interop a) \/ Cyclic (arena vm) x ->
  RuntimeSerialize vm = None.
Proof.
  intros Hst Hbad. unfold RuntimeSerialize, SerializeItem. rewrite Hst.
  destruct Hbad as [[a ->]|Hcyc]; [reflexivity|].
  rewrite (Cyclic_fault _ _ Hcyc). reflexivity.
Qed.

(** A syscall whose handler fails on these stacks and this arena is a FAULT
    of the step. *)
Lemma step_syscall_fails (env : Env) (vm : VM) (name : string)
    (handler : VM -> option VM) :
  terminal (state vm) = false ->
  prog vm !! ip vm = Some (SYSCALL name) ->
  getInterop env name = Some handler ->
  (forall vm', estack vm' = estack vm -> arena vm' = arena vm -> handler vm' = None) ->
  state (step env vm) = FAULT.
Proof.
  intros Hterm Hi Hres Hfail. eapply step_exec_none; try eassumption.
  simpl. rewrite Hres. apply Hfail.
  - unfold advance. simpl. apply (charge_keeps env _ (setState vm NONE)).
  - unfold advance. simpl. apply (charge_keeps env _ (setState vm NONE)).
Qed.

(** C7. Runtime.Serialize followed by Runtime.Deserialize gives back an item
    that is deeply equal to the one on top of the stack: for an item that has
    a value (made of booleans, integers, byte arrays, arrays, structs and
    maps, without interop handle and without cycle), Serialize leaves the
    serialized form of the value and Deserialize an item of the same value,
    the rest of the stack untouched.  Serializing an interop handle or a
    cyclic item fails, and the VM that executes the syscall FAULTs. *)
Theorem serialize_roundtrip (vm : VM) (x : Item) (rest : list Item) :
  estack vm = x :: rest ->
  (forall t,
     wfArena vm -> Denotes (arena vm) x t -> wfTree t = true ->
     Z.of_nat (length (encode t)) <= MaxItemSize ->
     exists vm1 vm2 x',
       RuntimeSerialize vm = Some vm1 /\
       estack vm1 = ByteArray (encode t) :: rest /\
       RuntimeDeserialize vm1 = Some vm2 /\
       estack vm2 = x' :: rest /\
       Denotes (arena vm2) x' t /\ Denotes (arena vm2) x t) /\
  ((exists a, x = Interop a) \/ Cyclic (arena vm) x ->
   RuntimeSerialize vm = None /\
   forall env,
     terminal (state vm) = false ->
     prog vm !! ip vm = Some (SYSCALL "Neo.Runtime.Serialize") ->
     getInterop env "Neo.Runtime.Serialize" = Some RuntimeSerialize ->
     state (step env vm) = FAULT).
Proof.
  intros Hst. split.
  - intros t Hwf Hd Hwt Hlen.
    pose proof (RuntimeSerialize_value vm x rest t Hst Hd Hlen) as Hser.
    destruct (RuntimeDeserialize_value (setEstack vm (ByteArray (encode t) :: rest))
                rest t eq_refl Hwf Hwt) as (vm2 & x' & Hdes & Hst2 & Hd2 & Hsub).
    { unfold MaxItemSize in Hlen. lia. }
    exists (setEstack vm (ByteArray (encode t) :: rest)), vm2, x'.
    repeat split; try assumption.
    exact (proj1 (Denotes_weaken _ _ Hsub) x t Hd).
  - intros Hbad. split; [eapply RuntimeSerialize_fails; eassumption|].
    intros env Hterm Hi Hres.
    eapply step_syscall_fails; try eassumption.
    intros vm' Hst' Har'. eapply RuntimeSerialize_fails.
    + rewrite Hst'. exact Hst.
    + rewrite Har'. exact Hbad.
Qed.

(** *** The tests of vm_test.go on the model *)

Definition start (script : list Instr) (stack : list Item) : VM :=
  load script stack ∅ 1%positive.

(** getBigInt(a, b) of the tests: 2^a + b. *)
Definition getBigInt (a b : Z) : Z := 2 ^ a + b.

Definition stackLimitProg : list Instr :=
  [PUSHINT 2; NEWARRAY; TOALTSTACK; DUPFROMALTSTACK; NEWSTRUCT; NEWMAP; DUP;
   PUSHINT 2; DUPFROMALTSTACK; SETITEM; DUP; PUSHINT 2; DUPFROMALTSTACK; SETITEM;
   DUP; PUSHINT 2; REMOVE; DROP].

(** appendBigStruct(size) of the tests. *)
Definition appendBigStruct (size : nat) : list Instr :=
  concat (replicate size [PUSHINT 0; NEWSTRUCT])
  ++ [PUSHINT (Z.of_nat size); PACK; NEWSTRUCT; DUP; PUSHINT 0; NEWARRAY;
      TOALTSTACK; DUPFROMALTSTACK; SWAP; APPEND; RET].

Definition serializeProg : list Instr :=
  [SYSCALL "Neo.Runtime.Serialize"; SYSCALL "Neo.Runtime.Deserialize"; RET].

(** getEnumeratorProg(n, false) of the tests. *)
Definition enumeratorProg (n : nat) : list Instr :=
  [TOALTSTACK]
  ++ concat (replicate n [DUPFROMALTSTACK; SYSCALL "Neo.Enumerator.Next";
                          DUPFROMALTSTACK; SYSCALL "Neo.Enumerator.Value"])
  ++ [DUPFROMALTSTACK; SYSCALL "Neo.Enumerator.Next"].

Definition iteratorValuesProg : list Instr :=
  [SYSCALL "Neo.Iterator.Create"; SYSCALL "Neo.Iterator.Values";
   TOALTSTACK; DUPFROMALTSTACK] ++ enumeratorProg 2.

Definition iteratorKeysProg : list Instr :=
  [SYSCALL "Neo.Iterator.Create"; SYSCALL "Neo.Iterator.Keys";
   TOALTSTACK; DUPFROMALTSTACK] ++ enumeratorProg 2.

(** The map of TestIteratorValues: 1 -> false, [32] -> [7]. *)
Definition valuesArena : gmap positive Object :=
  {[ 1%positive := Map [(KInteger 1, Bool false); (KByteArray [32], ByteArray [7])] ]}.

(** The array of TestSerializeArray: [true, 123, map{}]. *)
Definition arrayArena : gmap positive Object :=
  {[ 1%positive := Array [Bool true; Integer 123; Ref 2%positive];
     2%positive := Map [] ]}.

(** The array of TestSerializeArrayBad, its second element the array itself. *)
Definition cyclicArena : gmap positive Object :=
  {[ 1%positive := Array [Bool false; Ref 1%positive] ]}.

(** The map of TestSerializeMap: true -> [1,2,3], [0] -> false. *)
Definition mapArena : gmap positive Object :=
  {[ 1%positive := Map [(KBool true, ByteArray [1; 2; 3]); (KByteArray [0], Bool false)] ]}.

(** The price getter of TestVM_SetPriceGetter. *)
Definition testPrice (i : Instr) : Z :=
  match i with
  | PUSHINT 4 => 1
  | PUSHDATA [202; 254] => 7
  | _ => 0
  end.

Definition priceProg : list Instr :=
  [PUSHINT 4; PUSHINT 2; PUSHDATA [1]; PUSHDATA [202; 254]; PUSHINT 4; RET].

(** fooInteropGetter of the tests. *)
Definition fooInteropGetter (name : string) : option (VM -> option VM) :=
  if String.eqb name "foo"
  then Some (fun vm => Some (setEstack vm (Integer 1 :: estack vm)))
  else None.

(** The VM of TestStackLimitPUSH1Bad before its last PUSH1. *)
Definition fullStack : VM :=
  run bareEnv 2048 (start (replicate 2049 (PUSHINT 1)) []).

Example TestStackLimit :
  List.map liveSize (trace bareEnv 18 (start stackLimitProg []))
  = [1; 3; 3; 4; 6; 7; 8; 9; 10; 8; 9; 10; 11; 8; 9; 10; 7; 6].
Proof. vm_compute. reflexivity. Qed.

Example TestStackLimitPUSH1Good :
  state (run bareEnv 4097
           (start (replicate 2048 (PUSHINT 1) ++ replicate 2048 DROP) [])) = HALT.
Proof. vm_compute. reflexivity. Qed.

Example TestStackLimitPUSH1Bad :
  state (step bareEnv fullStack) = FAULT /\
  state fullStack = NONE /\ ip fullStack = 2048%nat /\ liveSize fullStack = MaxStackSize.
Proof. vm_compute. repeat split. Qed.

Example TestStackLimitAPPENDStructGood :
  state (run bareEnv 2100 (start (appendBigStruct 1022) [])) = HALT /\
  liveSize (run bareEnv 2100 (start (appendBigStruct 1022) [])) = 2047.
Proof. vm_compute. split; reflexivity. Qed.

Example TestStackLimitAPPENDStructBad :
  state (run bareEnv 2100 (start (appendBigStruct 1023) [])) = FAULT /\
  prog (start (appendBigStruct 1023) [])
    !! ip (run bareEnv 2100 (start (appendBigStruct 1023) [])) = Some APPEND.
Proof. vm_compute. split; reflexivity. Qed.

Example TestVM_SetPriceGetter :
  gasConsumed (run defaultEnv 10 (start priceProg [])) = 0 /\
  (let v := run (SetPriceGetter defaultEnv testPrice) 10 (start priceProg []) in
   state v = HALT /\ gasConsumed v = 9) /\
  (let v := run (SetPriceGetter defaultEnv testPrice) 10
              (SetGasLimit (start priceProg []) 9) in
   state v = HALT /\ gasConsumed v = 9) /\
  state (run (SetPriceGetter defaultEnv testPrice) 10
           (SetGasLimit (start priceProg []) 8)) = FAULT.
Proof. vm_compute. repeat split. Qed.

Example TestInteropHook :
  let v := run (RegisterInteropGetter defaultEnv fooInteropGetter) 5
             (start [SYSCALL "foo"; RET] []) in
  state v = HALT /\ estack v = [Integer 1].
Proof. vm_compute. split; reflexivity. Qed.

Example TestAdd :
  estack (run bareEnv 3 (start [ADD; RET] [Integer 2; Integer 4])) = [Integer 6].
Proof. reflexivity. Qed.

Example TestADDBigResult :
  state (run bareEnv 3 (start [ADD; RET]
           [Integer 1; Integer (getBigInt MaxBigIntegerSizeBits (-1))])) = FAULT.
Proof. vm_compute. reflexivity. Qed.

Example TestSUBBigResult :
  state (run bareEnv 3 (start [SUB; RET]
           [Integer (-1); Integer (getBigInt MaxBigIntegerSizeBits (-1))])) = FAULT.
Proof. vm_compute. reflexivity. Qed.

Example TestMULBigResult :
  state (run bareEnv 3 (start [MUL; RET]
           [Integer (getBigInt (MaxBigIntegerSizeBits / 2 + 1) 0);
            Integer (getBigInt (MaxBigIntegerSizeBits / 2 + 1) 0)])) = FAULT.
Proof. vm_compute. reflexivity. Qed.

Example TestSHLBigResult :
  state (run bareEnv 3 (start [SHL; RET]
           [Integer (MaxBigIntegerSizeBits / 2);
            Integer (getBigInt (MaxBigIntegerSizeBits / 2) 0)])) = FAULT.
Proof. vm_compute. reflexivity. Qed.

Example TestSHLGood :
  estack (run bareEnv 3 (start [SHL; RET] [Integer 2; Integer 4])) = [Integer 16].
Proof. reflexivity. Qed.

Example TestSHLZero :
  estack (run bareEnv 3 (start [SHL; RET] [Integer 0; ByteArray [0; 1]]))
  = [ByteArray [0; 1]].
Proof. reflexivity. Qed.

Example TestArithBigArgument :
  forallb (fun i =>
    match state (run bareEnv 3 (start [i; RET]
                   [Integer 0; Integer (getBigInt MaxBigIntegerSizeBits 0)])),
          state (run bareEnv 3 (start [i; RET]
                   [Integer (getBigInt MaxBigIntegerSizeBits 0); Integer 0])) with
    | FAULT, FAULT => true
    | _, _ => false
    end) [ADD; SUB; MUL] = true.
Proof. vm_compute. reflexivity. Qed.

Example TestINCBigResult :
  let x := getBigInt MaxBigIntegerSizeBits (-2) in
  let v1 := step bareEnv (start [INC; INC; RET] [Integer x]) in
  state v1 = NONE /\ estack v1 = [Integer (x + 1)] /\
  state (run bareEnv 3 v1) = FAULT.
Proof. vm_compute. repeat split. Qed.

Example TestDECBigResult :
  let x := - getBigInt MaxBigIntegerSizeBits (-2) in
  let v1 := step bareEnv (start [DEC; DEC; RET] [Integer x]) in
  state v1 = NONE /\ estack v1 = [Integer (x - 1)] /\
  state (run bareEnv 3 v1) = FAULT.
Proof. vm_compute. repeat split. Qed.

(** For every cap of at least 253 on the shift count (maxSHLArg is not in the
    sources at hand), the shift of TestSHLBigValue is over the integer cap. *)
Example TestSHLBigValue (maxSHLArg : Z) :
  253 <= maxSHLArg ->
  MaxBigIntegerSizeBits < bitLen (Z.shiftl 5 (maxSHLArg + 1)).
Proof.
  intros H. unfold bitLen, MaxBigIntegerSizeBits.
  rewrite Z.shiftl_mul_pow2 by lia.
  assert (Hpos : 0 < 2 ^ (maxSHLArg + 1)) by (apply Z.pow_pos_nonneg; lia).
  destruct (5 * 2 ^ (maxSHLArg + 1) =? 0) eqn:Hz; [apply Z.eqb_eq in Hz; lia|].
  rewrite Z.abs_eq by lia.
  assert (Hlog : maxSHLArg + 3 <= Z.log2 (5 * 2 ^ (maxSHLArg + 1))).
  { apply Z.log2_le_pow2; [lia|].
    replace (maxSHLArg + 3) with (2 + (maxSHLArg + 1)) by lia.
    rewrite Z.pow_add_r by lia. change (2 ^ 2) with 4. lia. }
  lia.
Qed.

Example TestSerializeBool :
  let v := run defaultEnv 3 (start serializeProg [Bool true]) in
  state v = HALT /\ estack v = [Bool true].
Proof. vm_compute. split; reflexivity. Qed.

Example TestSerializeByteArray :
  let v := run defaultEnv 3 (start serializeProg [ByteArray [1; 2; 3]]) in
  state v = HALT /\ estack v = [ByteArray [1; 2; 3]].
Proof. vm_compute. split; reflexivity. Qed.

Example TestSerializeInteger :
  let v1 := step defaultEnv (start serializeProg [Integer 123]) in
  let v := run defaultEnv 3 v1 in
  estack v1 = [ByteArray [33; 1; 123]] /\ state v = HALT /\ estack v = [Integer 123].
Proof. vm_compute. repeat split. Qed.

Example TestSerializeArray :
  let v := run defaultEnv 3 (load serializeProg [Ref 1%positive] arrayArena 3%positive) in
  state v = HALT /\
  exists x, estack v = [x] /\
    valueOf (arena v) x = SOk (TArray [TBool true; TInteger 123; TMap []]) /\
    valueOf arrayArena (Ref 1%positive)
      = SOk (TArray [TBool true; TInteger 123; TMap []]).
Proof. split; [vm_compute; reflexivity|]. eexists. vm_compute. repeat split. Qed.

Example TestSerializeArrayBad :
  let v := step defaultEnv (load serializeProg [Ref 1%positive] cyclicArena 2%positive) in
  state v = FAULT.
Proof. vm_compute. reflexivity. Qed.

Example TestSerializeDupInteger :
  state (run defaultEnv 20
           (start ([PUSHINT 0; NEWARRAY; DUP; PUSHINT 2; DUP; TOALTSTACK; APPEND;
                    DUP; FROMALTSTACK; APPEND] ++ serializeProg) [])) = HALT.
Proof. vm_compute. reflexivity. Qed.

Example TestSerializeMap :
  let v := run defaultEnv 3 (load serializeProg [Ref 1%positive] mapArena 2%positive) in
  state v = HALT /\
  exists a, estack v = [Ref a] /\ arena v !! a = mapArena !! 1%positive.
Proof. split; [vm_compute; reflexivity|]. eexists. vm_compute. split; reflexivity. Qed.

(** The bytes of TestSerializeMapCompat: 480128036b6579280576616c7565. *)
Example TestSerializeMapCompat :
  estack (run defaultEnv 10
            (start [NEWMAP; DUP; PUSHDATA [107; 101; 121];
                    PUSHDATA [118; 97; 108; 117; 101]; SETITEM;
                    SYSCALL "Neo.Runtime.Serialize"] []))
  = [ByteArray [72; 1; 40; 3; 107; 101; 121; 40; 5; 118; 97; 108; 117; 101]].
Proof. vm_compute. reflexivity. Qed.

Example TestSerializeInterop :
  state (step defaultEnv
           (load serializeProg [Interop 1%positive] {[ 1%positive := Opaque ]} 2%positive))
  = FAULT.
Proof. vm_compute. reflexivity. Qed.

Example TestDeserializeUnknown :
  state (run defaultEnv 3
           (start [SYSCALL "Neo.Runtime.Deserialize"; RET] [ByteArray [255; 1; 123]]))
  = FAULT.
Proof. vm_compute. reflexivity. Qed.

(** TestIteratorValues: five items, [false] on top, [true] at positions 2 and
    4, the two values of the map at positions 1 and 3. *)
Example TestIteratorValues :
  let v := run defaultEnv 20 (load iteratorValuesProg [Ref 1%positive] valuesArena 2%positive) in
  state v = HALT /\
  estack v = [Bool false; ByteArray [7]; Bool true; Bool false; Bool true].
Proof. vm_compute. split; reflexivity. Qed.

Example TestIteratorKeys :
  let v := run defaultEnv 20
             (load iteratorKeysProg [Ref 1%positive]
                   {[ 1%positive := Array [Bool false; Integer 42] ]} 2%positive) in
  state v = HALT /\
  estack v = [Bool false; Integer 1; Bool true; Integer 0; Bool true].
Proof. vm_compute. split; reflexivity. Qed.

(** *** Instances of the theorems *)

Lemma arith_integer_cap_witness :
  exec bareEnv ADD (start [ADD; RET] [Integer 1; Integer (2 ^ 256 - 1)]) = None /\
  exec bareEnv ADD (start [ADD; RET] [Integer 1; Integer (2 ^ 256 - 2)])
  = Some (advance (setEstack (start [ADD; RET] [Integer 1; Integer (2 ^ 256 - 2)])
                             [Integer (2 ^ 256 - 1)])).
Proof.
  split.
  - destruct (arith_integer_cap bareEnv ADD Z.add
                (start [ADD; RET] [Integer 1; Integer (2 ^ 256 - 1)])
                (2 ^ 256 - 1) 1 [] eq_refl eq_refl) as (Hover & _).
    apply Hover. right. right. vm_compute. reflexivity.
  - destruct (arith_integer_cap bareEnv ADD Z.add
                (start [ADD; RET] [Integer 1; Integer (2 ^ 256 - 2)])
                (2 ^ 256 - 2) 1 [] eq_refl eq_refl) as (_ & Hfit & _).
    apply Hfit; vm_compute; reflexivity.
Defined.




Lemma wfArena_arrayArena :
  wfArena (load serializeProg [Ref 1%positive] arrayArena 3%positive).
Proof.
  intros a o H. simpl in *. unfold arrayArena in H.
  destruct (decide (a = 1%positive)) as [->|H1]; [lia|].
  rewrite lookup_insert_ne in H by congruence.
  destruct (decide (a = 2%positive)) as [->|H2]; [lia|].
  rewrite lookup_singleton_ne in H by congruence. discriminate.
Qed.

Lemma serialize_roundtrip_witness :
  exists vm1 vm2 x',
    RuntimeSerialize (load serializeProg [Ref 1%positive] arrayArena 3%positive) = Some vm1 /\
    estack vm1 = [ByteArray [64; 3; 32; 1; 33; 1; 123; 72; 0]] /\
    RuntimeDeserialize vm1 = Some vm2 /\
    estack vm2 = [x'] /\
    Denotes (arena vm2) x' (TArray [TBool true; TInteger 123; TMap []]) /\
    Denotes (arena vm2) (Ref 1%positive) (TArray [TBool true; TInteger 123; TMap []]).
Proof.
  apply (proj1 (serialize_roundtrip
                  (load serializeProg [Ref 1%positive] arrayArena 3%positive)
                  (Ref 1%positive) [] eq_refl)
               (TArray [TBool true; TInteger 123; TMap []])).
  - apply wfArena_arrayArena.
  - apply valueOf_Denotes. vm_compute. reflexivity.
  - reflexivity.
  - vm_compute. discriminate.
Defined.

End Vm.

(** ** pkg/smartcontract/trigger: the names of the trigger types *)

Module Trigger.
Local Open Scope N_scope.

(** The tables of the generated code (_Type_name_0, _Type_index_0 and so
    on). *)
Definition Type_name_0 : string := "VerificationVerificationR".
Definition Type_name_1 : string := "ApplicationApplicationR".
Definition Type_index_0 : list nat := [0; 12; 25]%nat.
Definition Type_index_1 : list nat := [0; 11; 23]%nat.

(** s[lo:hi] *)
Definition slice (s : string) (lo hi : nat) : string := substring lo (hi - lo) s.

(** strconv.FormatInt(n, 10) of a number that is not negative. *)
Definition FormatInt (n : N) : string := NilEmpty.string_of_uint (N.to_uint n).

(** func (i Type) String() string.  The values of the type are unsigned (the
    first case has no lower bound); they are taken as naturals. *)
Definition String (i : N) : string :=
  if i <=? 1 then
    slice Type_name_0 (nth (N.to_nat i) Type_index_0 0%nat)
                      (nth (N.to_nat (i + 1)) Type_index_0 0%nat)
  else if (16 <=? i) && (i <=? 17) then
    let i := i - 16 in
    slice Type_name_1 (nth (N.to_nat i) Type_index_1 0%nat)
                      (nth (N.to_nat (i + 1)) Type_index_1 0%nat)
  else
    ("Type(" ++ FormatInt i ++ ")")%string.

(** The constants of the type. *)
Definition Verification : N := 0.
Definition VerificationR : N := 1.
Definition Application : N := 16.
Definition ApplicationR : N := 17.

Example String_constants :
  String Verification = "Verification"%string /\
  String VerificationR = "VerificationR"%string /\
  String Application = "Application"%string /\
  String ApplicationR = "ApplicationR"%string /\
  String 2 = "Type(2)"%string /\
  String 255 = "Type(255)"%string.
Proof. repeat split. Qed.

Lemma length_append (s t : string) :
  String.length (s ++ t)%string = (String.length s + String.length t)%nat.
Proof. induction s as [|c s IH]; simpl; [reflexivity|]. rewrite IH. reflexivity. Qed.

Lemma append_inj_r (s1 s2 t : string) :
  String.length t = 1%nat -> (s1 ++ t = s2 ++ t)%string -> s1 = s2.
Proof.
  intros Ht. revert s2.
  induction s1 as [|c s1 IH]; intros s2 Heq.
  - destruct s2 as [|c2 s2]; [reflexivity|].
    apply (f_equal String.length) in Heq. simpl in Heq.
    rewrite !length_append in Heq. simpl in Heq. lia.
  - destruct s2 as [|c2 s2].
    + apply (f_equal String.length) in Heq. simpl in Heq.
      rewrite !length_append in Heq. simpl in Heq. lia.
    + simpl in Heq. injection Heq as -> Heq. f_equal. apply IH, Heq.
Qed.

Lemma FormatInt_inj (n m : N) : FormatInt n = FormatInt m -> n = m.
Proof.
  unfold FormatInt. intros H.
  apply DecimalN.Unsigned.to_uint_inj.
  pose proof (NilEmpty.usu (N.to_uint n)) as Hn.
  pose proof (NilEmpty.usu (N.to_uint m)) as Hm.
  rewrite H in Hn. congruence.
Qed.

(** The shape of the result in each of the three cases. *)
Lemma String_cases (i : N) :
  (i = 0 /\ String i = "Verification"%string) \/
  (i = 1 /\ String i = "VerificationR"%string) \/
  (i = 16 /\ String i = "Application"%string) \/
  (i = 17 /\ String i = "ApplicationR"%string) \/
  (String i = ("Type(" ++ FormatInt i ++ ")")%string).
Proof.
  unfold String.
  destruct (i <=? 1) eqn:H1.
  - apply N.leb_le in H1.
    assert (Hi : i = 0 \/ i = 1) by lia.
    destruct Hi as [-> | ->]; [left | right; left]; split; reflexivity.
  - destruct ((16 <=? i) && (i <=? 17)) eqn:H2.
    + apply andb_true_iff in H2 as [Ha Hb].
      apply N.leb_le in Ha, Hb.
      assert (Hi : i = 16 \/ i = 17) by lia.
      destruct Hi as [-> | ->]; [right; right; left | right; right; right; left];
        split; reflexivity.
    + right; right; right; right. reflexivity.
Qed.

(** X15. String tells the trigger types apart: two values with the same
    name are the same value, be they constants of the type or not.  The
    names of the four constants are their Go identifiers, every other value
    is named Type(n) with n in decimal. *)
Theorem String_injective (i j : N) : String i = String j -> i = j.
Proof.
  intros H.
  destruct (String_cases i) as [[-> Hi]|[[-> Hi]|[[-> Hi]|[[-> Hi]|Hi]]]];
    destruct (String_cases j) as [[-> Hj]|[[-> Hj]|[[-> Hj]|[[-> Hj]|Hj]]]];
    try reflexivity;
    rewrite Hi, Hj in H; try discriminate H.
  simpl in H. injection H as H. change (FormatInt i ++ ")" = FormatInt j ++ ")")%string in H.
  apply append_inj_r in H; [|reflexivity].
  apply FormatInt_inj, H.
Qed.

(** The value 0x10 and the constant Application have the one name. *)
Lemma String_injective_witness :
  String (15 + 1) = String Application /\ 15 + 1 = Application.
Proof.
  split; [reflexivity|].
  apply (String_injective (15 + 1) Application). reflexivity.
Defined.
End Trigger.

(** ** pkg/compiler/func_scope.go: the local variables of a function *)

Module Compiler.
Local Open Scope Z_scope.

(** funcScope, the fields that are not nodes of the syntax tree (selector,
    decl and voidCalls are; rng is the range of a debug record).  [int] is
    taken as 64 bits wide. *)
Record funcScope := mkFuncScope {
  name : string;
  label : N;                   (* uint16 *)
  variables : list string;
  locals : gmap string Z;      (* map[string]int *)
  i : Z                        (* int *)
}.

(** func newFuncScope(decl *ast.FuncDecl, label uint16) *funcScope, given
    decl.Name.Name. *)
Definition newFuncScope (declName : string) (label : N) : funcScope :=
  {| name := declName; label := label; variables := []; locals := ∅; i := -1 |}.

(** func (c *funcScope) newLocal(name string) int *)
Definition newLocal (c : funcScope) (n : string) : Z * funcScope :=
  let i' := Int.wrap_i64 (i c + 1) in
  (i', {| name := name c; label := label c; variables := variables c;
          locals := <[n := i']> (locals c); i := i' |}).

(** func (c *funcScope) loadLocal(name string) int *)
Definition loadLocal (c : funcScope) (n : string) : Z * funcScope :=
  match locals c !! n with
  | None => newLocal c n
  | Some v => (v, c)
  end.

(** The calls the code generator makes on a scope, and a scope after a
    sequence of them. *)
Inductive call :=
| NewLocal (n : string)
| LoadLocal (n : string).

Definition doCall (c : funcScope) (k : call) : funcScope :=
  match k with
  | NewLocal n => snd (newLocal c n)
  | LoadLocal n => snd (loadLocal c n)
  end.

Definition doCalls (ks : list call) (c : funcScope) : funcScope :=
  fold_left doCall ks c.

(** Every local has a position between 0 and the counter, and no two locals
    share one; the counter is below [m]. *)
Definition slotsOk (c : funcScope) (m : Z) : Prop :=
  -1 <= i c < m /\
  (forall n v, locals c !! n = Some v -> 0 <= v <= i c) /\
  (forall n1 n2 v, locals c !! n1 = Some v -> locals c !! n2 = Some v -> n1 = n2).

Lemma newLocal_slotsOk (c : funcScope) (n : string) (m : Z) :
  slotsOk c m -> m < 2 ^ 63 -> slotsOk (snd (newLocal c n)) (m + 1).
Proof.
  intros (Hi & Hrange & Hinj) Hm.
  unfold newLocal. simpl.
  rewrite Int.wrap_i64_small by (unfold Int.is_i64; lia).
  unfold slotsOk. simpl.
  split; [lia|]. split.
  - intros n0 v Hv. destruct (decide (n0 = n)) as [->|Hne].
    + rewrite lookup_insert_eq in Hv. injection Hv as <-. lia.
    + rewrite lookup_insert_ne in Hv by congruence.
      specialize (Hrange _ _ Hv). lia.
  - intros n1 n2 v H1 H2.
    destruct (decide (n1 = n)) as [->|Hne1]; destruct (decide (n2 = n)) as [->|Hne2];
      try reflexivity.
    + rewrite lookup_insert_eq in H1. injection H1 as <-.
      rewrite lookup_insert_ne in H2 by congruence.
      specialize (Hrange _ _ H2). lia.
    + rewrite lookup_insert_eq in H2. injection H2 as <-.
      rewrite lookup_insert_ne in H1 by congruence.
      specialize (Hrange _ _ H1). lia.
    + rewrite lookup_insert_ne in H1, H2 by congruence.
      eapply Hinj; eassumption.
Qed.

Lemma doCall_slotsOk (c : funcScope) (k : call) (m : Z) :
  slotsOk c m -> m < 2 ^ 63 -> slotsOk (doCall c k) (m + 1).
Proof.
  intros Hok Hm. destruct k as [n|n]; simpl.
  - apply newLocal_slotsOk; assumption.
  - unfold loadLocal. destruct (locals c !! n) eqn:Hn.
    + simpl. destruct Hok as (Hi & Hrest). split; [lia|exact Hrest].
    + apply newLocal_slotsOk; assumption.
Qed.

(** X16. In a scope made by newFuncScope, whatever calls of newLocal and
    loadLocal follow (fewer than 2^63 of them, so that the counter does not
    wrap around), no two names share a position: the positions handed out
    are distinct, not negative, and at most the counter, which is below the
    number of calls made. *)
Theorem locals_injective (ks : list call) (declName : string) (lbl : N) :
  Z.of_nat (length ks) < 2 ^ 63 ->
  let c := doCalls ks (newFuncScope declName lbl) in
  (forall n1 n2 v, locals c !! n1 = Some v -> locals c !! n2 = Some v -> n1 = n2) /\
  (forall n v, locals c !! n = Some v -> 0 <= v <= i c) /\
  -1 <= i c < Z.of_nat (length ks).
Proof.
  intros Hlen c.
  assert (Hok : slotsOk c (Z.of_nat (length ks))).
  { subst c. induction ks as [|k ks IH] using rev_ind.
    - unfold slotsOk, doCalls. simpl.
      split; [lia|]. split; intros *; rewrite lookup_empty; discriminate.
    - rewrite length_app in *. simpl in *.
      unfold doCalls. rewrite fold_left_app. simpl.
      replace (Z.of_nat (length ks + 1)) with (Z.of_nat (length ks) + 1) by lia.
      apply doCall_slotsOk; [apply IH|]; lia. }
  destruct Hok as (Hi & Hrange & Hinj). auto.
Qed.

(** X17. Loading a local twice gives the same position, and the second
    load changes nothing: loadLocal makes the local on the first load when
    it is not there yet, and finds it from then on.  A local made by
    newLocal is loaded at the position newLocal returned. *)
Theorem loadLocal_stable (c : funcScope) (n : string) :
  loadLocal (snd (loadLocal c n)) n = (fst (loadLocal c n), snd (loadLocal c n)) /\
  loadLocal (snd (newLocal c n)) n = (fst (newLocal c n), snd (newLocal c n)).
Proof.
  assert (Hnew : loadLocal (snd (newLocal c n)) n
                 = (fst (newLocal c n), snd (newLocal c n))).
  { unfold loadLocal at 1. simpl. rewrite lookup_insert_eq. reflexivity. }
  split; [|exact Hnew].
  unfold loadLocal at 2 3 4.
  destruct (locals c !! n) as [v|] eqn:Hn.
  - simpl. unfold loadLocal. rewrite Hn. reflexivity.
  - exact Hnew.
Qed.

Lemma locals_injective_witness :
  let c := doCalls [NewLocal "x"; LoadLocal "y"; LoadLocal "x"; NewLocal "x"]
             (newFuncScope "f" 1) in
  (forall n1 n2 v, locals c !! n1 = Some v -> locals c !! n2 = Some v -> n1 = n2) /\
  (forall n v, locals c !! n = Some v -> 0 <= v <= i c) /\
  -1 <= i c < Z.of_nat (length [NewLocal "x"; LoadLocal "y"; LoadLocal "x"; NewLocal "x"]).
Proof.
  apply (locals_injective [NewLocal "x"; LoadLocal "y"; LoadLocal "x"; NewLocal "x"]
           "f" 1%N).
  simpl. lia.
Defined.

(** A second local of a name takes a new position; the name is found
    there from then on. *)
Example newLocal_shadows :
  let c := doCalls [NewLocal "x"; LoadLocal "y"; LoadLocal "x"; NewLocal "x"]
             (newFuncScope "f" 1) in
  locals c !! "x" = Some 2 /\ locals c !! "y" = Some 1 /\ i c = 2.
Proof. vm_compute. repeat split. Qed.
End Compiler.
